(** * Ink! v6 event decoders of squid-guess-passet-hub

    A shallow embedding of the SCALE helpers ([src/types/ink/support.ts]),
    of the generated event decoders
    ([src/types/ink/guess_the_number/v0.1.0/events.ts]), of the generator
    that emits them ([scripts/gen-ink-decoder.js]), of the run-time
    interpreter ([src/decoders/subsquid-inkv6-decoder.ts]) and of the
    version registry ([registry.ts]), with the generator's handling of
    contract names, of its command line and of the registry files, followed
    by the properties established about them.

    Conventions.  A [Uint8Array] is a [list byte]; [buf[i]] out of range is
    [undefined], here [None].  A JavaScript number that holds an integer is
    a [Z]; bit operators go through [int32]/[uint32] exactly where the
    language wraps.  A string is a [string] whose characters are code units
    below 256.  A thrown exception is the [Throw] outcome.

    The generator is embedded in two stages, as it is written: a function
    from the metadata to the decode expression it emits ([Gen.Code], one
    constructor per template), and the evaluation of that expression on a
    buffer ([Gen.eval]).  The metadata is read through the records of
    [Metadata], which hold what the TypeScript interfaces of the
    interpreter declare; [Raw] keeps the untyped JSON document for the
    tests that are about its shape. *)

From Stdlib Require Import ZArith List String Ascii Bool Lia Sorted.
From Stdlib.Strings Require Import Byte.
From Stdlib Require DecimalString.
From stdpp Require Import gmap strings.
Import ListNotations.
Set Warnings "-register-all".
Local Open Scope string_scope.
Local Open Scope Z_scope.

(** ** Outcomes of a call *)

Inductive JsError : Type :=
| Error (msg : string)        (* [throw new Error(msg)], also [assert] *)
| TypeError (msg : string)    (* raised by the language itself *)
| ReferenceError (msg : string).

(** [OutOfFuel] is produced only by the fuel-indexed interpreters of
    recursive type graphs below; the helpers of [support.ts] never do. *)
Inductive Res (A : Type) : Type :=
| Ok (a : A)
| Throw (e : JsError)
| OutOfFuel.
Arguments Ok {A} a.
Arguments Throw {A} e.
Arguments OutOfFuel {A}.

Definition bind {A B} (r : Res A) (k : A -> Res B) : Res B :=
  match r with
  | Ok a => k a
  | Throw e => Throw e
  | OutOfFuel => OutOfFuel
  end.

Notation "'let!' x ':=' r 'in' k" := (bind r (fun x => k))
  (at level 10, x pattern, r at level 100, k at level 200).

(** [assert(condition, message)] of [support.ts]. *)
Definition assert (condition : bool) (message : string) : Res unit :=
  if condition then Ok tt else Throw (Error message).

(** ** Numbers *)

Definition int32 (z : Z) : Z := (z + 2 ^ 31) mod 2 ^ 32 - 2 ^ 31.
Definition uint32 (z : Z) : Z := z mod 2 ^ 32.

(** [x << n], [x >> n], [x >>> n] and [x | y] on numbers. *)
Definition js_shl (x n : Z) : Z := int32 (Z.shiftl (int32 x) n).
Definition js_shr (x n : Z) : Z := Z.shiftr (int32 x) n.
Definition js_ushr (x n : Z) : Z := Z.shiftr (uint32 x) n.
Definition js_or (x y : Z) : Z := Z.lor (int32 x) (int32 y).

Definition byteZ (b : byte) : Z := Z.of_N (Byte.to_N b).

Abbreviation bytes := (list byte).

(** [buf[i]]: [undefined] when out of range. *)
Definition getByte (buf : bytes) (i : nat) : option byte := nth_error buf i.

(** The number a bit operator sees in [buf[i]]: [undefined] counts as 0. *)
Definition getInt (buf : bytes) (i : nat) : Z :=
  match getByte buf i with Some b => byteZ b | None => 0 end.

(** [buf.slice(start, end)] for [0 <= start], [0 <= end]. *)
Definition slice (buf : bytes) (start stop : nat) : bytes :=
  firstn (stop - start) (skipn start buf).

(** ** Decoded values *)

Inductive Value : Type :=
| VUndef
| VNull
| VNum (z : Z)                       (* number *)
| VBig (z : Z)                       (* bigint *)
| VBool (b : bool)
| VStr (s : string)
| VText (utf8 : bytes)               (* [TextDecoder().decode] of these bytes *)
| VBytes (b : bytes)                 (* Uint8Array *)
| VArr (l : list Value)
| VObj (fields : list (string * Value)).

(** [obj[key] = v] on a plain object: an existing key keeps its place, a
    new one goes last (the keys here are labels and field names, not
    array indices, which the language would list first). *)
Fixpoint setProp (obj : list (string * Value)) (key : string) (v : Value)
  : list (string * Value) :=
  match obj with
  | [] => [(key, v)]
  | (k, w) :: rest =>
      if String.eqb k key then (k, v) :: rest else (k, w) :: setProp rest key v
  end.

Fixpoint getProp (obj : list (string * Value)) (key : string) : option Value :=
  match obj with
  | [] => None
  | (k, w) :: rest => if String.eqb k key then Some w else getProp rest key
  end.

(** ** support.ts *)

Module Support.

(** *** Hex helpers *)

Definition isWhiteSpace (c : ascii) : bool :=
  match nat_of_ascii c with
  | 9%nat | 10%nat | 11%nat | 12%nat | 13%nat | 32%nat | 160%nat => true
  | _ => false
  end.

Definition digit16 (c : ascii) : option Z :=
  let n := Z.of_nat (nat_of_ascii c) in
  if (48 <=? n) && (n <=? 57) then Some (n - 48)
  else if (97 <=? n) && (n <=? 102) then Some (n - 87)
  else if (65 <=? n) && (n <=? 70) then Some (n - 55)
  else None.

Fixpoint trimStart (s : string) : string :=
  match s with
  | String c r => if isWhiteSpace c then trimStart r else s
  | EmptyString => s
  end.

(** The digits of the longest prefix of [s] made of radix-16 digits. *)
Fixpoint digits16 (s : string) : list Z :=
  match s with
  | String c r =>
      match digit16 c with
      | Some d => d :: digits16 r
      | None => []
      end
  | EmptyString => []
  end.

Definition stripHexPrefix (s : string) : string :=
  match s with
  | String "0" (String "x" r) => r
  | String "0" (String "X" r) => r
  | _ => s
  end.

(** [parseInt(s, 16)]; [None] is [NaN]. *)
Definition parseInt16 (s : string) : option Z :=
  let s1 := trimStart s in
  let '(sign, s2) :=
    match s1 with
    | String "-" r => (-1, r)
    | String "+" r => (1, r)
    | _ => (1, s1)
    end in
  match digits16 (stripHexPrefix s2) with
  | [] => None
  | ds => Some (sign * fold_left (fun acc d => 16 * acc + d) ds 0)
  end.

(** Storing a number into a [Uint8Array] cell. *)
Definition toUint8 (n : option Z) : byte :=
  match n with
  | None => x00
  | Some z =>
      match Byte.of_N (Z.to_N (z mod 256)) with
      | Some b => b
      | None => x00
      end
  end.

(** The loop of [hexToBytes]: [out[i >> 1] = parseInt(clean.slice(i, i + 2), 16)]
    for [i = 0, 2, ...]; [out] has [floor(clean.length / 2)] cells, so the
    write for a trailing single character falls outside and is dropped. *)
Fixpoint parsePairs (clean : string) : bytes :=
  match clean with
  | String a (String b r) =>
      toUint8 (parseInt16 (String a (String b EmptyString))) :: parsePairs r
  | _ => []
  end.

Definition startsWith0x (s : string) : bool := String.prefix "0x" s.

(** [hex.slice(2)] *)
Definition slice2 (s : string) : string :=
  match s with
  | String _ (String _ r) => r
  | _ => EmptyString
  end.

Definition hexToBytes (hex : string) : bytes :=
  let clean := if startsWith0x hex then slice2 hex else hex in
  parsePairs clean.

Definition hexChar (n : Z) : ascii :=
  if n <? 10 then ascii_of_nat (Z.to_nat (48 + n))
  else ascii_of_nat (Z.to_nat (87 + n)).

(** [bytes[i].toString(16).padStart(2, '0')] *)
Definition byteHex (b : byte) : string :=
  String (hexChar (byteZ b / 16)) (String (hexChar (byteZ b mod 16)) EmptyString).

Fixpoint hexOf (bs : bytes) : string :=
  match bs with
  | [] => EmptyString
  | b :: r => byteHex b ++ hexOf r
  end.

Definition bytesToHex (bs : bytes) : string := "0x" ++ hexOf bs.

(** *** Readers *)

Record ReadResult (T : Type) : Type := mkRead { value : T; offset : nat }.
Arguments mkRead {T} value offset.
Arguments value {T} r.
Arguments offset {T} r.

Definition readU8 (buf : bytes) (off : nat) : ReadResult (option byte) :=
  mkRead (getByte buf off) (off + 1).

Definition readU16 (buf : bytes) (off : nat) : ReadResult Z :=
  let v := js_or (getInt buf off) (js_shl (getInt buf (off + 1)) 8) in
  mkRead v (off + 2).

Definition readU32 (buf : bytes) (off : nat) : ReadResult Z :=
  let v := js_or (js_or (js_or (getInt buf off)
                               (js_shl (getInt buf (off + 1)) 8))
                        (js_shl (getInt buf (off + 2)) 16))
                 (js_shl (getInt buf (off + 3)) 24) in
  mkRead (js_ushr v 0) (off + 4).

(** [BigInt(buf[i])]: a [TypeError] on [undefined]. *)
Definition bigIntAt (buf : bytes) (i : nat) : Res Z :=
  match getByte buf i with
  | Some b => Ok (byteZ b)
  | None => Throw (TypeError "Cannot convert undefined to a BigInt")
  end.

(** [for (let i = from; i < from + n; i++) v |= BigInt(buf[base + i]) << BigInt(8 * i)] *)
Fixpoint bigLoop (buf : bytes) (base : nat) (i n : nat) (v : Z) : Res Z :=
  match n with
  | O => Ok v
  | S n' =>
      let! b := bigIntAt buf (base + i) in
      bigLoop buf base (S i) n' (Z.lor v (Z.shiftl b (Z.of_nat (8 * i))))
  end.

Definition readU64 (buf : bytes) (off : nat) : Res (ReadResult Z) :=
  let! v := bigLoop buf off 0 8 0 in
  Ok (mkRead v (off + 8)).

Definition readU128 (buf : bytes) (off : nat) : Res (ReadResult Z) :=
  let! v := bigLoop buf off 0 16 0 in
  Ok (mkRead v (off + 16)).

(** The value is a number in the first three modes and a bigint in the
    fourth. *)
Definition readCompactU32 (buf : bytes) (off : nat) : Res (ReadResult Value) :=
  let flag := Z.land (getInt buf off) 3 in
  if flag =? 0 then
    Ok (mkRead (VNum (js_shr (getInt buf off) 2)) (off + 1))
  else if flag =? 1 then
    let lo := getInt buf off in
    let hi := getInt buf (off + 1) in
    let v := js_ushr (js_shr (js_or lo (js_shl hi 8)) 2) 0 in
    Ok (mkRead (VNum v) (off + 2))
  else if flag =? 2 then
    let a := getInt buf off in
    let b := getInt buf (off + 1) in
    let c := getInt buf (off + 2) in
    let d := getInt buf (off + 3) in
    let v := js_ushr (js_ushr (js_or (js_or (js_or a (js_shl b 8)) (js_shl c 16))
                                      (js_shl d 24)) 2) 0 in
    Ok (mkRead (VNum v) (off + 4))
  else
    let byteLen := Z.to_nat (4 + js_shr (getInt buf off) 2) in
    let! val := bigLoop buf (off + 1) 0 byteLen 0 in
    Ok (mkRead (VBig val) (off + 1 + byteLen)).

(** [Number(x)] for the two kinds of value [readCompactU32] returns.  A
    bigint above 2^53 would be rounded to the nearest double; the model
    keeps the integer. *)
Definition toNumber (v : Value) : Z :=
  match v with
  | VNum z | VBig z => z
  | _ => 0
  end.

Definition readString (buf : bytes) (off : nat) : Res (ReadResult Value) :=
  let! len := readCompactU32 buf off in
  let start := offset len in
  let stop := (start + Z.to_nat (toNumber (value len)))%nat in
  Ok (mkRead (VText (slice buf start stop)) stop).

End Support.

Import Support.

(** [buf[i]] as a value: a number, or [undefined]. *)
Definition byteValue (o : option byte) : Value :=
  match o with Some x => VNum (byteZ x) | None => VUndef end.

(** What a generated [decodeEvent] returns: [{ eventType, data }]. *)
Record DecodedEvent : Type :=
  mkEvent { eventType : string; data : list (string * Value) }.

(** ** events.ts, as generated for guess_the_number v0.1.0 *)

Module Events.

(** [Record<string, unknown>] *)
Abbreviation Record_ := (list (string * Value)).

(** The four lines every block of an indexed argument starts with:
    [assert(topicIndex < topics.length, ...)], [const t = topics[topicIndex++]],
    [const tb = hexToBytes(t)], [assert(tb.length >= 32, ...)].  Returns
    [t], [tb] and the advanced [topicIndex]. *)
Definition nextTopic (label : string) (topics : list string) (topicIndex : nat)
  : Res (string * bytes * nat) :=
  let! _ := assert (topicIndex <? length topics)%nat
                   ("Missing topic for indexed arg " ++ label) in
  let t := nth topicIndex topics "" in
  let tb := hexToBytes t in
  let! _ := assert (32 <=? length tb)%nat
                   ("Invalid topic length for indexed arg " ++ label) in
  Ok (t, tb, S topicIndex).

(** [assert(offset <= data.length, 'Offset overflow for arg ...')] *)
Definition checkOffset (label : string) (data : bytes) (offset : nat) : Res unit :=
  assert (offset <=? length data)%nat ("Offset overflow for arg " ++ label).

Definition decodeNewGame (dataHex : string) (topics : list string) : Res Record_ :=
  let data := hexToBytes dataHex in
  let result : Record_ := [] in
  let offset := 0%nat in
  let topicIndex := 1%nat in
  let! (t, tb, topicIndex) := nextTopic "game_number" topics topicIndex in
  let! r := readU128 tb 0 in
  let result := setProp result "game_number" (VBig (value r)) in
  let! (t, tb, topicIndex) := nextTopic "player" topics topicIndex in
  let hex := bytesToHex (skipn (length tb - 20) tb) in
  let result := setProp result "player" (VStr hex) in
  let! _ := checkOffset "min_number" data offset in
  let r := readU16 data offset in
  let result := setProp result "min_number" (VNum (value r)) in
  let offset := Support.offset r in
  let! _ := checkOffset "max_number" data offset in
  let r := readU16 data offset in
  let result := setProp result "max_number" (VNum (value r)) in
  let offset := Support.offset r in
  Ok result.

Definition decodeGuessMade (dataHex : string) (topics : list string) : Res Record_ :=
  let data := hexToBytes dataHex in
  let result : Record_ := [] in
  let offset := 0%nat in
  let topicIndex := 1%nat in
  let! (t, tb, topicIndex) := nextTopic "game_number" topics topicIndex in
  let! r := readU128 tb 0 in
  let result := setProp result "game_number" (VBig (value r)) in
  let! _ := checkOffset "attempt" data offset in
  let r := readU32 data offset in
  let result := setProp result "attempt" (VNum (value r)) in
  let offset := Support.offset r in
  let! _ := checkOffset "guess" data offset in
  let r := readU16 data offset in
  let result := setProp result "guess" (VNum (value r)) in
  let offset := Support.offset r in
  Ok result.

(** [map[idx] || 'Unknown'] for [map = ["More","Less","Found"]]. *)
Definition clueName (idx : option byte) : string :=
  match idx with
  | Some i =>
      match nth_error ["More"; "Less"; "Found"] (N.to_nat (Byte.to_N i)) with
      | Some name => name
      | None => "Unknown"
      end
  | None => "Unknown"
  end.

Definition decodeClueGiven (dataHex : string) (topics : list string) : Res Record_ :=
  let data := hexToBytes dataHex in
  let result : Record_ := [] in
  let offset := 0%nat in
  let topicIndex := 1%nat in
  let! (t, tb, topicIndex) := nextTopic "game_number" topics topicIndex in
  let! r := readU128 tb 0 in
  let result := setProp result "game_number" (VBig (value r)) in
  let! _ := checkOffset "attempt" data offset in
  let r := readU32 data offset in
  let result := setProp result "attempt" (VNum (value r)) in
  let offset := Support.offset r in
  let! _ := checkOffset "guess" data offset in
  let r := readU16 data offset in
  let result := setProp result "guess" (VNum (value r)) in
  let offset := Support.offset r in
  let! _ := checkOffset "clue" data offset in
  let r := mkRead (VStr (clueName (getByte data offset))) (offset + 1) in
  let result := setProp result "clue" (value r) in
  let offset := Support.offset r in
  Ok result.

Definition decodeMetaTransactionDecoded (dataHex : string) (topics : list string)
  : Res Record_ :=
  let data := hexToBytes dataHex in
  let result : Record_ := [] in
  Ok result.

(** [for (let i = 0; i < n; i++) { const elem = readU8(data, arrOffset); ... }] *)
Fixpoint readU8Loop (data : bytes) (arrOffset : nat) (n : nat) : list Value * nat :=
  match n with
  | O => ([], arrOffset)
  | S n' =>
      let elem := readU8 data arrOffset in
      let '(arr, off) := readU8Loop data (Support.offset elem) n' in
      (byteValue (value elem) :: arr, off)
  end.

(** The composite with one unnamed [[u8; 20]] field of [grantor] and [sender]. *)
Definition readField0 (data : bytes) (offset : nat) : ReadResult Value :=
  let currentOffset := offset in
  let '(arr, arrOffset) := readU8Loop data currentOffset 20 in
  let result := setProp [] "field0" (VArr arr) in
  mkRead (VObj result) arrOffset.

Definition decodeRoleGranted (dataHex : string) (topics : list string) : Res Record_ :=
  let data := hexToBytes dataHex in
  let result : Record_ := [] in
  let offset := 0%nat in
  let topicIndex := 1%nat in
  let! (t, tb, topicIndex) := nextTopic "role" topics topicIndex in
  let r := readU32 tb 0 in
  let result := setProp result "role" (VNum (value r)) in
  let! (t, tb, topicIndex) := nextTopic "grantee" topics topicIndex in
  let hex := bytesToHex (skipn (length tb - 20) tb) in
  let result := setProp result "grantee" (VStr hex) in
  let! _ := checkOffset "grantor" data offset in
  let r := readField0 data offset in
  let result := setProp result "grantor" (value r) in
  let offset := Support.offset r in
  Ok result.

Definition decodeRoleRevoked (dataHex : string) (topics : list string) : Res Record_ :=
  let data := hexToBytes dataHex in
  let result : Record_ := [] in
  let offset := 0%nat in
  let topicIndex := 1%nat in
  let! (t, tb, topicIndex) := nextTopic "role" topics topicIndex in
  let r := readU32 tb 0 in
  let result := setProp result "role" (VNum (value r)) in
  let! (t, tb, topicIndex) := nextTopic "account" topics topicIndex in
  let hex := bytesToHex (skipn (length tb - 20) tb) in
  let result := setProp result "account" (VStr hex) in
  let! _ := checkOffset "sender" data offset in
  let r := readField0 data offset in
  let result := setProp result "sender" (value r) in
  let offset := Support.offset r in
  Ok result.

Definition decodeMessageQueued (dataHex : string) (topics : list string) : Res Record_ :=
  let data := hexToBytes dataHex in
  let result : Record_ := [] in
  let offset := 0%nat in
  let topicIndex := 1%nat in
  let! (t, tb, topicIndex) := nextTopic "id" topics topicIndex in
  let r := readU32 tb 0 in
  let result := setProp result "id" (VNum (value r)) in
  let! _ := checkOffset "data" data offset in
  let! len := readCompactU32 data offset in
  let start := Support.offset len in
  let stop := (start + Z.to_nat (toNumber (value len)))%nat in
  let r := mkRead (VBytes (slice data start stop)) stop in
  let result := setProp result "data" (value r) in
  let offset := Support.offset r in
  Ok result.

Definition decodeMessageProcessed (dataHex : string) (topics : list string)
  : Res Record_ :=
  let data := hexToBytes dataHex in
  let result : Record_ := [] in
  let offset := 0%nat in
  let topicIndex := 1%nat in
  let! (t, tb, topicIndex) := nextTopic "id" topics topicIndex in
  let r := readU32 tb 0 in
  let result := setProp result "id" (VNum (value r)) in
  Ok result.

Definition EVENT_SIGNATURES : list (string * string) :=
  [ ("c8a7c5d86cdaf43555273e08a00e4cdaa93cf22046685231d5eb1b6c0d29fa92", "new_game");
    ("bfe3e4de23c556408a7c400baf6b27364bdb763595ac8f3547c20db70131083a", "guess_made");
    ("d30c753e3012d98d428abde3eebaae62a09d7d043d8018f1ecb4e6c5d3dc9429", "clue_given");
    ("4ee61a2092334a28b8ce7389a8ba2a9c1a9909e0c95b01cbbafb07b7bb576048", "meta_transaction_decoded");
    ("9fcfc0869a89de6464b06891fcfa026e1ac809ce01300cd76a342e696297dd20", "role_granted");
    ("67cf5731bde3ef79029b3c63ea7a49b0e816d53d665ff88e412b696684ab9c11", "role_revoked");
    ("cfd8f7cee62376e0a894a1c5d124ec219dc678fd742bcb7f183455a362744aa1", "message_queued");
    ("db1dbb06d6c5f62bcd2d0b8e2b251826b43e15a2b17b80080837dc8cd561a283", "message_processed") ].

(** [return { eventType: name, data: decode(dataHex, topics) }] *)
Definition ret (name : string) (r : Res Record_) : Res (option DecodedEvent) :=
  let! d := r in Ok (Some (mkEvent name d)).

(** The [switch (signatureHex)]; [Ok None] is the returned [null]. *)
Definition decodeEvent (signatureHex dataHex : string) (topics : list string)
  : Res (option DecodedEvent) :=
  if String.eqb signatureHex "c8a7c5d86cdaf43555273e08a00e4cdaa93cf22046685231d5eb1b6c0d29fa92"
  then ret "new_game" (decodeNewGame dataHex topics)
  else if String.eqb signatureHex "bfe3e4de23c556408a7c400baf6b27364bdb763595ac8f3547c20db70131083a"
  then ret "guess_made" (decodeGuessMade dataHex topics)
  else if String.eqb signatureHex "d30c753e3012d98d428abde3eebaae62a09d7d043d8018f1ecb4e6c5d3dc9429"
  then ret "clue_given" (decodeClueGiven dataHex topics)
  else if String.eqb signatureHex "4ee61a2092334a28b8ce7389a8ba2a9c1a9909e0c95b01cbbafb07b7bb576048"
  then ret "meta_transaction_decoded" (decodeMetaTransactionDecoded dataHex topics)
  else if String.eqb signatureHex "9fcfc0869a89de6464b06891fcfa026e1ac809ce01300cd76a342e696297dd20"
  then ret "role_granted" (decodeRoleGranted dataHex topics)
  else if String.eqb signatureHex "67cf5731bde3ef79029b3c63ea7a49b0e816d53d665ff88e412b696684ab9c11"
  then ret "role_revoked" (decodeRoleRevoked dataHex topics)
  else if String.eqb signatureHex "cfd8f7cee62376e0a894a1c5d124ec219dc678fd742bcb7f183455a362744aa1"
  then ret "message_queued" (decodeMessageQueued dataHex topics)
  else if String.eqb signatureHex "db1dbb06d6c5f62bcd2d0b8e2b251826b43e15a2b17b80080837dc8cd561a283"
  then ret "message_processed" (decodeMessageProcessed dataHex topics)
  else Ok None.

End Events.

(** ** Contract metadata (Ink! v6), as both decoders read it *)

Module Metadata.

Record Field : Type := mkField { f_name : option string; f_type : Z }.

Record VariantDef : Type :=
  mkVariant { v_index : Z; v_name : string; v_fields : list Field }.

(** [type.def] has one of the keys [primitive], [composite], [variant],
    [sequence], [array], [tuple]; [DOther] stands for any other. *)
Inductive Def : Type :=
| DPrimitive (p : string)
| DComposite (fields : list Field)
| DVariant (variants : list VariantDef)
| DSequence (elem : Z)
| DArray (len : Z) (elem : Z)
| DTuple (elems : list Z)
| DOther.

Record TypeInfo : Type := mkType { t_def : Def; t_path : list string }.

Record TypeEntry : Type := mkTypeEntry { id : Z; type : TypeInfo }.

(** An event argument; [a_type] is the id that
    [typeof arg.type === 'object' ? arg.type.type : arg.type] yields. *)
Record ArgSpec : Type :=
  mkArg { a_label : string; a_type : Z; a_indexed : bool }.

Record EventSpec : Type :=
  mkEventSpec { e_label : string; e_args : list ArgSpec;
                signature_topic : option string }.

Record Document : Type :=
  mkDoc { events : list EventSpec; types : list TypeEntry }.

(** [s || dflt] on a possibly missing string. *)
Definition orElse (s : option string) (dflt : string) : string :=
  match s with
  | Some (String c r) => String c r
  | _ => dflt
  end.

Definition showNat (n : nat) : string :=
  DecimalString.NilZero.string_of_uint (Nat.to_uint n).

Definition showZ (z : Z) : string :=
  DecimalString.NilZero.string_of_int (Z.to_int z).

(** [t.path.join('.') === 'primitive_types.H160'] *)
Definition isH160 (t : TypeInfo) : bool :=
  String.eqb (String.concat "." (t_path t)) "primitive_types.H160".

End Metadata.

Import Metadata.

(** ** gen-ink-decoder.js: the generator and the code it emits *)

Module Gen.

(** *** The emitted decode expressions

    One constructor per template of [generateDecodeCall].  A template
    that opens a function body and declares a local offset variable
    records the name [offsetVar] it was instantiated with: when that is
    the name the body itself declares with [let], the body reads its own
    variable before its initialisation (the emitted code is taken as it
    runs with its [let] declarations kept). *)
Inductive Case (C : Type) : Type :=
| CaseUnit (name : string)
| CaseStruct (name : string) (fields : list (string * C))
| CaseTuple (name : string) (fields : list C).
Arguments CaseUnit {C} name.
Arguments CaseStruct {C} name fields.
Arguments CaseTuple {C} name fields.

Inductive Code : Type :=
| CAssertFalse (msg : string)
| CReadU8 | CReadU16 | CReadU32 | CReadU64 | CReadU128
| CI8 | CI16 | CI32 | CBool | CReadString
| CComposite (offsetVar : string) (fields : list (string * Code))
| CUnitVariant (names : list string)
| CSwitch (offsetVar : string) (cases : list (Z * Case Code))
| CVecU8
| CVec (offsetVar : string) (elem : Code)
| CArrayInline (offsetVar : string) (elems : list Code)
| CArrayLoop (offsetVar : string) (len : Z) (elem : Code)
| CH160.

Definition tdz (name : string) : JsError :=
  ReferenceError ("Cannot access '" ++ name ++ "' before initialization").

(** [map[idx] || 'Unknown'] *)
Definition unitName (names : list string) (idx : option byte) : string :=
  match idx with
  | Some i => orElse (nth_error names (N.to_nat (Byte.to_N i))) "Unknown"
  | None => "Unknown"
  end.

(** [{ tag: name, ...fields }] *)
Definition spreadTag (name : string) (fields : list (string * Value))
  : list (string * Value) :=
  fold_left (fun obj kv => setProp obj (fst kv) (snd kv)) fields
            [("tag", VStr name)].

Fixpoint eval (c : Code) (data : bytes) (off : nat) {struct c}
  : Res (Value * nat) :=
  match c with
  | CAssertFalse msg => Throw (Error msg)
  | CReadU8 => let r := readU8 data off in Ok (byteValue (value r), offset r)
  | CReadU16 => let r := readU16 data off in Ok (VNum (value r), offset r)
  | CReadU32 => let r := readU32 data off in Ok (VNum (value r), offset r)
  | CReadU64 => let! r := readU64 data off in Ok (VBig (value r), offset r)
  | CReadU128 => let! r := readU128 data off in Ok (VBig (value r), offset r)
  | CI8 =>
      (* [v] is the whole read result, so [v > 127] is false and the
         value is [v] itself *)
      let v := readU8 data off in
      Ok (VObj [("value", byteValue (value v));
                ("offset", VNum (Z.of_nat (offset v)))], (off + 1)%nat)
  | CI16 =>
      let r := readU16 data off in
      Ok (VNum (if 32767 <? value r then value r - 65536 else value r), offset r)
  | CI32 =>
      let r := readU32 data off in
      Ok (VNum (if 2147483647 <? value r then value r - 4294967296 else value r),
          offset r)
  | CBool =>
      let b := match getByte data off with
               | Some x => negb (byteZ x =? 0)
               | None => true
               end in
      Ok (VBool b, (off + 1)%nat)
  | CReadString => let! r := readString data off in Ok (value r, offset r)
  | CComposite offsetVar fields =>
      if String.eqb offsetVar "currentOffset" then Throw (tdz "currentOffset")
      else
        (fix go (fs : list (string * Code)) (result : list (string * Value))
                (currentOffset : nat) {struct fs} : Res (Value * nat) :=
           match fs with
           | [] => Ok (VObj result, currentOffset)
           | (name, fc) :: rest =>
               let! f := eval fc data currentOffset in
               go rest (setProp result name (fst f)) (snd f)
           end) fields [] off
  | CUnitVariant names =>
      Ok (VStr (unitName names (getByte data off)), (off + 1)%nat)
  | CSwitch offsetVar cases =>
      if String.eqb offsetVar "variantOffset" then Throw (tdz "variantOffset")
      else
        let discriminant := getByte data off in
        let variantOffset := (off + 1)%nat in
        (fix pick (cs : list (Z * Case Code)) {struct cs} : Res (Value * nat) :=
           match cs with
           | [] =>
               Ok (VObj [("tag", VStr "UnknownVariant");
                         ("index", byteValue discriminant)], variantOffset)
           | (index, cs1) :: rest =>
               if match discriminant with
                  | Some d => index =? byteZ d
                  | None => false
                  end
               then
                 match cs1 with
                 | CaseUnit name => Ok (VStr name, variantOffset)
                 | CaseStruct name fields =>
                     (fix go (fs : list (string * Code))
                             (acc : list (string * Value)) (vo : nat) {struct fs}
                        : Res (Value * nat) :=
                        match fs with
                        | [] => Ok (VObj (spreadTag name acc), vo)
                        | (fname, fc) :: more =>
                            let! f := eval fc data vo in
                            go more (setProp acc fname (fst f)) (snd f)
                        end) fields [] variantOffset
                 | CaseTuple name fields =>
                     (fix go (fs : list Code) (acc : list Value) (vo : nat)
                             {struct fs} : Res (Value * nat) :=
                        match fs with
                        | [] => Ok (VObj [("tag", VStr name); ("value", VArr acc)], vo)
                        | fc :: more =>
                            let! f := eval fc data vo in
                            go more (acc ++ [fst f])%list (snd f)
                        end) fields [] variantOffset
                 end
               else pick rest
           end) cases
  | CVecU8 =>
      let! len := readCompactU32 data off in
      let start := offset len in
      let stop := (start + Z.to_nat (toNumber (value len)))%nat in
      Ok (VBytes (slice data start stop), stop)
  | CVec offsetVar elem =>
      if String.eqb offsetVar "vecOffset" then Throw (tdz "vecOffset")
      else
        let! len := readCompactU32 data off in
        let count := Z.to_nat (toNumber (value len)) in
        (fix loop (n : nat) (arr : list Value) (vecOffset : nat) {struct n}
           : Res (Value * nat) :=
           match n with
           | O => Ok (VArr arr, vecOffset)
           | S n' =>
               let! e := eval elem data vecOffset in
               loop n' (arr ++ [fst e])%list (snd e)
           end) count [] (offset len)
  | CArrayInline offsetVar elems =>
      if String.eqb offsetVar "arrOffset" then Throw (tdz "arrOffset")
      else
        (fix go (es : list Code) (arr : list Value) (arrOffset : nat) {struct es}
           : Res (Value * nat) :=
           match es with
           | [] => Ok (VArr arr, arrOffset)
           | ec :: more =>
               let! e := eval ec data arrOffset in
               go more (arr ++ [fst e])%list (snd e)
           end) elems [] off
  | CArrayLoop offsetVar len elem =>
      if String.eqb offsetVar "arrOffset" then Throw (tdz "arrOffset")
      else
        (fix loop (n : nat) (arr : list Value) (arrOffset : nat) {struct n}
           : Res (Value * nat) :=
           match n with
           | O => Ok (VArr arr, arrOffset)
           | S n' =>
               let! e := eval elem data arrOffset in
               loop n' (arr ++ [fst e])%list (snd e)
           end) (Z.to_nat len) [] off
  | CH160 =>
      let! _ := assert (off + 20 <=? length data)%nat "H160 read overflow" in
      Ok (VStr (bytesToHex (slice data off (off + 20))), (off + 20)%nat)
  end.

(** *** generateDecodeCall

    The generator recurses through the type table by id; [fuel] bounds
    the depth of that recursion, and [None] means the bound was reached
    (on a cyclic table the generator never returns). *)

Definition findType (types : list TypeEntry) (typeId : Z) : option TypeInfo :=
  match List.find (fun t => id t =? typeId) types with
  | Some entry => Some (type entry)
  | None => None
  end.

(** [list.map(function (x, idx) { ... })] for a partial function. *)
Fixpoint mapMi {A B} (f : nat -> A -> option B) (l : list A) (idx : nat)
  : option (list B) :=
  match l with
  | [] => Some []
  | x :: rest =>
      match f idx x with
      | None => None
      | Some y =>
          match mapMi f rest (S idx) with
          | None => None
          | Some ys => Some (y :: ys)
          end
      end
  end.

Definition primitiveCode (p : string) : Code :=
  if String.eqb p "u8" then CReadU8
  else if String.eqb p "u16" then CReadU16
  else if String.eqb p "u32" then CReadU32
  else if String.eqb p "u64" then CReadU64
  else if String.eqb p "u128" then CReadU128
  else if String.eqb p "i8" then CI8
  else if String.eqb p "i16" then CI16
  else if String.eqb p "i32" then CI32
  else if String.eqb p "bool" then CBool
  else if String.eqb p "str" then CReadString
  else CAssertFalse ("Unsupported primitive: " ++ p).

(** [f.name || 'field' + idx] *)
Definition fieldName (f : Field) (idx : nat) : string :=
  orElse (f_name f) ("field" ++ showNat idx).

(** [v.fields.some(function(f) { return f.name })] *)
Definition hasNamedFields (fields : list Field) : bool :=
  existsb (fun f => match f_name f with
                    | Some (String _ _) => true
                    | _ => false
                    end) fields.

Definition isUnit (v : VariantDef) : bool :=
  match v_fields v with [] => true | _ => false end.

Section Generator.

Variable types : list TypeEntry.

Fixpoint generateDecodeCall (fuel : nat) (typeId : Z) (offsetVar : string)
  {struct fuel} : option Code :=
  match fuel with
  | O => None
  | S fuel' =>
      match findType types typeId with
      | None => Some (CAssertFalse ("Unknown type " ++ showZ typeId))
      | Some t =>
          (* the two last tests of the function, reached when no
             earlier one applies *)
          let last :=
            if isH160 t then CH160
            else CAssertFalse ("Unsupported type " ++ showZ typeId) in
          match t_def t with
          | DPrimitive EmptyString => Some last
          | DPrimitive p => Some (primitiveCode p)
          | DComposite fields =>
              option_map (CComposite offsetVar)
                (mapMi (fun idx f =>
                          option_map (pair (fieldName f idx))
                            (generateDecodeCall fuel' (f_type f) "currentOffset"))
                       fields 0)
          | DVariant variants =>
              if forallb isUnit variants
              then Some (CUnitVariant (map v_name variants))
              else
                option_map (CSwitch offsetVar)
                  (mapMi (fun _ v =>
                     option_map (pair (v_index v))
                       (if isUnit v then Some (CaseUnit (v_name v))
                        else if hasNamedFields (v_fields v) then
                          option_map (CaseStruct (v_name v))
                            (mapMi (fun idx f =>
                                      option_map (pair (fieldName f idx))
                                        (generateDecodeCall fuel' (f_type f)
                                                            "variantOffset"))
                                   (v_fields v) 0)
                        else
                          option_map (CaseTuple (v_name v))
                            (mapMi (fun _ f =>
                                      generateDecodeCall fuel' (f_type f)
                                                         "variantOffset")
                                   (v_fields v) 0)))
                     variants 0)
          | DSequence elementType =>
              if elementType =? 5 then Some CVecU8
              else option_map (CVec offsetVar)
                     (generateDecodeCall fuel' elementType "vecOffset")
          | DArray len elementType =>
              if elementType =? 0 then Some last
              else if len <=? 4 then
                option_map (CArrayInline offsetVar)
                  (mapMi (fun _ _ => generateDecodeCall fuel' elementType "arrOffset")
                         (repeat tt (Z.to_nat len)) 0)
              else
                option_map (CArrayLoop offsetVar len)
                  (generateDecodeCall fuel' elementType "arrOffset")
          | DTuple _ | DOther => Some last
          end
      end
  end.

(** *** generateEventDecoder *)

Inductive TopicKind : Type := TU128 | TH160 | TU32 | TU16 | TRaw.

Inductive Block : Type :=
| BIndexed (label : string) (kind : TopicKind)
| BData (label : string) (code : Code).

Definition isPrimitive (t : TypeInfo) (p : string) : bool :=
  match t_def t with
  | DPrimitive q => String.eqb q p
  | _ => false
  end.

Definition topicKind (tdef : option TypeInfo) : TopicKind :=
  match tdef with
  | None => TRaw
  | Some t =>
      if isPrimitive t "u128" then TU128
      else if isH160 t then TH160
      else if isPrimitive t "u32" then TU32
      else if isPrimitive t "u16" then TU16
      else TRaw
  end.

Definition generateBlock (fuel : nat) (arg : ArgSpec) : option Block :=
  let typeId := a_type arg in
  let label := orElse (Some (a_label arg)) "field" in
  if a_indexed arg then Some (BIndexed label (topicKind (findType types typeId)))
  else option_map (BData label) (generateDecodeCall fuel typeId "offset").

Definition generateEventDecoder (fuel : nat) (args : list ArgSpec)
  : option (list Block) :=
  mapMi (fun _ arg => generateBlock fuel arg) args 0.

End Generator.

(** *** What a generated event function does *)

Record Ctx : Type :=
  mkCtx { result : list (string * Value); offset : nat; topicIndex : nat }.

Definition stepBlock (data : bytes) (topics : list string) (ctx : Ctx) (blk : Block)
  : Res Ctx :=
  match blk with
  | BIndexed label kind =>
      let! _ := assert (topicIndex ctx <? length topics)%nat
                       ("Missing topic for indexed arg " ++ label) in
      let t := nth (topicIndex ctx) topics "" in
      let topicIndex' := S (topicIndex ctx) in
      let tb := hexToBytes t in
      let! _ := assert (32 <=? length tb)%nat
                       ("Invalid topic length for indexed arg " ++ label) in
      let! v :=
        match kind with
        | TU128 => let! r := readU128 tb 0 in Ok (VBig (value r))
        | TH160 => Ok (VStr (bytesToHex (skipn (length tb - 20) tb)))
        | TU32 => Ok (VNum (value (readU32 tb 0)))
        | TU16 => Ok (VNum (value (readU16 tb 0)))
        | TRaw => Ok (VStr t)
        end in
      Ok (mkCtx (setProp (result ctx) label v) (offset ctx) topicIndex')
  | BData label code =>
      let! _ := assert (offset ctx <=? length data)%nat
                       ("Offset overflow for arg " ++ label) in
      let! r := eval code data (offset ctx) in
      Ok (mkCtx (setProp (result ctx) label (fst r)) (snd r) (topicIndex ctx))
  end.

Fixpoint runBlocks (data : bytes) (topics : list string) (ctx : Ctx)
                   (blocks : list Block) : Res Ctx :=
  match blocks with
  | [] => Ok ctx
  | blk :: rest =>
      let! ctx' := stepBlock data topics ctx blk in
      runBlocks data topics ctx' rest
  end.

(** [decode<Label>(dataHex, topics)] *)
Definition decodeFn (blocks : list Block) (dataHex : string) (topics : list string)
  : Res (list (string * Value)) :=
  let data := hexToBytes dataHex in
  let! ctx := runBlocks data topics (mkCtx [] 0 1) blocks in
  Ok (result ctx).

(** *** generateEventsTs *)

Definition isLower (c : ascii) : bool :=
  (97 <=? nat_of_ascii c)%nat && (nat_of_ascii c <=? 122)%nat.
Definition isUpper (c : ascii) : bool :=
  (65 <=? nat_of_ascii c)%nat && (nat_of_ascii c <=? 90)%nat.

(** [label.replace(/([a-z])([A-Z])/g, '$1_$2')] *)
Fixpoint underscore (s : string) : string :=
  match s with
  | String a (String b r as tl) =>
      if isLower a && isUpper b
      then String a (String "_" (String b (underscore r)))
      else String a (underscore tl)
  | _ => s
  end.

Definition lowerChar (c : ascii) : ascii :=
  if isUpper c then ascii_of_nat (nat_of_ascii c + 32) else c.

(** [toLowerCase()], on the letters A to Z. *)
Fixpoint toLowerCase (s : string) : string :=
  match s with
  | String c r => String (lowerChar c) (toLowerCase r)
  | EmptyString => EmptyString
  end.

(** [s.replace(/^0x/, '')] *)
Definition strip0x (s : string) : string :=
  if startsWith0x s then slice2 s else s.

Record Entry : Type :=
  mkEntry { sig : string; label : string; snake : string; blocks : list Block }.

Definition generateEntry (types : list TypeEntry) (fuel : nat) (e : EventSpec)
  : option Entry :=
  let sig := strip0x (orElse (signature_topic e) "") in
  let label := orElse (Some (e_label e)) "UnknownEvent" in
  let snake := toLowerCase (underscore label) in
  option_map (mkEntry sig label snake)
             (generateEventDecoder types fuel (e_args e)).

(** The generated module, as far as decoding goes: one entry per event, in
    the order of [spec.events]. *)
Definition generateEventsTs (fuel : nat) (metadata : Document) : option (list Entry) :=
  mapMi (fun _ e => generateEntry (types metadata) fuel e) (events metadata) 0.

(** The generated [decodeEvent]: a [switch] over the signatures, first
    equal [case] first; [Ok None] is the returned [null]. *)
Fixpoint decodeEvent (entries : list Entry) (signatureHex dataHex : string)
                     (topics : list string) : Res (option DecodedEvent) :=
  match entries with
  | [] => Ok None
  | e :: rest =>
      if String.eqb signatureHex (sig e) then
        let! d := decodeFn (blocks e) dataHex topics in
        Ok (Some (mkEvent (snake e) d))
      else decodeEvent rest signatureHex dataHex topics
  end.

End Gen.

(** ** subsquid-inkv6-decoder.ts: the run-time interpreter *)

Module Interp.

(** Offsets are integers here: [decodeString] adds a 32-bit length that
    may be negative. *)
Definition at_ (buf : bytes) (i : Z) : option byte :=
  if i <? 0 then None else nth_error buf (Z.to_nat i).

Definition intAt (buf : bytes) (i : Z) : Z :=
  match at_ buf i with Some x => byteZ x | None => 0 end.

(** [bytes.slice(start, end)], negative bounds counting from the end. *)
Definition sliceZ (buf : bytes) (start stop : Z) : bytes :=
  let len := Z.of_nat (length buf) in
  let clamp := fun k => if k <? 0 then Z.max (len + k) 0 else Z.min k len in
  let from := clamp start in
  let to := clamp stop in
  firstn (Z.to_nat (to - from)) (skipn (Z.to_nat from) buf).

Definition hexToBytes (hex : string) : bytes := Support.hexToBytes hex.

Definition readU16 (buf : bytes) (off : Z) : Z :=
  js_or (intAt buf off) (js_shl (intAt buf (off + 1)) 8).

(** No [>>> 0] here: the result is a signed 32-bit number. *)
Definition readU32 (buf : bytes) (off : Z) : Z :=
  js_or (js_or (js_or (intAt buf off) (js_shl (intAt buf (off + 1)) 8))
               (js_shl (intAt buf (off + 2)) 16))
        (js_shl (intAt buf (off + 3)) 24).

Fixpoint bigLoop (buf : bytes) (off : Z) (i n : nat) (acc : Z) : Res Z :=
  match n with
  | O => Ok acc
  | S n' =>
      match at_ buf (off + Z.of_nat i) with
      | Some x =>
          bigLoop buf off (S i) n' (Z.lor acc (Z.shiftl (byteZ x) (Z.of_nat (i * 8))))
      | None => Throw (TypeError "Cannot convert undefined to a BigInt")
      end
  end.

Definition readU64 (buf : bytes) (off : Z) : Res Z := bigLoop buf off 0 8 0.
Definition readU128 (buf : bytes) (off : Z) : Res Z := bigLoop buf off 0 16 0.

Definition readI8 (buf : bytes) (off : Z) : Value :=
  match at_ buf off with
  | Some x => VNum (if 127 <? byteZ x then byteZ x - 256 else byteZ x)
  | None => VUndef
  end.

Definition readI16 (buf : bytes) (off : Z) : Z :=
  let v := readU16 buf off in if 32767 <? v then v - 65536 else v.

Definition readI32 (buf : bytes) (off : Z) : Z :=
  let v := readU32 buf off in if 2147483647 <? v then v - 4294967296 else v.

Definition readI64 (buf : bytes) (off : Z) : Res Z :=
  let! v := readU64 buf off in
  Ok (if 9223372036854775807 <? v then v - 18446744073709551616 else v).

Definition readI128 (buf : bytes) (off : Z) : Res Z :=
  let! v := readU128 buf off in
  Ok (if 170141183460469231731687303715884105727 <? v
      then v - 340282366920938463463374607431768211456 else v).

Definition decodeString (buf : bytes) (off : Z) : Value * Z :=
  let length := readU32 buf off in
  let stringBytes := sliceZ buf (off + 4) (off + 4 + length) in
  (VText stringBytes, off + 4 + length).

Definition decodePrimitive (buf : bytes) (off : Z) (primitive : string)
  : Res (Value * Z) :=
  if String.eqb primitive "u8" then Ok (byteValue (at_ buf off), off + 1)
  else if String.eqb primitive "u16" then Ok (VNum (readU16 buf off), off + 2)
  else if String.eqb primitive "u32" then Ok (VNum (readU32 buf off), off + 4)
  else if String.eqb primitive "u64" then
    let! v := readU64 buf off in Ok (VBig v, off + 8)
  else if String.eqb primitive "u128" then
    let! v := readU128 buf off in Ok (VBig v, off + 16)
  else if String.eqb primitive "i8" then Ok (readI8 buf off, off + 1)
  else if String.eqb primitive "i16" then Ok (VNum (readI16 buf off), off + 2)
  else if String.eqb primitive "i32" then Ok (VNum (readI32 buf off), off + 4)
  else if String.eqb primitive "i64" then
    let! v := readI64 buf off in Ok (VBig v, off + 8)
  else if String.eqb primitive "i128" then
    let! v := readI128 buf off in Ok (VBig v, off + 16)
  else if String.eqb primitive "bool" then
    Ok (VBool (match at_ buf off with
               | Some x => negb (byteZ x =? 0)
               | None => true
               end), off + 1)
  else if String.eqb primitive "str" then Ok (decodeString buf off)
  else Throw (Error ("Unsupported primitive type: " ++ primitive)).

(** [isAddressType] asks for a single field named [value] whose [type]
    is the string ['u8']; a field's [type] is a type id, a number, so the
    test [typeof fieldType === 'string'] fails. *)
Definition isAddressType (t : TypeInfo) : bool :=
  match t_def t with
  | DComposite [f] =>
      match f_name f with
      | Some name => String.eqb name "value" && false
      | None => false
      end
  | _ => false
  end.

(** [convertAddressToHex]: an object whose [field] is an array of byte
    numbers becomes their hex string; anything else is returned as is. *)
Definition convertAddressToHex (v : Value) : Value :=
  match v with
  | VObj fields =>
      match getProp fields "field" with
      | Some (VArr l) =>
          VStr ("0x" ++ String.concat ""
                  (map (fun x => match x with
                                 | VNum z => byteHex (toUint8 (Some z))
                                 | _ => ""
                                 end) l))
      | _ => v
      end
  | _ => v
  end.

(** The decoder object: its two caches and the part of its configuration
    that decoding reads. *)
Record SubsquidInkDecoder : Type :=
  mkDecoder { eventCache : gmap string EventSpec;
              typeCache : gmap Z TypeInfo;
              eventTypeMapping : gmap string string }.

Section Decode.

Variable self : SubsquidInkDecoder.

(** Recursion follows the type table by id; [fuel] bounds its depth. *)
Fixpoint decodeValue (fuel : nat) (buf : bytes) (off : Z) (typeDef : TypeInfo)
  {struct fuel} : Res (Value * Z) :=
  match fuel with
  | O => OutOfFuel
  | S fuel' =>
      (* the message goes on with the definition, as JSON *)
      let unsupported := Throw (Error "Unsupported type definition") in
      match t_def typeDef with
      | DPrimitive EmptyString => unsupported
      | DPrimitive p => decodePrimitive buf off p
      | DComposite fields =>
          (* decodeComposite *)
          let! r :=
            (fix go (fs : list Field) (result : list (string * Value))
                    (currentOffset : Z) {struct fs} : Res (Value * Z) :=
               match fs with
               | [] => Ok (VObj result, currentOffset)
               | field :: rest =>
                   match typeCache self !! f_type field with
                   | None => go rest result currentOffset
                   | Some fieldDef =>
                       let! r := decodeValue fuel' buf currentOffset fieldDef in
                       go rest (setProp result (orElse (f_name field) "field") (fst r))
                          (snd r)
                   end
               end) fields [] off in
          if isAddressType typeDef then Ok (convertAddressToHex (fst r), snd r)
          else Ok r
      | DVariant variants =>
          (* decodeVariant *)
          match at_ buf off with
          | Some variantIndex =>
              match nth_error variants (N.to_nat (Byte.to_N variantIndex)) with
              | Some variantDef => Ok (VStr (v_name variantDef), off + 1)
              | None =>
                  Throw (Error ("Invalid variant index: "
                                ++ showZ (byteZ variantIndex)))
              end
          | None => Throw (Error "Invalid variant index: undefined")
          end
      | DArray len elem =>
          (* decodeArray *)
          (fix loop (n : nat) (result : list Value) (currentOffset : Z) {struct n}
             : Res (Value * Z) :=
             match n with
             | O => Ok (VArr result, currentOffset)
             | S n' =>
                 match typeCache self !! elem with
                 | None => loop n' result currentOffset
                 | Some elemDef =>
                     let! r := decodeValue fuel' buf currentOffset elemDef in
                     loop n' (result ++ [fst r])%list (snd r)
                 end
             end) (Z.to_nat len) [] off
      | DTuple elems =>
          (* decodeTuple *)
          (fix go (ts : list Z) (result : list Value) (currentOffset : Z) {struct ts}
             : Res (Value * Z) :=
             match ts with
             | [] => Ok (VArr result, currentOffset)
             | typeId :: rest =>
                 match typeCache self !! typeId with
                 | None => go rest result currentOffset
                 | Some elemDef =>
                     let! r := decodeValue fuel' buf currentOffset elemDef in
                     go rest (result ++ [fst r])%list (snd r)
                 end
             end) elems [] off
      | DSequence _ | DOther => unsupported
      end
  end.

(** First loop of [decodeEventData]: the indexed arguments, from the
    topics. *)
Fixpoint decodeIndexed (fuel : nat) (args : list ArgSpec) (topics : list string)
                       (result : list (string * Value)) (topicIndex : nat)
  : Res (list (string * Value)) :=
  match args with
  | [] => Ok result
  | arg :: rest =>
      if a_indexed arg && (topicIndex <? length topics)%nat then
        let topicHex := nth topicIndex topics "" in
        match typeCache self !! a_type arg with
        | Some typeDef =>
            let topicBytes := hexToBytes topicHex in
            let! r := decodeValue fuel topicBytes 0 typeDef in
            decodeIndexed fuel rest topics (setProp result (a_label arg) (fst r))
                          (S topicIndex)
        | None => decodeIndexed fuel rest topics result (S topicIndex)
        end
      else decodeIndexed fuel rest topics result topicIndex
  end.

(** Second loop: [dataOffset] is advanced over one encoding of every
    indexed argument, read from the event data. *)
Fixpoint skipIndexed (fuel : nat) (args : list ArgSpec) (eventBytes : bytes)
                     (dataOffset : Z) : Res Z :=
  match args with
  | [] => Ok dataOffset
  | arg :: rest =>
      if a_indexed arg then
        match typeCache self !! a_type arg with
        | Some typeDef =>
            let! r := decodeValue fuel eventBytes dataOffset typeDef in
            skipIndexed fuel rest eventBytes (snd r)
        | None => skipIndexed fuel rest eventBytes dataOffset
        end
      else skipIndexed fuel rest eventBytes dataOffset
  end.

(** Third loop: the other arguments, from the event data. *)
Fixpoint decodeData (fuel : nat) (args : list ArgSpec) (eventBytes : bytes)
                    (result : list (string * Value)) (dataOffset : Z)
  : Res (list (string * Value)) :=
  match args with
  | [] => Ok result
  | arg :: rest =>
      if a_indexed arg then decodeData fuel rest eventBytes result dataOffset
      else
        match typeCache self !! a_type arg with
        | None => decodeData fuel rest eventBytes result dataOffset
        | Some typeDef =>
            let! r := decodeValue fuel eventBytes dataOffset typeDef in
            decodeData fuel rest eventBytes (setProp result (a_label arg) (fst r))
                       (snd r)
        end
  end.

Definition decodeEventData (fuel : nat) (eventBytes : bytes)
                           (eventMetadata : EventSpec) (topics : list string)
  : Res (list (string * Value)) :=
  let args := e_args eventMetadata in
  let! result := decodeIndexed fuel args topics [] 1 in
  let! dataOffset := skipIndexed fuel args eventBytes 0 in
  decodeData fuel args eventBytes result dataOffset.

Record InkDecodedEvent : Type :=
  mkInkEvent { eventType : string;
               data : list (string * Value);
               topics_ : list string }.

(** [try { ... } catch (error) { return null }] *)
Definition catch {A} (r : Res (option A)) : Res (option A) :=
  match r with
  | Throw _ => Ok None
  | _ => r
  end.

Definition decodeEvent (fuel : nat) (eventData : string) (topics : list string)
  : Res (option InkDecodedEvent) :=
  catch
    match topics with
    | [] => Ok None
    | topic0 :: _ =>
        let signatureHex := Gen.strip0x topic0 in
        match eventCache self !! signatureHex with
        | None => Ok None
        | Some eventMetadata =>
            let eventBytes := hexToBytes eventData in
            let! decodedData :=
              decodeEventData fuel eventBytes eventMetadata topics in
            let eventType :=
              orElse (eventTypeMapping self !! e_label eventMetadata)
                     (Gen.toLowerCase (e_label eventMetadata)) in
            Ok (Some (mkInkEvent eventType decodedData topics))
        end
    end.

End Decode.

(** [loadMetadata], on a parsed document: both caches are filled in list
    order, a later entry replacing an earlier one with the same key.  An
    event without [signature_topic] makes [startsWith] fail, which the
    method reports as its own error; the message goes on with the path of
    the metadata file, which is not among the inputs here. *)
Definition loadFailed : JsError := Error "Failed to load metadata".

Fixpoint loadEvents (es : list EventSpec) (cache : gmap string EventSpec)
  : Res (gmap string EventSpec) :=
  match es with
  | [] => Ok cache
  | event :: rest =>
      match signature_topic event with
      | Some topic => loadEvents rest (<[Gen.strip0x topic := event]> cache)
      | None => Throw loadFailed
      end
  end.

Definition loadTypes (ts : list TypeEntry) : gmap Z TypeInfo :=
  fold_left (fun cache t => <[id t := type t]> cache) ts ∅.

Definition loadMetadata (mapping : gmap string string) (metadata : Document)
  : Res SubsquidInkDecoder :=
  let! ec := loadEvents (events metadata) ∅ in
  Ok (mkDecoder ec (loadTypes (types metadata)) mapping).

End Interp.

(** ** registry.ts, as the generator's template emits it *)

Module Registry.

(** [to] is [None] both when the property is absent and when it is
    [null]: the code reads it through [!e.to] only. *)
Record VersionEntry : Type :=
  mkVersion { version : string;
              addresses : option (list string);
              codeHash : option string;
              from : option Z;
              to : option Z }.

(** [!e.from], [!e.to]: true when absent and when 0. *)
Definition falsy (n : option Z) : bool :=
  match n with
  | None => true
  | Some z => z =? 0
  end.

Definition addressMatches (_address : string) (e : VersionEntry) : bool :=
  match addresses e with
  | Some (a :: l) => existsb (String.eqb _address) (a :: l)
  | _ => true
  end.

Definition rangeMatches (_blockHeight : Z) (e : VersionEntry) : bool :=
  let fromMatch := falsy (from e) || (default 0 (from e) <=? _blockHeight) in
  let toMatch := falsy (to e) || (_blockHeight <? default 0 (to e)) in
  fromMatch && toMatch.

(** [a.from !== undefined ? a.from : 0] *)
Definition fromOr0 (e : VersionEntry) : Z := default 0 (from e).

(** [candidates.sort(function(a, b) { return bFrom - aFrom })]: the sort
    is stable, so entries with equal [from] keep their order.  Written
    as an insertion sort that puts an entry before the entries that
    followed it and have no greater [from]. *)
Fixpoint insertDesc (e : VersionEntry) (sorted : list VersionEntry)
  : list VersionEntry :=
  match sorted with
  | [] => [e]
  | x :: rest =>
      if fromOr0 x <=? fromOr0 e then e :: sorted else x :: insertDesc e rest
  end.

Definition sortDesc (l : list VersionEntry) : list VersionEntry :=
  fold_right insertDesc [] l.

Definition noDecoder (_address : string) : JsError :=
  Error ("No decoder version found for address " ++ _address).

(** The result is the version whose module the [switch] returns; the
    template emits one [case] per registry entry. *)
Definition resolveDecoder (registry : list VersionEntry)
                          (_address : string) (_blockHeight : Z)
  : Res string :=
  let addressMatches := List.filter (addressMatches _address) registry in
  let rangeMatches := List.filter (rangeMatches _blockHeight) addressMatches in
  let candidates :=
    if (0 <? length rangeMatches)%nat then rangeMatches else addressMatches in
  match sortDesc candidates with
  | [] => Throw (noDecoder _address)
  | entry :: _ =>
      if existsb (String.eqb (version entry)) (map version registry)
      then Ok (version entry)
      else Throw (Error ("Version not found: " ++ version entry))
  end.

(** The registry of guess_the_number. *)
Definition registry : list VersionEntry :=
  [ mkVersion "v0.1.0" (Some ["0xe75cbd47620dbb2053cf2a98d06840f06baaf141"])
              None (Some 1934744) None ].

Definition decodeEventWithRouting (signatureHex dataHex : string)
                                  (topics : list string)
                                  (address : string) (blockHeight : Z)
  : Res (option DecodedEvent) :=
  let! v := resolveDecoder registry address blockHeight in
  Events.decodeEvent signatureHex dataHex topics.

End Registry.

(** ** Metadata documents before any typing: validateMetadata of the
    generator and the shape tests of the interpreter's loadMetadata *)

Module Raw.

(** A parsed JSON document.  Numbers are the integers. *)
Inductive Json : Type :=
| JNull
| JBool (b : bool)
| JNum (z : Z)
| JStr (s : string)
| JArr (items : list Json)
| JObj (members : list (string * Json)).

(** The member of an object for a key, the last one when the text
    repeats the key. *)
Fixpoint member (members : list (string * Json)) (key : string) : option Json :=
  match members with
  | [] => None
  | (k, v) :: rest =>
      match member rest key with
      | Some w => Some w
      | None => if String.eqb k key then Some v else None
      end
  end.

(** [v.key] for the keys this code reads ([version], [spec], [events],
    [types], [signature_topic], [id]): a [TypeError] on [null],
    [undefined] on anything that is not an object. *)
Definition get (v : Json) (key : string) : Res (option Json) :=
  match v with
  | JNull => Throw (TypeError ("Cannot read properties of null (reading '"
                               ++ key ++ "')"))
  | JObj members => Ok (member members key)
  | _ => Ok None
  end.

Definition truthy (v : option Json) : bool :=
  match v with
  | None | Some JNull | Some (JBool false) | Some (JNum 0)
  | Some (JStr EmptyString) => false
  | _ => true
  end.

Definition isArray (v : option Json) : bool :=
  match v with Some (JArr _) => true | _ => false end.

(** [events.some(function(e) { return e.signature_topic })] *)
Fixpoint someSignature (events : list Json) : Res bool :=
  match events with
  | [] => Ok false
  | e :: rest =>
      let! s := get e "signature_topic" in
      if truthy s then Ok true else someSignature rest
  end.

(** [v === 6] *)
Definition isSix (v : option Json) : bool :=
  match v with
  | Some (JNum z) => z =? 6
  | _ => false
  end.

Definition items (v : option Json) : list Json :=
  match v with
  | Some (JArr l) => l
  | _ => []
  end.

Definition validateMetadata (metadata : Json) : Res unit :=
  if negb (truthy (Some metadata)) then
    Throw (Error "Invalid metadata: empty or null")
  else
    let! version := get metadata "version" in
    if negb (isSix version) then
      (* the message goes on with the version found *)
      Throw (Error "Unsupported Ink! version")
    else
      let! spec := get metadata "spec" in
      let! events := if truthy spec
                     then get (default JNull spec) "events"
                     else Ok None in
      if negb (truthy spec) || negb (truthy events) || negb (isArray events)
      then Throw (Error "Missing or invalid spec.events")
      else
        let! types := get metadata "types" in
        if negb (truthy types) || negb (isArray types)
        then Throw (Error "Missing or invalid types array")
        else
          let! hasSig := someSignature (items events) in
          if hasSig then Ok tt
          else Throw (Error "No events with signature_topic found").

(** The tables of [loadMetadata], as the sequence of its [set] calls. *)
Record Tables : Type :=
  mkTables { eventSets : list (string * Json);
             typeSets : list (option Json * Json) }.

(** [list.forEach] on a value that may not be an array. *)
Definition forEach {A} (v : Json) (f : Json -> Res A) : Res (list A) :=
  match v with
  | JArr items =>
      fold_right (fun x acc => let! y := f x in let! ys := acc in Ok (y :: ys))
                 (Ok []) items
  | _ => Throw (TypeError "forEach is not a function")
  end.

Definition eventSet (event : Json) : Res (string * Json) :=
  let! topic := get event "signature_topic" in
  match topic with
  | Some (JStr s) => Ok (Gen.strip0x s, event)
  | _ => Throw (TypeError "signature_topic.startsWith is not a function")
  end.

Definition typeSet (type : Json) : Res (option Json * Json) :=
  let! i := get type "id" in Ok (i, type).

(** [x || []] *)
Definition orEmpty (v : option Json) : Json :=
  if truthy v then default JNull v else JArr [].

Definition loadMetadata (rawMetadata : Json) : Res Tables :=
  match
    (let! spec := get rawMetadata "spec" in
     let! events0 := match spec with
                     | None | Some JNull => Ok None
                     | Some sp => get sp "events"
                     end in
     let! types0 := get rawMetadata "types" in
     let! es := forEach (orEmpty events0) eventSet in
     let! ts := forEach (orEmpty types0) typeSet in
     Ok (mkTables es ts))
  with
  | Throw _ =>
      (* the message goes on with the path of the metadata file *)
      Throw (Error "Failed to load metadata")
  | r => r
  end.

End Raw.

(** ** gen-ink-decoder.js: contract names, the command line and the
    registry files *)

Module Cli.

Definition isDigit (c : ascii) : bool :=
  (48 <=? nat_of_ascii c)%nat && (nat_of_ascii c <=? 57)%nat.

(** The class [[a-zA-Z0-9_\-]]. *)
Definition isNameChar (c : ascii) : bool :=
  Gen.isLower c || Gen.isUpper c || isDigit c
  || Ascii.eqb c "_" || Ascii.eqb c "-".

(** [name.replace(/[^a-zA-Z0-9_\-]/g, '_')] *)
Fixpoint sanitizeContractName (name : string) : string :=
  match name with
  | EmptyString => EmptyString
  | String c r =>
      String (if isNameChar c then c else "_"%char) (sanitizeContractName r)
  end.

End Cli.

(** [parseArgs(argv)] *)
Module Args.

Section ParseArgs.

(** [Number(v)] is left to the language: [Num] is the type of its results
    and [Number] the conversion, [None] being [undefined]. *)
Variable Num : Type.
Variable Number : option string -> Num.

(** A string-valued option holds [undefined] when its flag is the last
    argument.  [to] is [undefined], [null] or a number. *)
Record Args : Type :=
  mkArgs { config : option string;
           contract : option string;
           meta : option string;
           contractName : option string;
           versionTag : option string;
           outRoot : option string;
           register : bool;
           addresses : list (option string);
           from : option Num;
           to : option (option Num) }.

Definition initial : Args :=
  mkArgs (Some "") (Some "") (Some "") (Some "") (Some "")
         (Some "src/types/ink") false [] None None.

(** One turn of the [switch]: the updated options, and whether the
    [case] ends with [i++]. *)
Definition step (a : string) (v : option string) (out : Args) : Args * bool :=
  if String.eqb a "--config" then
    (mkArgs v (contract out) (meta out) (contractName out) (versionTag out)
            (outRoot out) (register out) (addresses out) (from out) (to out), true)
  else if String.eqb a "--contract" then
    (mkArgs (config out) v (meta out) (contractName out) (versionTag out)
            (outRoot out) (register out) (addresses out) (from out) (to out), true)
  else if String.eqb a "--meta" then
    (mkArgs (config out) (contract out) v (contractName out) (versionTag out)
            (outRoot out) (register out) (addresses out) (from out) (to out), true)
  else if String.eqb a "--contractName" then
    (mkArgs (config out) (contract out) (meta out) v (versionTag out)
            (outRoot out) (register out) (addresses out) (from out) (to out), true)
  else if String.eqb a "--versionTag" then
    (mkArgs (config out) (contract out) (meta out) (contractName out) v
            (outRoot out) (register out) (addresses out) (from out) (to out), true)
  else if String.eqb a "--outRoot" then
    (mkArgs (config out) (contract out) (meta out) (contractName out)
            (versionTag out) v (register out) (addresses out) (from out) (to out),
     true)
  else if String.eqb a "--register" then
    (mkArgs (config out) (contract out) (meta out) (contractName out)
            (versionTag out) (outRoot out) true (addresses out) (from out) (to out),
     false)
  else if String.eqb a "--address" then
    (mkArgs (config out) (contract out) (meta out) (contractName out)
            (versionTag out) (outRoot out) (register out)
            (addresses out ++ [v])%list (from out) (to out), true)
  else if String.eqb a "--from" then
    (mkArgs (config out) (contract out) (meta out) (contractName out)
            (versionTag out) (outRoot out) (register out) (addresses out)
            (Some (Number v)) (to out), true)
  else if String.eqb a "--to" then
    (mkArgs (config out) (contract out) (meta out) (contractName out)
            (versionTag out) (outRoot out) (register out) (addresses out)
            (from out)
            (Some (match v with
                   | Some "null" => None
                   | _ => Some (Number v)
                   end)), true)
  else (out, false).

(** [for (let i = ...; i < argv.length; i++)], on the arguments from [i]
    on: [a = argv[i]], [v = argv[i + 1]]. *)
Fixpoint parseLoop (argv : list string) (out : Args) {struct argv} : Args :=
  match argv with
  | [] => out
  | a :: rest =>
      let '(out', skip) := step a (head rest) out in
      if skip then
        match rest with
        | [] => out'
        | _ :: rest' => parseLoop rest' out'
        end
      else parseLoop rest out'
  end.

(** A string option as a condition: [undefined] and [''] are false. *)
Definition given (s : option string) : bool :=
  match s with
  | Some (String _ _) => true
  | _ => false
  end.

Definition missingArgs : JsError :=
  Error "Missing required args: either --config OR (--meta, --contractName, --versionTag)".

Definition parseArgs (argv : list string) : Res Args :=
  let out := parseLoop (skipn 2 argv) initial in
  if given (config out) then Ok out
  else if negb (given (meta out)) || negb (given (contractName out))
          || negb (given (versionTag out))
  then Throw missingArgs
  else Ok out.

End ParseArgs.

End Args.

(** [generateRegistryTs] and [generateMergedRegistryTs] return the text of
    [registry.ts]; the text is the fixed template of [Registry] around the
    list of entries, so what is kept of it here is the registry it
    declares. *)
Module RegistryGen.

(** [to]: [undefined], [null] or a block height. *)
Inductive ToBlock : Type := ToUndefined | ToNull | ToHeight (h : Z).

(** A version entry as the generator holds it:
    [{ version, addresses, from, to }]. *)
Record Entry : Type :=
  mkEntry { version : string;
            addresses : option (list string);
            from : option Z;
            to : ToBlock }.

(** [existingEntries.findIndex(...)] followed by the assignment at that
    index, or by [push]. *)
Fixpoint upsert (existingEntries : list Entry) (new : Entry) : list Entry :=
  match existingEntries with
  | [] => [new]
  | e :: rest =>
      if String.eqb (version e) (version new) then new :: rest
      else e :: upsert rest new
  end.

(** [a.from !== undefined ? a.from : -1] *)
Definition fromOrM1 (e : Entry) : Z := default (-1) (from e).

(** [existingEntries.sort(function(a, b) { return aFrom - bFrom })]: the
    sort is stable; an entry goes before the entries that followed it and
    have no smaller [from]. *)
Fixpoint insertAsc (e : Entry) (sorted : list Entry) : list Entry :=
  match sorted with
  | [] => [e]
  | x :: rest =>
      if fromOrM1 e <=? fromOrM1 x then e :: sorted else x :: insertAsc e rest
  end.

Definition sortAsc (l : list Entry) : list Entry := fold_right insertAsc [] l.

(** The array [existingEntries] when the text of the file is assembled. *)
Definition mergeEntries (existingEntries : list Entry) (newVersion : string)
           (newAddresses : option (list string)) (newFrom : option Z)
           (newTo : ToBlock) : list Entry :=
  sortAsc (upsert existingEntries (mkEntry newVersion newAddresses newFrom newTo)).

(** The entry of [registry.ts] that the text emitted for an entry
    declares: [addresses] is written when the list is not empty, [from]
    when it is defined, [to] when it is defined ([null] or the height). *)
Definition emit (e : Entry) : Registry.VersionEntry :=
  Registry.mkVersion
    (version e)
    (match addresses e with
     | Some (a :: l) => Some (a :: l)
     | _ => None
     end)
    None
    (from e)
    (match to e with
     | ToHeight h => Some h
     | _ => None
     end).

(** The registry declared by the file [generateMergedRegistryTs] returns. *)
Definition generateMergedRegistryTs (existingEntries : list Entry)
           (newVersion : string) (newAddresses : option (list string))
           (newFrom : option Z) (newTo : ToBlock) : list Registry.VersionEntry :=
  map emit (mergeEntries existingEntries newVersion newAddresses newFrom newTo).

(** The registry declared by the file [generateRegistryTs] returns. *)
Definition generateRegistryTs (versionTag : string)
           (addresses : option (list string)) (from : option Z) (to : ToBlock)
  : list Registry.VersionEntry :=
  [emit (mkEntry versionTag addresses from to)].

End RegistryGen.

(** * Notions used in the statements, and example data *)

(** ** Numbers and strings *)

(** The integer whose little-endian base-256 digits are [bs]. *)
Fixpoint leValue (bs : bytes) : Z :=
  match bs with
  | [] => 0
  | h :: t => byteZ h + 256 * leValue t
  end.

(** The error [BigInt(undefined)] raises. *)
Definition undefinedBigInt : JsError :=
  TypeError "Cannot convert undefined to a BigInt".

(** The four modes as the specification words them, mode 11 taking the six
    upper bits of the first byte as the number [n] of bytes that follow. *)
Definition compactAsWorded (buf : bytes) (off : nat) : Res (ReadResult Value) :=
  let b0 := leValue (slice buf off (off + 1)) in
  let mode := b0 mod 4 in
  if mode =? 0 then Ok (mkRead (VNum (b0 / 4)) (off + 1))
  else if mode =? 1 then
    Ok (mkRead (VNum (leValue (slice buf off (off + 2)) / 4)) (off + 2))
  else if mode =? 2 then
    Ok (mkRead (VNum (leValue (slice buf off (off + 4)) / 4)) (off + 4))
  else
    let n := Z.to_nat (b0 / 4) in
    if (off + 1 + n <=? length buf)%nat
    then Ok (mkRead (VBig (leValue (slice buf (off + 1) (off + 1 + n)))) (off + 1 + n))
    else Throw undefinedBigInt.

(** The same with what the code does in mode 11: the six upper bits plus
    four is the number of bytes that follow. *)
Definition compactAsCoded (buf : bytes) (off : nat) : Res (ReadResult Value) :=
  let b0 := leValue (slice buf off (off + 1)) in
  let mode := b0 mod 4 in
  if mode =? 0 then Ok (mkRead (VNum (b0 / 4)) (off + 1))
  else if mode =? 1 then
    Ok (mkRead (VNum (leValue (slice buf off (off + 2)) / 4)) (off + 2))
  else if mode =? 2 then
    Ok (mkRead (VNum (leValue (slice buf off (off + 4)) / 4)) (off + 4))
  else
    let n := Z.to_nat (4 + b0 / 4) in
    if (off + 1 + n <=? length buf)%nat
    then Ok (mkRead (VBig (leValue (slice buf (off + 1) (off + 1 + n)))) (off + 1 + n))
    else Throw undefinedBigInt.

(** The characters 0 to 9 and a to f. *)
Definition isLowerHex (c : ascii) : bool :=
  let n := nat_of_ascii c in
  ((48 <=? n) && (n <=? 57) || (97 <=? n) && (n <=? 102))%nat.

Fixpoint allChars (p : ascii -> bool) (s : string) : bool :=
  match s with
  | EmptyString => true
  | String c r => p c && allChars p r
  end.

(** ** Event decoding *)

(** The value a block of kind [kind] stores for a 32-byte topic. *)
Definition topicValue (kind : Gen.TopicKind) (t : string) : Value :=
  let tb := hexToBytes t in
  match kind with
  | Gen.TU128 => VBig (leValue (firstn 16 tb))
  | Gen.TH160 => VStr (bytesToHex (skipn 12 tb))
  | Gen.TU32 => VNum (leValue (firstn 4 tb))
  | Gen.TU16 => VNum (leValue (firstn 2 tb))
  | Gen.TRaw => VStr t
  end.

(** The topics of the specification's examples: a u128 game number and a
    right-aligned H160 player. *)
Definition exampleTopics : list string :=
  [ "0xc8a7c5d86cdaf43555273e08a00e4cdaa93cf22046685231d5eb1b6c0d29fa92";
    "0x0100000000000000000000000000000000000000000000000000000000000000";
    "0x000000000000000000000000e75cbd47620dbb2053cf2a98d06840f06baaf141" ].

(** The types the decoders of guess_the_number show: u8 is type 5, the
    H160 address a composite of one unnamed [[u8; 20]] field. *)
Definition exampleTypes : list TypeEntry :=
  [ mkTypeEntry 0 (mkType (DPrimitive "u128") []);
    mkTypeEntry 1 (mkType (DArray 20 5) []);
    mkTypeEntry 2 (mkType (DComposite [mkField None 1]) ["primitive_types"; "H160"]);
    mkTypeEntry 3 (mkType (DPrimitive "u16") []);
    mkTypeEntry 4 (mkType (DPrimitive "u32") []);
    mkTypeEntry 5 (mkType (DPrimitive "u8") []);
    mkTypeEntry 6 (mkType (DVariant [ mkVariant 0 "More" [];
                                      mkVariant 1 "Less" [];
                                      mkVariant 2 "Found" [] ]) []);
    mkTypeEntry 7 (mkType (DSequence 5) []) ].


(** The variant with the three fieldless cases of the specification. *)
Definition clueVariants : list VariantDef :=
  [ mkVariant 0 "More" []; mkVariant 1 "Less" []; mkVariant 2 "Found" [] ].


(** A type table in which u8 is not type 5, and one in which type 5 is u32. *)
Definition u8AtTwo : list TypeEntry :=
  [ mkTypeEntry 2 (mkType (DPrimitive "u8") []);
    mkTypeEntry 7 (mkType (DSequence 2) []) ].

Definition u32AtFive : list TypeEntry :=
  [ mkTypeEntry 5 (mkType (DPrimitive "u32") []);
    mkTypeEntry 9 (mkType (DSequence 5) []) ].

Definition isIndexedBlock (blk : Gen.Block) : bool :=
  match blk with
  | Gen.BIndexed _ _ => true
  | Gen.BData _ _ => false
  end.

(** The event of the counterexample: an indexed u128 before a u32 and a
    u16, decoded by the interpreter with the types of [exampleTypes]. *)
Definition guessMade : EventSpec :=
  mkEventSpec "GuessMade"
              [ mkArg "game_number" 0 true; mkArg "attempt" 4 false;
                mkArg "guess" 3 false ]
              (Some "0xbfe3e4de23c556408a7c400baf6b27364bdb763595ac8f3547c20db70131083a").

(** An interpreter with the type cache of [exampleTypes]. *)
Definition exampleDecoder : Interp.SubsquidInkDecoder :=
  Interp.mkDecoder ∅ (Interp.loadTypes exampleTypes) ∅.

(** Sixteen bytes 0x11, then attempt = 1 and guess = 300. *)
Definition sixteenThenGuess : bytes :=
  (repeat x11 16 ++ [x01; x00; x00; x00; x2c; x01])%list.

Definition newGameArgs : list ArgSpec :=
  [ mkArg "game_number" 0 true; mkArg "player" 2 true;
    mkArg "min_number" 3 false; mkArg "max_number" 3 false ].

(** The normal form of a signature in the specification: the 0x prefix
    stripped, then lowercased. *)
Definition normalizeSignature (s : string) : string :=
  Gen.toLowerCase (Gen.strip0x s).

(** A table key in normal form. *)
Definition normalKey (k : string) : Prop :=
  startsWith0x k = false /\ Gen.toLowerCase k = k.

Definition newGameDocument : Document :=
  mkDoc [ mkEventSpec "NewGame" newGameArgs
            (Some "0xc8a7c5d86cdaf43555273e08a00e4cdaa93cf22046685231d5eb1b6c0d29fa92") ]
        exampleTypes.

Definition newGameEntries : list Gen.Entry :=
  [ Gen.mkEntry "c8a7c5d86cdaf43555273e08a00e4cdaa93cf22046685231d5eb1b6c0d29fa92"
      "NewGame" "new_game"
      [ Gen.BIndexed "game_number" Gen.TU128; Gen.BIndexed "player" Gen.TH160;
        Gen.BData "min_number" Gen.CReadU16; Gen.BData "max_number" Gen.CReadU16 ] ].

(** ** Further example data *)



(** Type tables for the order of the tests on an indexed argument: a u32
    primitive registered under the path primitive_types.H160, and the
    20-byte address shape registered under another path. *)
Definition pathTypes : list TypeEntry :=
  [ mkTypeEntry 1 (mkType (DArray 20 5) []);
    mkTypeEntry 2 (mkType (DComposite [mkField None 1]) ["ink_primitives"; "Address"]);
    mkTypeEntry 4 (mkType (DPrimitive "u32") ["primitive_types"; "H160"]);
    mkTypeEntry 5 (mkType (DPrimitive "u8") []) ].

(** A metadata document whose one event, without arguments, has its
    signature topic written in capitals, and the interpreter loaded from
    it. *)
Definition upperEvent : EventSpec := mkEventSpec "Ping" [] (Some "0xABCD").

Definition upperDocument : Document := mkDoc [upperEvent] [].

Definition upperDecoder : Interp.SubsquidInkDecoder :=
  Interp.mkDecoder {[ "ABCD" := upperEvent ]} ∅ ∅.

(** ** Registry *)

(** The address test as the specification words it: the queried address is
    lowercased before it is looked up. *)
Definition addressMatchesNormalized (address : string) (e : Registry.VersionEntry)
  : bool :=
  match Registry.addresses e with
  | Some (a :: l) => existsb (String.eqb (Gen.toLowerCase address)) (a :: l)
  | _ => true
  end.

(** The half-open range as the specification words it. *)
Definition inRange (blockHeight : Z) (e : Registry.VersionEntry) : bool :=
  match Registry.from e with None => true | Some f => f <=? blockHeight end
  && match Registry.to e with None => true | Some t => blockHeight <? t end.

(** ** Metadata documents *)

(** A member of a document, [None] when the value is not an object or has
    no such member. *)
Definition field (v : Raw.Json) (key : string) : option Raw.Json :=
  match v with
  | Raw.JObj members => Raw.member members key
  | _ => None
  end.

(** [spec.events] and [types] when they are lists. *)
Definition eventsOf (doc : Raw.Json) : option (list Raw.Json) :=
  match field doc "spec" with
  | Some spec =>
      match field spec "events" with
      | Some (Raw.JArr l) => Some l
      | _ => None
      end
  | None => None
  end.

Definition typesOf (doc : Raw.Json) : option (list Raw.Json) :=
  match field doc "types" with
  | Some (Raw.JArr l) => Some l
  | _ => None
  end.

Definition carriesSignature (e : Raw.Json) : bool :=
  Raw.truthy (field e "signature_topic").

(** The four conditions of the specification. *)
Definition invalidMetadata (doc : Raw.Json) : bool :=
  negb (Raw.isSix (field doc "version"))
  || match eventsOf doc with None => true | Some _ => false end
  || match typesOf doc with None => true | Some _ => false end
  || match eventsOf doc with
     | Some es => negb (existsb carriesSignature es)
     | None => true
     end.

Definition eventKey (e : Raw.Json) : string :=
  match field e "signature_topic" with
  | Some (Raw.JStr s) => Gen.strip0x s
  | _ => ""
  end.

(** [spec.events] read through a possibly missing [spec]. *)
Definition specEvents (spec : option Raw.Json) : option Raw.Json :=
  match spec with
  | Some sp => field sp "events"
  | None => None
  end.

(** A well-formed document but for its version, and the same at version 6. *)
Definition versionFive : Raw.Json :=
  Raw.JObj
    [ ("version", Raw.JNum 5);
      ("spec", Raw.JObj
         [ ("events", Raw.JArr
              [ Raw.JObj [ ("label", Raw.JStr "NewGame");
                           ("signature_topic", Raw.JStr "0xc8a7") ] ]) ]);
      ("types", Raw.JArr [ Raw.JObj [ ("id", Raw.JNum 0) ] ]) ].

Definition versionSix : Raw.Json :=
  Raw.JObj
    [ ("version", Raw.JNum 6);
      ("spec", Raw.JObj
         [ ("events", Raw.JArr
              [ Raw.JObj [ ("label", Raw.JStr "NewGame");
                           ("signature_topic", Raw.JStr "0xc8a7") ] ]) ]);
      ("types", Raw.JArr [ Raw.JObj [ ("id", Raw.JNum 0) ] ]) ].

(** A metadata document with the eight events of guess_the_number and the
    types their decoders show. *)
Definition guessTheNumber : Document :=
  mkDoc
    [ mkEventSpec "NewGame" newGameArgs
        (Some "0xc8a7c5d86cdaf43555273e08a00e4cdaa93cf22046685231d5eb1b6c0d29fa92");
      guessMade;
      mkEventSpec "ClueGiven"
        [ mkArg "game_number" 0 true; mkArg "attempt" 4 false;
          mkArg "guess" 3 false; mkArg "clue" 6 false ]
        (Some "0xd30c753e3012d98d428abde3eebaae62a09d7d043d8018f1ecb4e6c5d3dc9429");
      mkEventSpec "MetaTransactionDecoded" []
        (Some "0x4ee61a2092334a28b8ce7389a8ba2a9c1a9909e0c95b01cbbafb07b7bb576048");
      mkEventSpec "RoleGranted"
        [ mkArg "role" 4 true; mkArg "grantee" 2 true; mkArg "grantor" 2 false ]
        (Some "0x9fcfc0869a89de6464b06891fcfa026e1ac809ce01300cd76a342e696297dd20");
      mkEventSpec "RoleRevoked"
        [ mkArg "role" 4 true; mkArg "account" 2 true; mkArg "sender" 2 false ]
        (Some "0x67cf5731bde3ef79029b3c63ea7a49b0e816d53d665ff88e412b696684ab9c11");
      mkEventSpec "MessageQueued"
        [ mkArg "id" 4 true; mkArg "data" 7 false ]
        (Some "0xcfd8f7cee62376e0a894a1c5d124ec219dc678fd742bcb7f183455a362744aa1");
      mkEventSpec "MessageProcessed" [ mkArg "id" 4 true ]
        (Some "0xdb1dbb06d6c5f62bcd2d0b8e2b251826b43e15a2b17b80080837dc8cd561a283") ]
    exampleTypes.

Definition guessMadeTopics : list string :=
  [ "0xbfe3e4de23c556408a7c400baf6b27364bdb763595ac8f3547c20db70131083a";
    "0x0100000000000000000000000000000000000000000000000000000000000000" ].

(** ** Notions used in the further properties *)

(** The byte of value [z mod 256]. *)
Definition byteOf (z : Z) : byte := toUint8 (Some z).

(** The [n] little-endian base-256 digits of [z]. *)
Fixpoint leBytes (n : nat) (z : Z) : bytes :=
  match n with
  | O => []
  | S n' => byteOf z :: leBytes n' (z / 256)
  end.

(** The number of base-256 digits of a positive [n]. *)
Definition byteLength (n : Z) : nat := Z.to_nat (Z.log2 n / 8 + 1).

(** The SCALE compact encoding of [n], by the ranges the comment of
    [readCompactU32] lists: one byte below 64, two below 2^14, four below
    2^30, and beyond that a byte holding the number of digits less four,
    followed by the digits. *)
Definition compactEncode (n : Z) : bytes :=
  if n <? 64 then leBytes 1 (4 * n)
  else if n <? 16384 then leBytes 2 (4 * n + 1)
  else if n <? 1073741824 then leBytes 4 (4 * n + 2)
  else byteOf (4 * (Z.of_nat (byteLength n) - 4) + 3) :: leBytes (byteLength n) n.

(** The value [readCompactU32] returns for [n]: a number in the first
    three modes, a bigint in the fourth. *)
Definition compactValue (n : Z) : Value :=
  if n <? 1073741824 then VNum n else VBig n.

(** A string of an even number of characters. *)
Definition evenLength (s : string) : bool := Nat.even (String.length s).


(** The signature of the one event of guess_the_number without arguments. *)
Definition metaTransactionDecoded : string :=
  "4ee61a2092334a28b8ce7389a8ba2a9c1a9909e0c95b01cbbafb07b7bb576048".


(** The cells [off], ..., [off + n - 1] of a buffer as values, [undefined]
    past its end. *)
Definition cells (data : bytes) (off n : nat) : list Value :=
  map (fun i => byteValue (getByte data i)) (seq off n).

(** No letter A to Z. *)
Definition noUpper (s : string) : bool :=
  allChars (fun c => negb (Gen.isUpper c)) s.

(** A string without its underscores. *)
Fixpoint dropUnderscores (s : string) : string :=
  match s with
  | EmptyString => EmptyString
  | String c r =>
      if Ascii.eqb c "_" then dropUnderscores r else String c (dropUnderscores r)
  end.

(** The two's complement reading of a [w]-bit unsigned [u]. *)
Definition signedOf (w : Z) (u : Z) : Z :=
  if u <? 2 ^ (w - 1) then u else u - 2 ^ w.

(** A result of the generated code, with its offset as the interpreter
    counts it. *)
Definition onOffset (r : Res (Value * nat)) : Res (Value * Z) :=
  let! p := r in Ok (fst p, Z.of_nat (snd p)).

(** The key [loadMetadata] files an event under. *)
Definition cacheKey (e : EventSpec) : string :=
  Gen.strip0x (default "" (signature_topic e)).

(** The type ids a definition names: the ones [generateDecodeCall] may
    recurse into. *)
Definition references (d : Def) : list Z :=
  match d with
  | DComposite fields => map f_type fields
  | DVariant variants => flat_map (fun v => map f_type (v_fields v)) variants
  | DSequence elem => [elem]
  | DArray _ elem => [elem]
  | DPrimitive _ | DTuple _ | DOther => []
  end.

(** Depths of the types of [exampleTypes]: the address above its array,
    the array and the sequence above u8. *)
Definition exampleRank (typeId : Z) : nat :=
  if typeId =? 2 then 2%nat
  else if (typeId =? 1) || (typeId =? 7) then 1%nat
  else 0%nat.

(** A sequence type whose elements are of the type itself. *)
Definition selfSequence : list TypeEntry :=
  [ mkTypeEntry 9 (mkType (DSequence 9) []) ].

(** The topics of a RoleGranted event: role 7 and a right-aligned grantee. *)
Definition roleTopics : list string :=
  [ "0x9fcfc0869a89de6464b06891fcfa026e1ac809ce01300cd76a342e696297dd20";
    "0x0700000000000000000000000000000000000000000000000000000000000000";
    "0x000000000000000000000000e75cbd47620dbb2053cf2a98d06840f06baaf141" ].


(** * Properties *)

(** ** Little-endian values and the arithmetic of the bit operators *)

Section Arithmetic.

Lemma byteZ_range (x : byte) : 0 <= byteZ x < 256.
Proof.
  unfold byteZ. pose proof (Byte.to_N_bounded x). lia.
Qed.

Lemma getInt_range (buf : bytes) (i : nat) : 0 <= getInt buf i < 256.
Proof.
  unfold getInt. destruct (getByte buf i); [apply byteZ_range | lia].
Qed.

Lemma int32_small (z : Z) : - 2 ^ 31 <= z < 2 ^ 31 -> int32 z = z.
Proof.
  intros H. unfold int32. rewrite Z.mod_small; lia.
Qed.

Lemma uint32_small (z : Z) : 0 <= z < 2 ^ 32 -> uint32 z = z.
Proof. intros H. unfold uint32. apply Z.mod_small; lia. Qed.

Lemma land_low_shiftl (x y k : Z) :
  0 <= k -> 0 <= x < 2 ^ k -> Z.land x (Z.shiftl y k) = 0.
Proof.
  intros Hk Hx. apply Z.bits_inj'. intros n Hn.
  rewrite Z.land_spec, Z.bits_0.
  destruct (Z.lt_ge_cases n k) as [Hlt | Hge].
  - rewrite Z.shiftl_spec_low by assumption. apply andb_false_r.
  - assert (Hb : Z.testbit x n = false).
    { destruct (Z.eq_dec x 0) as [-> | Hnz]; [apply Z.bits_0 |].
      apply Z.bits_above_log2; [lia |].
      apply Z.log2_lt_pow2; [lia |].
      apply Z.lt_le_trans with (2 ^ k); [lia |].
      apply Z.pow_le_mono_r; lia. }
    rewrite Hb. reflexivity.
Qed.

Lemma lor_shiftl_add (x y k : Z) :
  0 <= k -> 0 <= x < 2 ^ k -> Z.lor x (Z.shiftl y k) = x + y * 2 ^ k.
Proof.
  intros Hk Hx.
  rewrite <- Z.lxor_lor by (apply land_low_shiftl; assumption).
  rewrite <- Z.add_nocarry_lxor by (apply land_low_shiftl; assumption).
  rewrite Z.shiftl_mul_pow2 by assumption. reflexivity.
Qed.

(** [x << k] for a byte [x] and [k <= 16] stays within 32 bits. *)
Lemma js_shl_byte (x k : Z) :
  0 <= x < 256 -> 0 <= k <= 16 -> js_shl x k = x * 2 ^ k.
Proof.
  intros Hx Hk. unfold js_shl.
  rewrite (int32_small x) by lia.
  rewrite Z.shiftl_mul_pow2 by lia.
  assert (2 ^ k <= 2 ^ 16) by (apply Z.pow_le_mono_r; lia).
  assert (0 < 2 ^ k) by (apply Z.pow_pos_nonneg; lia).
  apply int32_small. nia.
Qed.

Lemma js_or_disjoint (x y k : Z) :
  0 <= k -> 0 <= x < 2 ^ k -> - 2 ^ 31 <= y * 2 ^ k < 2 ^ 31 -> 2 ^ k <= 2 ^ 31 ->
  js_or x (y * 2 ^ k) = x + y * 2 ^ k.
Proof.
  intros Hk Hx Hy Hle. unfold js_or.
  rewrite (int32_small x) by lia.
  rewrite (int32_small (y * 2 ^ k)) by lia.
  rewrite <- Z.shiftl_mul_pow2 by assumption.
  rewrite lor_shiftl_add by assumption.
  rewrite Z.shiftl_mul_pow2 by assumption. reflexivity.
Qed.

Lemma or16 (a b : Z) :
  0 <= a < 256 -> 0 <= b < 256 -> js_or a (js_shl b 8) = a + 256 * b.
Proof.
  intros Ha Hb. rewrite js_shl_byte by lia.
  rewrite (js_or_disjoint a b 8) by lia. lia.
Qed.

(** The 32-bit combination, before [>>> 0] and [>>> 2] are applied. *)
Lemma or32 (a b c d : Z) :
  0 <= a < 256 -> 0 <= b < 256 -> 0 <= c < 256 -> 0 <= d < 256 ->
  uint32 (js_or (js_or (js_or a (js_shl b 8)) (js_shl c 16)) (js_shl d 24))
  = a + 256 * b + 65536 * c + 16777216 * d.
Proof.
  intros Ha Hb Hc Hd.
  rewrite or16 by assumption.
  rewrite (js_shl_byte c 16) by lia.
  rewrite (js_or_disjoint (a + 256 * b) c 16) by lia.
  assert (Hsh : js_shl d 24 = (if d <? 128 then d else d - 256) * 2 ^ 24).
  { unfold js_shl. rewrite (int32_small d) by lia.
    rewrite Z.shiftl_mul_pow2 by lia. unfold int32.
    destruct (d <? 128) eqn:E.
    - apply Z.ltb_lt in E. rewrite Z.mod_small; lia.
    - apply Z.ltb_ge in E.
      replace (d * 2 ^ 24 + 2 ^ 31) with ((d * 2 ^ 24 - 2 ^ 31) + 1 * 2 ^ 32) by lia.
      rewrite Z.mod_add by lia. rewrite Z.mod_small; lia. }
  rewrite Hsh.
  rewrite (js_or_disjoint (a + 256 * b + c * 2 ^ 16)) by (destruct (d <? 128) eqn:E;
    [apply Z.ltb_lt in E | apply Z.ltb_ge in E]; lia).
  unfold uint32. destruct (d <? 128) eqn:E.
  - apply Z.ltb_lt in E. rewrite Z.mod_small; lia.
  - apply Z.ltb_ge in E.
    replace (a + 256 * b + c * 2 ^ 16 + (d - 256) * 2 ^ 24)
      with ((a + 256 * b + c * 2 ^ 16 + d * 2 ^ 24) + (-1) * 2 ^ 32) by lia.
    rewrite Z.mod_add by lia. rewrite Z.mod_small; lia.
Qed.

Lemma slice_step (buf : bytes) (off n : nat) :
  leValue (slice buf off (off + S n))
  = getInt buf off + 256 * leValue (slice buf (S off) (S off + n)).
Proof.
  unfold slice, getInt, getByte.
  replace (off + S n - off)%nat with (S n) by lia.
  replace (S off + n - S off)%nat with n by lia.
  revert buf. induction off as [| off IH]; intros buf.
  - destruct buf as [| x r]; simpl; [destruct n; reflexivity | reflexivity].
  - destruct buf as [| x r].
    + simpl. destruct n; reflexivity.
    + simpl nth_error. rewrite !skipn_cons. apply IH.
Qed.

Lemma slice_empty (buf : bytes) (off : nat) : slice buf off (off + 0) = [].
Proof. unfold slice. replace (off + 0 - off)%nat with 0%nat by lia. reflexivity. Qed.

End Arithmetic.

Section BigIntLoops.

Lemma bigIntAt_in (buf : bytes) (i : nat) :
  (i < length buf)%nat -> bigIntAt buf i = Ok (getInt buf i).
Proof.
  intros H. unfold bigIntAt, getInt, getByte.
  destruct (nth_error buf i) eqn:E; [reflexivity |].
  apply nth_error_None in E. lia.
Qed.

Lemma bigIntAt_out (buf : bytes) (i : nat) :
  (length buf <= i)%nat ->
  bigIntAt buf i = Throw (TypeError "Cannot convert undefined to a BigInt").
Proof.
  intros H. unfold bigIntAt, getByte.
  apply nth_error_None in H. rewrite H. reflexivity.
Qed.

Lemma bigLoop_in (buf : bytes) (base n : nat) :
  forall (i : nat) (v : Z),
    (base + i + n <= length buf)%nat ->
    0 <= v < 2 ^ (8 * Z.of_nat i) ->
    bigLoop buf base i n v
    = Ok (v + 2 ^ (8 * Z.of_nat i)
              * leValue (slice buf (base + i) (base + i + n))).
Proof.
  induction n as [| n IH]; intros i v Hlen Hv.
  - simpl. rewrite slice_empty. simpl. f_equal. lia.
  - cbn [bigLoop]. rewrite bigIntAt_in by lia. cbn [bind].
    pose proof (getInt_range buf (base + i)) as Hb.
    replace (Z.of_nat (8 * i)) with (8 * Z.of_nat i) by lia.
    rewrite lor_shiftl_add by lia.
    assert (Hp : 2 ^ (8 * Z.of_nat (S i)) = 256 * 2 ^ (8 * Z.of_nat i)).
    { replace (8 * Z.of_nat (S i)) with (8 + 8 * Z.of_nat i) by lia.
      rewrite Z.pow_add_r by lia. reflexivity. }
    rewrite IH; [| lia | rewrite Hp; nia].
    rewrite slice_step.
    replace (base + S i)%nat with (S (base + i)) by lia.
    f_equal. rewrite Hp. ring.
Qed.

Lemma bigLoop_out (buf : bytes) (base n : nat) :
  forall (i : nat) (v : Z),
    (0 < n)%nat -> (length buf < base + i + n)%nat ->
    bigLoop buf base i n v
    = Throw (TypeError "Cannot convert undefined to a BigInt").
Proof.
  induction n as [| n IH]; intros i v Hn Hlen; [lia |].
  cbn [bigLoop].
  destruct (Nat.lt_ge_cases (base + i) (length buf)) as [Hin | Hout].
  - rewrite bigIntAt_in by assumption. cbn [bind].
    apply IH; lia.
  - rewrite bigIntAt_out by assumption. reflexivity.
Qed.

Lemma readU128_le (buf : bytes) (off : nat) :
  (off + 16 <= length buf)%nat ->
  readU128 buf off = Ok (mkRead (leValue (slice buf off (off + 16))) (off + 16)).
Proof.
  intros H. unfold readU128.
  rewrite bigLoop_in by (simpl; lia). cbn [bind].
  replace (off + 0)%nat with off by lia.
  do 2 f_equal. simpl Z.of_nat. lia.
Qed.

Lemma readU16_le (buf : bytes) (off : nat) :
  readU16 buf off = mkRead (leValue (slice buf off (off + 2))) (off + 2).
Proof.
  unfold readU16. f_equal.
  rewrite or16 by apply getInt_range.
  rewrite (slice_step buf off 1), (slice_step buf (S off) 0), slice_empty.
  replace (off + 1)%nat with (S off) by lia. simpl leValue. lia.
Qed.

Lemma readU32_le (buf : bytes) (off : nat) :
  readU32 buf off = mkRead (leValue (slice buf off (off + 4))) (off + 4).
Proof.
  unfold readU32, js_ushr. f_equal.
  rewrite or32 by apply getInt_range. rewrite Z.shiftr_0_r.
  rewrite (slice_step buf off 3), (slice_step buf (S off) 2),
    (slice_step buf (S (S off)) 1), (slice_step buf (S (S (S off))) 0), slice_empty.
  replace (off + 1)%nat with (S off) by lia.
  replace (off + 2)%nat with (S (S off)) by lia.
  replace (off + 3)%nat with (S (S (S off))) by lia.
  simpl leValue. lia.
Qed.

End BigIntLoops.

(** ** Compact integers (C3) *)

(** C3, as stated, fails: the single-byte-count reading of mode 11 gives 0
    for the five bytes 03 00 00 00 40, the code gives 2^30. *)
Lemma compact_mode3_counterexample :
  readCompactU32 [x03; x00; x00; x00; x40] 0
  = Ok (mkRead (VBig 1073741824) 5)
  /\ compactAsWorded [x03; x00; x00; x00; x40] 0
     = Ok (mkRead (VBig 0) 1)
  /\ readCompactU32 [x03; x00; x00; x00; x40] 0
     <> compactAsWorded [x03; x00; x00; x00; x40] 0.
Proof.
  repeat split; try reflexivity. vm_compute. discriminate.
Qed.

(** C3 (amended): for every buffer and offset [readCompactU32] selects the
    mode from the two low bits of the first byte; modes 00, 01 and 10 return
    the 1-, 2- and 4-byte little-endian value shifted right by two (a byte
    missing from the buffer counting as 0); mode 11 reads 4 plus the upper
    six bits further bytes and returns their little-endian value as a
    bigint, raising a TypeError when one of them is missing.  The four
    examples of the specification hold. *)
Theorem readCompactU32_modes :
  (forall (buf : bytes) (off : nat),
      readCompactU32 buf off = compactAsCoded buf off)
  /\ readCompactU32 [x00] 0 = Ok (mkRead (VNum 0) 1)
  /\ readCompactU32 [xfc] 0 = Ok (mkRead (VNum 63) 1)
  /\ readCompactU32 [x01; x01] 0 = Ok (mkRead (VNum 64) 2)
  /\ readCompactU32 [x02; x00; x01; x00] 0 = Ok (mkRead (VNum 16384) 4).
Proof.
  split; [| repeat split; reflexivity].
  intros buf off. unfold readCompactU32, compactAsCoded.
  pose proof (getInt_range buf off) as H0.
  assert (Hb0 : leValue (slice buf off (off + 1)) = getInt buf off).
  { rewrite (slice_step buf off 0), slice_empty. simpl. lia. }
  rewrite Hb0.
  assert (Hflag : Z.land (getInt buf off) 3 = getInt buf off mod 4).
  { change 3 with (Z.ones 2). rewrite Z.land_ones by lia. reflexivity. }
  rewrite Hflag.
  assert (Hshr : js_shr (getInt buf off) 2 = getInt buf off / 4).
  { unfold js_shr. rewrite int32_small by lia.
    rewrite Z.shiftr_div_pow2 by lia. reflexivity. }
  destruct (getInt buf off mod 4 =? 0) eqn:E0.
  { rewrite Hshr. reflexivity. }
  destruct (getInt buf off mod 4 =? 1) eqn:E1.
  { do 3 f_equal.
    pose proof (getInt_range buf (off + 1)) as H1.
    rewrite or16 by assumption.
    unfold js_ushr, js_shr. rewrite int32_small by lia.
    rewrite Z.shiftr_0_r. rewrite Z.shiftr_div_pow2 by lia.
    change (2 ^ 2) with 4.
    assert (0 <= (getInt buf off + 256 * getInt buf (off + 1)) / 4 < 2 ^ 32).
    { split; [apply Z.div_pos; lia |].
      apply Z.div_lt_upper_bound; lia. }
    rewrite uint32_small by assumption.
    rewrite (slice_step buf off 1), (slice_step buf (S off) 0), slice_empty.
    replace (off + 1)%nat with (S off) by lia. simpl leValue.
    f_equal. lia. }
  destruct (getInt buf off mod 4 =? 2) eqn:E2.
  { do 3 f_equal.
    pose proof (getInt_range buf (off + 1)) as H1.
    pose proof (getInt_range buf (off + 2)) as H2.
    pose proof (getInt_range buf (off + 3)) as H3.
    unfold js_ushr at 1 2. rewrite or32 by assumption.
    rewrite Z.shiftr_0_r. rewrite Z.shiftr_div_pow2 by lia.
    change (2 ^ 2) with 4.
    set (s := getInt buf off + 256 * getInt buf (off + 1)
              + 65536 * getInt buf (off + 2) + 16777216 * getInt buf (off + 3)).
    assert (0 <= s / 4 < 2 ^ 32).
    { split; [apply Z.div_pos; lia |].
      apply Z.div_lt_upper_bound; lia. }
    rewrite uint32_small by assumption.
    rewrite (slice_step buf off 3), (slice_step buf (S off) 2),
      (slice_step buf (S (S off)) 1), (slice_step buf (S (S (S off))) 0), slice_empty.
    subst s.
    replace (off + 1)%nat with (S off) by lia.
    replace (off + 2)%nat with (S (S off)) by lia.
    replace (off + 3)%nat with (S (S (S off))) by lia.
    simpl leValue. f_equal. lia. }
  rewrite Hshr.
  set (n := Z.to_nat (4 + getInt buf off / 4)).
  assert (Hn : (0 < n)%nat).
  { subst n. assert (0 <= getInt buf off / 4) by (apply Z.div_pos; lia). lia. }
  destruct (off + 1 + n <=? length buf)%nat eqn:El.
  - apply Nat.leb_le in El.
    rewrite bigLoop_in by (simpl; lia). cbn [bind].
    replace (off + 1 + 0)%nat with (off + 1)%nat by lia.
    do 3 f_equal. simpl Z.of_nat. lia.
  - apply Nat.leb_gt in El.
    rewrite bigLoop_out by lia. reflexivity.
Qed.

(** ** Hex helpers (C10) *)

Section HexRoundTrip.

Lemma byteHex_parse (x : byte) : toUint8 (parseInt16 (byteHex x)) = x.
Proof. destruct x; reflexivity. Qed.

Lemma byteHex_lower (x : byte) : allChars isLowerHex (byteHex x) = true.
Proof. destruct x; reflexivity. Qed.

Lemma byteHex_shape (x : byte) :
  exists c1 c2, byteHex x = String c1 (String c2 EmptyString).
Proof. unfold byteHex. eauto. Qed.

Lemma parsePairs_hexOf (bs : bytes) : parsePairs (hexOf bs) = bs.
Proof.
  induction bs as [| x r IH]; [reflexivity |].
  cbn [hexOf]. pose proof (byteHex_parse x) as Hp.
  destruct (byteHex_shape x) as (c1 & c2 & E). rewrite E in *.
  change (parsePairs (String c1 (String c2 (hexOf r))) = x :: r).
  cbn [parsePairs]. rewrite Hp, IH. reflexivity.
Qed.

Lemma hexOf_length (bs : bytes) :
  String.length (hexOf bs) = (2 * length bs)%nat.
Proof.
  induction bs as [| x r IH]; [reflexivity |].
  cbn [hexOf]. destruct (byteHex_shape x) as (c1 & c2 & E). rewrite E.
  change (String.length (String c1 (String c2 (hexOf r))) = (2 * length (x :: r))%nat).
  cbn [String.length length]. rewrite IH. lia.
Qed.

Lemma hexOf_lower (bs : bytes) : allChars isLowerHex (hexOf bs) = true.
Proof.
  induction bs as [| x r IH]; [reflexivity |].
  cbn [hexOf]. pose proof (byteHex_lower x) as Hl.
  destruct (byteHex_shape x) as (c1 & c2 & E). rewrite E in *.
  change (allChars isLowerHex (String c1 (String c2 (hexOf r))) = true).
  cbn [allChars] in *. rewrite IH.
  apply andb_true_iff in Hl as [H1 H2]. apply andb_true_iff in H2 as [H2 _].
  rewrite H1, H2. reflexivity.
Qed.

Lemma startsWith0x_0x (s : string) :
  startsWith0x (String "0" (String "x" s)) = true.
Proof. destruct s; reflexivity. Qed.

End HexRoundTrip.

(** C10: [hexToBytes (bytesToHex b) = b] for every byte array [b], and
    [bytesToHex b] is ["0x"] followed by [2 * |b|] lowercase hex digits, so
    of length [2 * |b| + 2]. *)
Theorem hex_round_trip (bs : bytes) :
  hexToBytes (bytesToHex bs) = bs
  /\ String.length (bytesToHex bs) = (2 * length bs + 2)%nat
  /\ exists digits,
       bytesToHex bs = String "0" (String "x" digits)
       /\ allChars isLowerHex digits = true.
Proof.
  unfold bytesToHex, hexToBytes.
  change ("0x" +:+ hexOf bs) with (String "0" (String "x" (hexOf bs))).
  rewrite startsWith0x_0x. cbn [slice2].
  repeat split.
  - apply parsePairs_hexOf.
  - cbn [String.length]. rewrite hexOf_length. lia.
  - exists (hexOf bs). split; [reflexivity | apply hexOf_lower].
Qed.

(** ** Indexed arguments of the generated decoders (C5) *)

Section IndexedArguments.

Import Gen.

Lemma nth_error_nth_default (l : list string) (i : nat) (t : string) :
  nth_error l i = Some t -> nth i l "" = t /\ (i <? length l)%nat = true.
Proof.
  intros H. split.
  - apply nth_error_nth. exact H.
  - apply Nat.ltb_lt. apply nth_error_Some. congruence.
Qed.

Lemma stepBlock_indexed (data : bytes) (topics : list string) (ctx : Ctx)
      (label t : string) (kind : TopicKind) :
  nth_error topics (topicIndex ctx) = Some t ->
  length (hexToBytes t) = 32%nat ->
  stepBlock data topics ctx (BIndexed label kind)
  = Ok (mkCtx (setProp (result ctx) label (topicValue kind t))
              (offset ctx) (S (topicIndex ctx))).
Proof.
  intros Ht Hlen. apply nth_error_nth_default in Ht as [Hnth Hlt].
  cbn [stepBlock]. rewrite Hlt, Hnth, Hlen. cbn [assert bind Nat.leb].
  destruct kind; cbn [topicValue].
  - rewrite readU128_le by lia. reflexivity.
  - reflexivity.
  - rewrite readU32_le. reflexivity.
  - rewrite readU16_le. reflexivity.
  - reflexivity.
Qed.

End IndexedArguments.

(** C5, as stated, fails where the path and the definition of a type part:
    an indexed argument whose type is the primitive u32 but carries the
    path primitive_types.H160 is stored as the hex string of the last 20
    topic bytes and not as the integer read from offset 0, and one whose
    type is the 20-byte address shape under another path is stored as the
    raw topic string and not as the hex string of its last 20 bytes. *)
Lemma indexed_type_order_counterexample :
  Gen.generateBlock pathTypes 1 (mkArg "role" 4 true)
  = Some (Gen.BIndexed "role" Gen.TH160)
  /\ length (hexToBytes (nth 1 exampleTopics "")) = 32%nat
  /\ Gen.stepBlock [] exampleTopics (Gen.mkCtx [] 0 1) (Gen.BIndexed "role" Gen.TH160)
     = Ok (Gen.mkCtx
             [("role", VStr "0x0000000000000000000000000000000000000000")] 0 2)
  /\ VStr "0x0000000000000000000000000000000000000000"
     <> VNum (leValue (firstn 4 (hexToBytes (nth 1 exampleTopics ""))))
  /\ Gen.generateBlock pathTypes 1 (mkArg "grantee" 2 true)
     = Some (Gen.BIndexed "grantee" Gen.TRaw)
  /\ length (hexToBytes (nth 2 exampleTopics "")) = 32%nat
  /\ Gen.stepBlock [] exampleTopics (Gen.mkCtx [] 0 2) (Gen.BIndexed "grantee" Gen.TRaw)
     = Ok (Gen.mkCtx
             [("grantee",
               VStr "0x000000000000000000000000e75cbd47620dbb2053cf2a98d06840f06baaf141")]
             0 3)
  /\ VStr "0x000000000000000000000000e75cbd47620dbb2053cf2a98d06840f06baaf141"
     <> VStr (bytesToHex (skipn 12 (hexToBytes (nth 2 exampleTopics "")))).
Proof.
  repeat split; try reflexivity.
  - discriminate.
  - vm_compute. discriminate.
Qed.

(** C5 (amended): in a generated decoder, an indexed argument whose topic
    decodes to 32 bytes is stored without error, the data offset untouched
    and the topic index advanced by one.  The stored value follows the
    tests of the generator in their order: the little-endian integer of
    the first 16 topic bytes for the primitive u128; otherwise the hex
    string of the last 20 topic bytes for a type of path
    primitive_types.H160, whatever its definition; otherwise the
    little-endian integer of the first 4 or 2 topic bytes for the
    primitives u32 and u16; and the topic string itself for any other
    type and for an unknown type id. *)
Theorem indexed_topic_decode
        (types : list TypeEntry) (fuel : nat) (arg : ArgSpec)
        (data : bytes) (topics : list string) (ctx : Gen.Ctx) (t : string) :
  a_indexed arg = true ->
  nth_error topics (Gen.topicIndex ctx) = Some t ->
  length (hexToBytes t) = 32%nat ->
  exists (kind : Gen.TopicKind) (v : Value),
    Gen.generateBlock types fuel arg
    = Some (Gen.BIndexed (orElse (Some (a_label arg)) "field") kind)
    /\ Gen.stepBlock data topics ctx
         (Gen.BIndexed (orElse (Some (a_label arg)) "field") kind)
       = Ok (Gen.mkCtx (setProp (Gen.result ctx)
                                (orElse (Some (a_label arg)) "field") v)
                       (Gen.offset ctx) (S (Gen.topicIndex ctx)))
    /\ (forall td, Gen.findType types (a_type arg) = Some td ->
                   Gen.isPrimitive td "u128" = true ->
                   v = VBig (leValue (firstn 16 (hexToBytes t))))
    /\ (forall td, Gen.findType types (a_type arg) = Some td ->
                   Gen.isPrimitive td "u128" = false -> isH160 td = true ->
                   v = VStr (bytesToHex (skipn 12 (hexToBytes t))))
    /\ (forall td, Gen.findType types (a_type arg) = Some td ->
                   isH160 td = false -> Gen.isPrimitive td "u32" = true ->
                   v = VNum (leValue (firstn 4 (hexToBytes t))))
    /\ (forall td, Gen.findType types (a_type arg) = Some td ->
                   isH160 td = false -> Gen.isPrimitive td "u16" = true ->
                   v = VNum (leValue (firstn 2 (hexToBytes t))))
    /\ (forall td, Gen.findType types (a_type arg) = Some td ->
                   Gen.isPrimitive td "u128" = false -> isH160 td = false ->
                   Gen.isPrimitive td "u32" = false ->
                   Gen.isPrimitive td "u16" = false ->
                   v = VStr t)
    /\ (Gen.findType types (a_type arg) = None -> v = VStr t).
Proof.
  intros Hidx Ht Hlen.
  exists (Gen.topicKind (Gen.findType types (a_type arg))).
  exists (topicValue (Gen.topicKind (Gen.findType types (a_type arg))) t).
  split.
  { unfold Gen.generateBlock. rewrite Hidx. reflexivity. }
  split.
  { apply stepBlock_indexed; assumption. }
  assert (Hprim : forall td p q, Gen.isPrimitive td p = true -> p <> q ->
                                 Gen.isPrimitive td q = false).
  { intros td p q Hp Hne. unfold Gen.isPrimitive in *.
    destruct (t_def td); try discriminate.
    apply String.eqb_eq in Hp. subst. apply String.eqb_neq.
    exact Hne. }
  unfold Gen.topicKind.
  split; [| split; [| split; [| split; [| split]]]].
  - intros td Hf Hp. rewrite Hf, Hp. reflexivity.
  - intros td Hf Hp Hh. rewrite Hf, Hp, Hh. reflexivity.
  - intros td Hf Hh Hp.
    rewrite Hf, (Hprim td "u32" "u128" Hp), Hh, Hp by discriminate.
    reflexivity.
  - intros td Hf Hh Hp.
    rewrite Hf, (Hprim td "u16" "u128" Hp), Hh, (Hprim td "u16" "u32" Hp), Hp
      by discriminate.
    reflexivity.
  - intros td Hf H128 Hh H32 H16. rewrite Hf, H128, Hh, H32, H16. reflexivity.
  - intros Hf. rewrite Hf. reflexivity.
Qed.

Lemma indexed_topic_decode_witness :
  a_indexed (mkArg "player" 2 true) = true
  /\ nth_error exampleTopics 2 = Some (nth 2 exampleTopics "")
  /\ length (hexToBytes (nth 2 exampleTopics "")) = 32%nat
  /\ exists v,
       Gen.stepBlock [] exampleTopics (Gen.mkCtx [] 0 2)
                     (Gen.BIndexed "player" Gen.TH160)
       = Ok (Gen.mkCtx [("player", v)] 0 3)
       /\ v = VStr "0xe75cbd47620dbb2053cf2a98d06840f06baaf141".
Proof.
  split; [reflexivity |]. split; [reflexivity |]. split; [reflexivity |].
  destruct (indexed_topic_decode exampleTypes 1 (mkArg "player" 2 true) []
              exampleTopics (Gen.mkCtx [] 0 2) (nth 2 exampleTopics "")
              eq_refl eq_refl eq_refl)
    as (kind & v & Hgen & Hstep & _ & Hh160 & _).
  exists v. split.
  - injection Hgen as <-. exact Hstep.
  - apply (Hh160 _ eq_refl eq_refl eq_refl).
Defined.

(** ** Variants (C2) *)

Section Variants.

Import Gen.









End Variants.




(** ** Sequences (C6) *)

(** C6 at its failing inputs.  The raw-slice case of [generateDecodeCall] is
    taken when the element type id is 5, whatever type 5 is.  With u32 as
    type 5, a [Vec<u32>] of two elements comes back as the two bytes after
    the length, at offset 3, where the element-wise decode gives [1, 2] at
    offset 9; with u8 as type 2, a [Vec<u8>] is decoded element by element
    into an array of numbers and not returned as the byte slice. *)
Theorem vec_u8_case_tests_type_id_5 :
  Gen.generateDecodeCall u32AtFive 2 9 "offset" = Some Gen.CVecU8
  /\ Gen.eval Gen.CVecU8 [x08; x01; x00; x00; x00; x02; x00; x00; x00] 0
     = Ok (VBytes [x01; x00], 3%nat)
  /\ Gen.eval (Gen.CVec "offset" Gen.CReadU32)
              [x08; x01; x00; x00; x00; x02; x00; x00; x00] 0
     = Ok (VArr [VNum 1; VNum 2], 9%nat)
  /\ Gen.generateDecodeCall u8AtTwo 2 7 "offset"
     = Some (Gen.CVec "offset" Gen.CReadU8)
  /\ Gen.eval (Gen.CVec "offset" Gen.CReadU8) [x08; x0a; x0b] 0
     = Ok (VArr [VNum 10; VNum 11], 3%nat)
  /\ Gen.eval Gen.CVecU8 [x08; x0a; x0b] 0 = Ok (VBytes [x0a; x0b], 3%nat).
Proof. repeat split; reflexivity. Qed.

(** ** The two cursors of event decoding (C1) *)

Section Cursors.

Import Gen.

Lemma bind_Ok {A B} (r : Res A) (k : A -> Res B) (y : B) :
  bind r k = Ok y -> exists x, r = Ok x /\ k x = Ok y.
Proof. destruct r; cbn [bind]; intros H; try discriminate. eauto. Qed.

Lemma generateEventDecoder_routing (types : list TypeEntry) (fuel : nat)
      (args : list ArgSpec) :
  forall (k : nat) (bs : list Block),
    mapMi (fun _ arg => generateBlock types fuel arg) args k = Some bs ->
    map isIndexedBlock bs = map a_indexed args.
Proof.
  induction args as [| arg rest IH]; intros k bs H.
  - injection H as <-. reflexivity.
  - cbn [mapMi] in H.
    destruct (generateBlock types fuel arg) as [blk |] eqn:Eb; [| discriminate].
    destruct (mapMi _ rest (S k)) as [bs' |] eqn:Er; [| discriminate].
    injection H as <-. cbn [map]. f_equal; [| apply (IH _ _ Er)].
    unfold generateBlock in Eb. destruct (a_indexed arg).
    + injection Eb as <-. reflexivity.
    + destruct (generateDecodeCall _ _ _ _); [| discriminate].
      injection Eb as <-. reflexivity.
Qed.

(** An indexed block never looks at the data buffer. *)
Lemma stepBlock_indexed_ignores_data (data data' : bytes) (topics : list string)
      (ctx : Ctx) (label : string) (kind : TopicKind) :
  stepBlock data topics ctx (BIndexed label kind)
  = stepBlock data' topics ctx (BIndexed label kind).
Proof. reflexivity. Qed.

(** A data block never looks at the topics. *)
Lemma stepBlock_data_ignores_topics (data : bytes) (topics topics' : list string)
      (ctx : Ctx) (label : string) (code : Code) :
  stepBlock data topics ctx (BData label code)
  = stepBlock data topics' ctx (BData label code).
Proof. reflexivity. Qed.

Lemma stepBlock_indexed_cursors (data : bytes) (topics : list string)
      (ctx ctx' : Ctx) (label : string) (kind : TopicKind) :
  stepBlock data topics ctx (BIndexed label kind) = Ok ctx' ->
  offset ctx' = offset ctx /\ topicIndex ctx' = S (topicIndex ctx).
Proof.
  cbn [stepBlock]. intros H.
  apply bind_Ok in H as (u1 & _ & H).
  apply bind_Ok in H as (u2 & _ & H).
  apply bind_Ok in H as (v & _ & H).
  injection H as <-. split; reflexivity.
Qed.

Lemma stepBlock_data_cursors (data : bytes) (topics : list string)
      (ctx ctx' : Ctx) (label : string) (code : Code) :
  stepBlock data topics ctx (BData label code) = Ok ctx' ->
  topicIndex ctx' = topicIndex ctx
  /\ exists v, eval code data (offset ctx) = Ok (v, offset ctx')
               /\ result ctx' = setProp (result ctx) label v.
Proof.
  cbn [stepBlock]. intros H.
  apply bind_Ok in H as (u1 & _ & H).
  apply bind_Ok in H as ([v o] & He & H).
  injection H as <-. split; [reflexivity |].
  exists v. split; [exact He | reflexivity].
Qed.

Lemma runBlocks_indexed_prefix (data : bytes) (topics : list string) :
  forall (pre : list Block) (ctx ctx' : Ctx),
    forallb isIndexedBlock pre = true ->
    runBlocks data topics ctx pre = Ok ctx' ->
    offset ctx' = offset ctx
    /\ topicIndex ctx' = (topicIndex ctx + length pre)%nat.
Proof.
  induction pre as [| blk rest IH]; intros ctx ctx' Hall Hrun.
  - injection Hrun as <-. cbn [length]. split; [reflexivity | lia].
  - cbn [forallb] in Hall. apply andb_true_iff in Hall as [Hb Hrest].
    cbn [runBlocks] in Hrun. apply bind_Ok in Hrun as (c1 & Hstep & Hrun).
    destruct blk as [label kind | label code]; [| discriminate].
    apply stepBlock_indexed_cursors in Hstep as [Ho Ht].
    destruct (IH _ _ Hrest Hrun) as [Ho' Ht'].
    cbn [length]. split; [congruence | lia].
Qed.

(** Running only the data blocks, on any topics and from any context
    with the same offset, moves the data cursor exactly as the whole run
    does. *)
Lemma runBlocks_data_projection (data : bytes) (topics topics' : list string) :
  forall (bs : list Block) (ctx ctx' other : Ctx),
    runBlocks data topics ctx bs = Ok ctx' ->
    offset other = offset ctx ->
    exists other',
      runBlocks data topics' other
                (List.filter (fun blk => negb (isIndexedBlock blk)) bs)
      = Ok other'
      /\ offset other' = offset ctx'.
Proof.
  induction bs as [| blk rest IH]; intros ctx ctx' other Hrun Hoff.
  - injection Hrun as <-. exists other. split; [reflexivity | exact Hoff].
  - cbn [runBlocks] in Hrun. apply bind_Ok in Hrun as (c1 & Hstep & Hrun).
    destruct blk as [label kind | label code]; cbn [List.filter isIndexedBlock negb].
    + apply stepBlock_indexed_cursors in Hstep as [Ho _].
      apply (IH _ _ _ Hrun). congruence.
    + cbn [stepBlock] in Hstep.
      apply bind_Ok in Hstep as (u1 & Ha & Hstep).
      apply bind_Ok in Hstep as ([v o] & He & Hstep).
      injection Hstep as <-.
      cbn [runBlocks stepBlock]. rewrite Hoff, Ha, He. cbn [bind].
      apply (IH _ _ _ Hrun). reflexivity.
Qed.

End Cursors.

(** C1, as stated, fails on the interpreter: [decodeEventData] first moves
    its data cursor over an encoding of the indexed [game_number], so
    [attempt] is read at offset 16, not at offset 0; and a payload that
    holds the non-indexed arguments only is not decoded at all. *)
Lemma interpreter_skips_indexed_counterexample :
  Interp.skipIndexed exampleDecoder 2 (e_args guessMade) sixteenThenGuess 0 = Ok 16
  /\ Interp.decodeEventData exampleDecoder 2 sixteenThenGuess guessMade
                            (firstn 2 exampleTopics)
     = Ok [("game_number", VBig 1); ("attempt", VNum 1); ("guess", VNum 300)]
  /\ Interp.decodeData exampleDecoder 2 (e_args guessMade) sixteenThenGuess
                       [("game_number", VBig 1)] 0
     = Ok [("game_number", VBig 1); ("attempt", VNum 286331153);
           ("guess", VNum 4369)]
  /\ Interp.decodeEventData exampleDecoder 2 sixteenThenGuess guessMade
                            (firstn 2 exampleTopics)
     <> Interp.decodeData exampleDecoder 2 (e_args guessMade) sixteenThenGuess
                          [("game_number", VBig 1)] 0
  /\ (let! decoder := Interp.loadMetadata ∅ (mkDoc [guessMade] exampleTypes) in
      Interp.decodeEvent decoder 2
        "0x11111111111111111111111111111111010000002c01" guessMadeTopics)
     = Ok (Some (Interp.mkInkEvent "guessmade"
                   [("game_number", VBig 1); ("attempt", VNum 1);
                    ("guess", VNum 300)]
                   guessMadeTopics))
  /\ (let! decoder := Interp.loadMetadata ∅ (mkDoc [guessMade] exampleTypes) in
      Interp.decodeEvent decoder 2 "0x010000002c01" guessMadeTopics)
     = Ok None.
Proof.
  assert (H1 : Interp.decodeEventData exampleDecoder 2 sixteenThenGuess guessMade
                 (firstn 2 exampleTopics)
               = Ok [("game_number", VBig 1); ("attempt", VNum 1);
                     ("guess", VNum 300)]) by (vm_compute; reflexivity).
  assert (H2 : Interp.decodeData exampleDecoder 2 (e_args guessMade) sixteenThenGuess
                 [("game_number", VBig 1)] 0
               = Ok [("game_number", VBig 1); ("attempt", VNum 286331153);
                     ("guess", VNum 4369)]) by (vm_compute; reflexivity).
  split; [vm_compute; reflexivity |]. split; [exact H1 |]. split; [exact H2 |].
  split; [rewrite H1, H2; discriminate |].
  split; vm_compute; reflexivity.
Qed.

(** C1 (amended): in the decoders the generator emits, each argument is
    routed by its indexed flag, in declaration order; the block of an
    indexed argument does not read the data buffer, leaves the data offset
    and advances the topic index by one; the block of a non-indexed
    argument does not read the topics, leaves the topic index and decodes
    at the running data offset; the data offset after a run is the one
    reached by the non-indexed blocks alone; and the first non-indexed
    argument is decoded at data offset 0.  (The interpreter's
    [decodeEventData] instead starts the non-indexed arguments after one
    encoding of each indexed argument in the data.) *)
Theorem generated_decoder_cursors
        (types : list TypeEntry) (fuel : nat) (args : list ArgSpec)
        (blocks : list Gen.Block) :
  Gen.generateEventDecoder types fuel args = Some blocks ->
  map isIndexedBlock blocks = map a_indexed args
  /\ (forall label kind data data' topics ctx,
         Gen.stepBlock data topics ctx (Gen.BIndexed label kind)
         = Gen.stepBlock data' topics ctx (Gen.BIndexed label kind))
  /\ (forall label kind data topics ctx ctx',
         Gen.stepBlock data topics ctx (Gen.BIndexed label kind) = Ok ctx' ->
         Gen.offset ctx' = Gen.offset ctx
         /\ Gen.topicIndex ctx' = S (Gen.topicIndex ctx))
  /\ (forall label code data topics topics' ctx,
         Gen.stepBlock data topics ctx (Gen.BData label code)
         = Gen.stepBlock data topics' ctx (Gen.BData label code))
  /\ (forall label code data topics ctx ctx',
         Gen.stepBlock data topics ctx (Gen.BData label code) = Ok ctx' ->
         Gen.topicIndex ctx' = Gen.topicIndex ctx
         /\ exists v, Gen.eval code data (Gen.offset ctx) = Ok (v, Gen.offset ctx')
                      /\ Gen.result ctx' = setProp (Gen.result ctx) label v)
  /\ (forall data topics topics' ctx',
         Gen.runBlocks data topics (Gen.mkCtx [] 0 1) blocks = Ok ctx' ->
         exists other',
           Gen.runBlocks data topics' (Gen.mkCtx [] 0 1)
             (List.filter (fun blk => negb (isIndexedBlock blk)) blocks)
           = Ok other'
           /\ Gen.offset other' = Gen.offset ctx')
  /\ (forall pre label code post data topics ctx,
         blocks = (pre ++ Gen.BData label code :: post)%list ->
         forallb isIndexedBlock pre = true ->
         Gen.runBlocks data topics (Gen.mkCtx [] 0 1) pre = Ok ctx ->
         Gen.offset ctx = 0%nat
         /\ Gen.stepBlock data topics ctx (Gen.BData label code)
            = (let! _ := assert (0 <=? length data)%nat
                                ("Offset overflow for arg " ++ label) in
               let! r := Gen.eval code data 0 in
               Ok (Gen.mkCtx (setProp (Gen.result ctx) label (fst r)) (snd r)
                             (Gen.topicIndex ctx)))).
Proof.
  intros Hgen. split; [| split; [| split; [| split; [| split; [| split]]]]].
  - apply (generateEventDecoder_routing types fuel args 0 blocks Hgen).
  - intros. reflexivity.
  - intros label kind data topics ctx ctx' H.
    apply (stepBlock_indexed_cursors data topics ctx ctx' label kind H).
  - intros. reflexivity.
  - intros label code data topics ctx ctx' H.
    apply (stepBlock_data_cursors data topics ctx ctx' label code H).
  - intros data topics topics' ctx' H.
    apply (runBlocks_data_projection data topics topics' blocks _ _ _ H).
    reflexivity.
  - intros pre label code post data topics ctx _ Hall Hrun.
    destruct (runBlocks_indexed_prefix data topics pre _ _ Hall Hrun) as [Ho _].
    cbn [Gen.offset] in Ho. split; [exact Ho |].
    cbn [Gen.stepBlock]. rewrite Ho. reflexivity.
Qed.

Lemma generated_decoder_cursors_witness :
  Gen.generateEventDecoder exampleTypes 1 newGameArgs
  = Some [ Gen.BIndexed "game_number" Gen.TU128; Gen.BIndexed "player" Gen.TH160;
           Gen.BData "min_number" Gen.CReadU16; Gen.BData "max_number" Gen.CReadU16 ]
  /\ Gen.runBlocks (hexToBytes "0x01006400") exampleTopics (Gen.mkCtx [] 0 1)
       [ Gen.BIndexed "game_number" Gen.TU128; Gen.BIndexed "player" Gen.TH160 ]
     = Ok (Gen.mkCtx [ ("game_number", VBig 1);
                       ("player", VStr "0xe75cbd47620dbb2053cf2a98d06840f06baaf141") ]
                     0 3)
  /\ Gen.offset (Gen.mkCtx [ ("game_number", VBig 1);
                             ("player", VStr "0xe75cbd47620dbb2053cf2a98d06840f06baaf141") ]
                           0 3) = 0%nat.
Proof.
  split; [reflexivity |]. split; [reflexivity |].
  apply (proj2 (proj2 (proj2 (proj2 (proj2 (proj2
           (generated_decoder_cursors exampleTypes 1 newGameArgs _ eq_refl)))))))
    with (pre := [ Gen.BIndexed "game_number" Gen.TU128;
                   Gen.BIndexed "player" Gen.TH160 ])
         (label := "min_number") (code := Gen.CReadU16)
         (post := [Gen.BData "max_number" Gen.CReadU16])
         (data := hexToBytes "0x01006400") (topics := exampleTopics);
    reflexivity.
Defined.

(** ** Unknown signatures (C8) *)

Section UnknownSignature.

Lemma normalizeSignature_key (k : string) : normalKey k -> normalizeSignature k = k.
Proof.
  intros [Hp Hl]. unfold normalizeSignature, Gen.strip0x. rewrite Hp. exact Hl.
Qed.

Lemma generated_unknown (entries : list Gen.Entry) (s d : string) (t : list string) :
  Forall (fun e => normalKey (Gen.sig e)) entries ->
  ~ In (normalizeSignature s) (map Gen.sig entries) ->
  Gen.decodeEvent entries s d t = Ok None.
Proof.
  induction entries as [| e rest IH]; intros Hkeys Hnot; [reflexivity |].
  cbn [Gen.decodeEvent]. inversion Hkeys as [| ? ? Hk Hrest]; subst.
  destruct (String.eqb_spec s (Gen.sig e)) as [-> | _].
  - exfalso. apply Hnot. left. symmetry. apply normalizeSignature_key. exact Hk.
  - apply IH; [exact Hrest |]. intros Hin. apply Hnot. right. exact Hin.
Qed.

Lemma interpreter_unknown (self : Interp.SubsquidInkDecoder) (fuel : nat)
      (d : string) (topics : list string) :
  (forall k e, Interp.eventCache self !! k = Some e -> normalKey k) ->
  (forall t0, head topics = Some t0 ->
              Interp.eventCache self !! normalizeSignature t0 = None) ->
  Interp.decodeEvent self fuel d topics = Ok None.
Proof.
  intros Hkeys Hnone. unfold Interp.decodeEvent.
  destruct topics as [| t0 rest]; [reflexivity |].
  specialize (Hnone t0 eq_refl).
  destruct (Interp.eventCache self !! Gen.strip0x t0) as [e |] eqn:E;
    [| reflexivity].
  exfalso. destruct (Hkeys _ _ E) as [_ Hl].
  unfold normalizeSignature in Hnone. rewrite Hl in Hnone. congruence.
Qed.

Lemma generated_null_iff (entries : list Gen.Entry) (s d : string) (t : list string) :
  Gen.decodeEvent entries s d t = Ok None <-> ~ In s (map Gen.sig entries).
Proof.
  induction entries as [| e rest IH]; cbn [Gen.decodeEvent map In].
  - split; [intros _ [] | reflexivity].
  - destruct (String.eqb_spec s (Gen.sig e)) as [-> | Hne].
    + split.
      * destruct (Gen.decodeFn (Gen.blocks e) d t); cbn [bind]; discriminate.
      * intros Hnot. exfalso. apply Hnot. left. reflexivity.
    + rewrite IH. split.
      * intros Hnot [E | Hin]; [apply Hne; symmetry; exact E | exact (Hnot Hin)].
      * intros Hnot Hin. apply Hnot. right. exact Hin.
Qed.

Lemma catch_never_throws {A} (r : Res (option A)) (e : JsError) :
  Interp.catch r <> Throw e.
Proof. destruct r; discriminate. Qed.

End UnknownSignature.

(** C8, as stated, fails when a table key is not in normal form.  Neither
    loader lowercases [signature_topic]: for an event declared with the
    topic 0xABCD the key is "ABCD", the normal form "abcd" of the signature
    is no key of the table, and both the interpreter and the generated
    [decodeEvent] return the event, not [null]. *)
Lemma uppercase_key_counterexample :
  Interp.loadMetadata ∅ upperDocument = Ok upperDecoder
  /\ normalizeSignature "0xABCD" = "abcd"
  /\ Interp.eventCache upperDecoder !! normalizeSignature "0xABCD" = None
  /\ Interp.decodeEvent upperDecoder 1 "0x" ["0xABCD"]
     = Ok (Some (Interp.mkInkEvent "ping" [] ["0xABCD"]))
  /\ Gen.generateEventsTs 1 upperDocument
     = Some [Gen.mkEntry "ABCD" "Ping" "ping" []]
  /\ ~ In (normalizeSignature "ABCD")
          (map Gen.sig [Gen.mkEntry "ABCD" "Ping" "ping" []])
  /\ Gen.decodeEvent [Gen.mkEntry "ABCD" "Ping" "ping" []] "ABCD" "0x" []
     = Ok (Some (mkEvent "ping" [])).
Proof.
  repeat split; try reflexivity.
  vm_compute. intros [E | []]. discriminate.
Qed.

(** C8 (amended): [decodeEvent] returns [null] without raising for a
    signature that equals no key of the event table as the decoder compares
    it, whatever the data and topics.  The generated [decodeEvent] of
    guess_the_number returns [null] for every signature whose normal form
    (0x stripped, lowercased) is none of its eight keys.  A generated
    [decodeEvent] compares its signature argument as it is with the keys
    and returns [null] exactly when it equals none.  The interpreter
    strips a leading 0x from [topics[0]], without lowercasing, returns
    [null] when the result is no key of its cache, and never raises.  The
    keys are the [signature_topic] strings with a leading 0x stripped, in
    the case they are written in; when they all are in normal form, a
    signature whose normal form is no key gives [null] in both decoders. *)
Theorem unknown_signature_returns_null :
  (forall (s d : string) (t : list string),
      ~ In (normalizeSignature s) (map fst Events.EVENT_SIGNATURES) ->
      Events.decodeEvent s d t = Ok None)
  /\ (forall (entries : list Gen.Entry) (s d : string) (t : list string),
         Gen.decodeEvent entries s d t = Ok None
         <-> ~ In s (map Gen.sig entries))
  /\ (forall (self : Interp.SubsquidInkDecoder) (fuel : nat) (d : string)
             (topics : list string),
         (forall t0, head topics = Some t0 ->
                     Interp.eventCache self !! Gen.strip0x t0 = None) ->
         Interp.decodeEvent self fuel d topics = Ok None)
  /\ (forall (self : Interp.SubsquidInkDecoder) (fuel : nat) (d : string)
             (topics : list string) (e : JsError),
         Interp.decodeEvent self fuel d topics <> Throw e)
  /\ (forall (entries : list Gen.Entry) (s d : string) (t : list string),
         Forall (fun e => normalKey (Gen.sig e)) entries ->
         ~ In (normalizeSignature s) (map Gen.sig entries) ->
         Gen.decodeEvent entries s d t = Ok None)
  /\ (forall (self : Interp.SubsquidInkDecoder) (fuel : nat) (d : string)
             (topics : list string),
         (forall k e, Interp.eventCache self !! k = Some e -> normalKey k) ->
         (forall t0, head topics = Some t0 ->
                     Interp.eventCache self !! normalizeSignature t0 = None) ->
         Interp.decodeEvent self fuel d topics = Ok None).
Proof.
  split; [| split; [| split; [| split; [| split]]]].
  - intros s d t Hnot. unfold Events.decodeEvent.
    repeat match goal with
           | |- context [String.eqb s ?k] =>
               destruct (String.eqb_spec s k) as [-> | _];
               [exfalso; apply Hnot; vm_compute; tauto |]
           end.
    reflexivity.
  - apply generated_null_iff.
  - intros self fuel d topics Hnone. unfold Interp.decodeEvent.
    destruct topics as [| t0 rest]; [reflexivity |].
    rewrite (Hnone t0 eq_refl). reflexivity.
  - intros self fuel d topics e. unfold Interp.decodeEvent.
    apply catch_never_throws.
  - apply generated_unknown.
  - apply interpreter_unknown.
Qed.

Lemma unknown_signature_returns_null_witness :
  ~ In (normalizeSignature "0xDEADBEEF") (map fst Events.EVENT_SIGNATURES)
  /\ Events.decodeEvent "0xDEADBEEF" "0x01006400" exampleTopics = Ok None
  /\ Gen.decodeEvent newGameEntries "0xDEADBEEF" "0x01006400" exampleTopics
     = Ok None
  /\ Interp.decodeEvent
       (Interp.mkDecoder {[ "bfe3e4de" := guessMade ]} ∅ ∅) 1
       "0x01006400" ["0xDEADBEEF"]
     = Ok None
  /\ Gen.decodeEvent [Gen.mkEntry "ABCD" "Ping" "ping" []] "abcd" "0x" []
     = Ok None
  /\ Interp.decodeEvent upperDecoder 1 "0x" ["0xabcd"] = Ok None.
Proof.
  assert (H : ~ In (normalizeSignature "0xDEADBEEF")
                   (map fst Events.EVENT_SIGNATURES)).
  { vm_compute. intuition discriminate. }
  destruct unknown_signature_returns_null
    as (Hconcrete & Hgenerated & Hinterp & _).
  split; [exact H |].
  split; [apply (Hconcrete "0xDEADBEEF" "0x01006400" exampleTopics H) |].
  split.
  { apply (Hgenerated newGameEntries "0xDEADBEEF" "0x01006400" exampleTopics).
    vm_compute. intuition discriminate. }
  split.
  { apply Hinterp. intros t0 Ht. injection Ht as <-. cbn [Interp.eventCache].
    apply lookup_singleton_ne. vm_compute. discriminate. }
  split.
  { apply Hgenerated. vm_compute. intuition discriminate. }
  apply Hinterp. intros t0 Ht. injection Ht as <-. vm_compute. reflexivity.
Defined.

(** ** Determinism (C9) *)

Section Determinism.

Import Gen.

Lemma mapMi_mono {A B} (f g : nat -> A -> option B) (l : list A) :
  (forall i x y, In x l -> f i x = Some y -> g i x = Some y) ->
  forall (k : nat) (out : list B),
    mapMi f l k = Some out -> mapMi g l k = Some out.
Proof.
  induction l as [| x r IH]; intros Hfg k out H; [exact H |].
  cbn [mapMi] in *.
  destruct (f k x) as [y |] eqn:Ef; [| discriminate].
  rewrite (Hfg k x y (or_introl eq_refl) Ef).
  destruct (mapMi f r (S k)) as [ys |] eqn:Er; [| discriminate].
  rewrite (IH (fun i x' y' Hin => Hfg i x' y' (or_intror Hin)) _ _ Er).
  exact H.
Qed.

Lemma option_map_Some {A B} (f : A -> B) (o : option A) (y : B) :
  option_map f o = Some y -> exists x, o = Some x /\ y = f x.
Proof. destruct o; cbn; intros H; [injection H as <-; eauto | discriminate]. Qed.

Variable types : list TypeEntry.

(** More depth never changes what the generator emits. *)
Lemma generateDecodeCall_mono :
  forall (n m : nat) (typeId : Z) (offsetVar : string) (code : Code),
    (n <= m)%nat ->
    generateDecodeCall types n typeId offsetVar = Some code ->
    generateDecodeCall types m typeId offsetVar = Some code.
Proof.
  induction n as [| n IH]; intros m typeId offsetVar code Hle H; [discriminate |].
  destruct m as [| m]; [lia |].
  assert (Hnm : (n <= m)%nat) by lia.
  cbn [generateDecodeCall] in *.
  destruct (findType types typeId) as [t |]; [| exact H].
  destruct (t_def t) as [p | fields | variants | elem | len elem | elems |];
    try exact H.
  - (* composite *)
    apply option_map_Some in H as (l & Hl & ->).
    erewrite mapMi_mono; [reflexivity | | exact Hl].
    intros i f y _ Hy. apply option_map_Some in Hy as (c & Hc & ->).
    rewrite (IH _ _ _ _ Hnm Hc). reflexivity.
  - (* variant *)
    destruct (forallb isUnit variants); [exact H |].
    apply option_map_Some in H as (l & Hl & ->).
    erewrite mapMi_mono; [reflexivity | | exact Hl].
    intros i v y _ Hy. apply option_map_Some in Hy as (c & Hc & ->).
    destruct (isUnit v); [rewrite Hc; reflexivity |].
    destruct (hasNamedFields (v_fields v)).
    + apply option_map_Some in Hc as (fs & Hfs & ->).
      erewrite mapMi_mono; [reflexivity | | exact Hfs].
      intros j f z _ Hz. apply option_map_Some in Hz as (c & Hc & ->).
      rewrite (IH _ _ _ _ Hnm Hc). reflexivity.
    + apply option_map_Some in Hc as (fs & Hfs & ->).
      erewrite mapMi_mono; [reflexivity | | exact Hfs].
      intros j f z _ Hz. apply (IH _ _ _ _ Hnm Hz).
  - (* sequence *)
    destruct (elem =? 5); [exact H |].
    apply option_map_Some in H as (c & Hc & ->).
    rewrite (IH _ _ _ _ Hnm Hc). reflexivity.
  - (* array *)
    destruct (elem =? 0); [exact H |].
    destruct (len <=? 4).
    + apply option_map_Some in H as (l & Hl & ->).
      erewrite mapMi_mono; [reflexivity | | exact Hl].
      intros j u z _ Hz. apply (IH _ _ _ _ Hnm Hz).
    + apply option_map_Some in H as (c & Hc & ->).
      rewrite (IH _ _ _ _ Hnm Hc). reflexivity.
Qed.

Lemma generateEventDecoder_mono (n m : nat) (args : list ArgSpec)
      (bs : list Block) :
  (n <= m)%nat ->
  generateEventDecoder types n args = Some bs ->
  generateEventDecoder types m args = Some bs.
Proof.
  intros Hle H. unfold generateEventDecoder in *.
  eapply mapMi_mono; [| exact H].
  intros i arg blk _ Hb. unfold generateBlock in *.
  destruct (a_indexed arg); [exact Hb |].
  apply option_map_Some in Hb as (c & Hc & ->).
  rewrite (generateDecodeCall_mono _ _ _ _ _ Hle Hc). reflexivity.
Qed.

End Determinism.

Lemma generateEventsTs_mono (n m : nat) (metadata : Document)
      (entries : list Gen.Entry) :
  (n <= m)%nat ->
  Gen.generateEventsTs n metadata = Some entries ->
  Gen.generateEventsTs m metadata = Some entries.
Proof.
  intros Hle H. unfold Gen.generateEventsTs in *.
  eapply mapMi_mono; [| exact H].
  intros i e y _ Hy. unfold Gen.generateEntry in *.
  apply option_map_Some in Hy as (bs & Hbs & ->).
  rewrite (generateEventDecoder_mono _ _ _ _ _ Hle Hbs). reflexivity.
Qed.

(** C9: decoding is a function of [(signatureHex, dataHex, topics)]: two
    invocations of the guess_the_number [decodeEvent] on the same input
    return the same result, and so do the [decodeEvent] of any two modules
    generated from one metadata document, at whatever recursion depths the
    generator completed. *)
Theorem decodeEvent_deterministic :
  (forall (s d : string) (t : list string)
          (r1 r2 : Res (option DecodedEvent)),
      Events.decodeEvent s d t = r1 -> Events.decodeEvent s d t = r2 -> r1 = r2)
  /\ (forall (metadata : Document) (n m : nat) (g1 g2 : list Gen.Entry),
         Gen.generateEventsTs n metadata = Some g1 ->
         Gen.generateEventsTs m metadata = Some g2 ->
         g1 = g2
         /\ forall (s d : string) (t : list string),
              Gen.decodeEvent g1 s d t = Gen.decodeEvent g2 s d t).
Proof.
  split.
  - intros s d t r1 r2 <- <-. reflexivity.
  - intros metadata n m g1 g2 H1 H2.
    assert (E : g1 = g2).
    { apply (generateEventsTs_mono n (Nat.max n m)) in H1; [| lia].
      apply (generateEventsTs_mono m (Nat.max n m)) in H2; [| lia].
      congruence. }
    split; [exact E |]. intros s d t. rewrite E. reflexivity.
Qed.

Lemma decodeEvent_deterministic_witness :
  Gen.generateEventsTs 1 newGameDocument = Some newGameEntries
  /\ Gen.generateEventsTs 7 newGameDocument = Some newGameEntries
  /\ Gen.decodeEvent newGameEntries
       "c8a7c5d86cdaf43555273e08a00e4cdaa93cf22046685231d5eb1b6c0d29fa92"
       "0x01006400" exampleTopics
     = Gen.decodeEvent newGameEntries
       "c8a7c5d86cdaf43555273e08a00e4cdaa93cf22046685231d5eb1b6c0d29fa92"
       "0x01006400" exampleTopics.
Proof.
  split; [reflexivity |]. split; [reflexivity |].
  apply (proj2 decodeEvent_deterministic newGameDocument 1%nat 7%nat
               newGameEntries newGameEntries eq_refl eq_refl).
Defined.

(** ** The version registry (C4) *)

Section RegistryLemmas.

Import Registry.

Lemma rangeMatches_inRange (h : Z) (e : VersionEntry) :
  0 <= h -> to e <> Some 0 -> rangeMatches h e = inRange h e.
Proof.
  intros Hh Hto. unfold rangeMatches, inRange, falsy.
  f_equal.
  - destruct (from e) as [f |]; [| reflexivity]. cbn [default].
    destruct (Z.eqb_spec f 0) as [-> | _]; [| reflexivity].
    symmetry. apply Z.leb_le. exact Hh.
  - destruct (to e) as [t |]; [| reflexivity]. cbn [default].
    destruct (Z.eqb_spec t 0) as [-> | _]; [congruence | reflexivity].
Qed.

(** After the sort the first candidate is the first of those with the
    greatest [from]. *)
Lemma sortDesc_head (l : list VersionEntry) :
  l <> [] ->
  exists before e after rest,
    l = (before ++ e :: after)%list
    /\ sortDesc l = e :: rest
    /\ (forall x, In x before -> fromOr0 x < fromOr0 e)
    /\ (forall x, In x after -> fromOr0 x <= fromOr0 e).
Proof.
  induction l as [| a r IH]; intros Hne; [congruence |].
  destruct r as [| b r'].
  - exists [], a, [], []. cbn. repeat split; intros x [].
  - destruct IH as (before & e & after & rest & Hl & Hs & Hb & Ha);
      [discriminate |].
    cbn [sortDesc fold_right] in *. rewrite Hs. cbn [insertDesc].
    destruct (Z.leb_spec (fromOr0 e) (fromOr0 a)) as [Hle | Hgt].
    + exists [], a, (b :: r'), (e :: rest).
      split; [reflexivity |]. split; [reflexivity |].
      split; [intros x [] |].
      intros x Hx. rewrite Hl in Hx. apply in_app_or in Hx as [Hx | [<- | Hx]].
      * specialize (Hb x Hx). lia.
      * exact Hle.
      * specialize (Ha x Hx). lia.
    + exists (a :: before), e, after, (insertDesc a rest).
      split; [rewrite Hl; reflexivity |]. split; [reflexivity |].
      split; [| exact Ha].
      intros x [<- | Hx]; [lia | apply Hb; exact Hx].
Qed.

Lemma existsb_version (e : VersionEntry) (registry : list VersionEntry) :
  In e registry ->
  existsb (String.eqb (version e)) (map version registry) = true.
Proof.
  intros Hin. apply existsb_exists. exists (version e).
  split; [apply in_map; exact Hin | apply String.eqb_refl].
Qed.

End RegistryLemmas.

(** C4, as stated, fails: the address is compared as given, so the
    upper-case spelling of the registered address finds no decoder although
    its lowercase form is registered. *)
Lemma resolve_no_lowercase_counterexample :
  List.filter (addressMatchesNormalized "0xE75CBD47620DBB2053CF2A98D06840F06BAAF141")
              Registry.registry
  <> []
  /\ Registry.resolveDecoder Registry.registry
       "0xE75CBD47620DBB2053CF2A98D06840F06BAAF141" 1934744
     = Throw (Registry.noDecoder "0xE75CBD47620DBB2053CF2A98D06840F06BAAF141").
Proof.
  split; [vm_compute; discriminate | reflexivity].
Qed.

(** C4 (amended): [resolveDecoder] keeps the entries whose address list is
    absent, empty or contains the address exactly as given (no lowercasing);
    among those, for a non-negative block height and [to] bounds other than
    0, it keeps the entries whose half-open range contains the height; when
    none is in range it falls back to the address-filtered entries; it
    returns the version of the first candidate among those with the
    greatest [from] (absent counted as 0); and it fails, with "No decoder
    version found", exactly when the address-filtered list is empty. *)
Theorem resolveDecoder_selection
        (registry : list Registry.VersionEntry) (address : string) (h : Z) :
  0 <= h ->
  Forall (fun e => Registry.to e <> Some 0) registry ->
  let byAddress := List.filter (Registry.addressMatches address) registry in
  let ranged := List.filter (inRange h) byAddress in
  let candidates := match ranged with [] => byAddress | _ => ranged end in
  (forall e, Registry.addressMatches address e = true
             <-> (Registry.addresses e = None \/ Registry.addresses e = Some []
                  \/ exists l, Registry.addresses e = Some l /\ In address l))
  /\ (byAddress = []
      <-> Registry.resolveDecoder registry address h
          = Throw (Registry.noDecoder address))
  /\ (byAddress <> [] ->
      exists before e after,
        candidates = (before ++ e :: after)%list
        /\ (forall x, In x before -> Registry.fromOr0 x < Registry.fromOr0 e)
        /\ (forall x, In x after -> Registry.fromOr0 x <= Registry.fromOr0 e)
        /\ Registry.resolveDecoder registry address h = Ok (Registry.version e)).
Proof.
  intros Hh Hto byAddress ranged candidates.
  assert (Hsub : forall e, In e byAddress -> In e registry).
  { intros e He. apply filter_In in He. tauto. }
  assert (Hranged : List.filter (Registry.rangeMatches h) byAddress = ranged).
  { apply filter_ext_in. intros e He. apply rangeMatches_inRange; [exact Hh |].
    rewrite Forall_forall in Hto. apply Hto. apply list_elem_of_In.
    apply Hsub. exact He. }
  assert (Hcand : (if (0 <? length ranged)%nat then ranged else byAddress)
                  = candidates).
  { subst candidates. destruct ranged; reflexivity. }
  assert (Hres : Registry.resolveDecoder registry address h
                 = match Registry.sortDesc candidates with
                   | [] => Throw (Registry.noDecoder address)
                   | entry :: _ =>
                       if existsb (String.eqb (Registry.version entry))
                                  (map Registry.version registry)
                       then Ok (Registry.version entry)
                       else Throw (Error ("Version not found: "
                                          ++ Registry.version entry))
                   end).
  { unfold Registry.resolveDecoder. fold byAddress. rewrite Hranged, Hcand.
    reflexivity. }
  assert (Hempty : byAddress = [] <-> candidates = []).
  { subst candidates. split.
    - intros E. subst ranged. rewrite E. reflexivity.
    - destruct ranged eqn:Er; [tauto | discriminate]. }
  assert (Hin : forall e, In e candidates -> In e registry).
  { intros e He. apply Hsub. subst candidates.
    destruct ranged eqn:Er; [exact He |].
    assert (In e ranged) as Hr by (rewrite Er; exact He).
    subst ranged. apply filter_In in Hr. tauto. }
  assert (Hpick : candidates <> [] ->
            exists before e after,
              candidates = (before ++ e :: after)%list
              /\ (forall x, In x before -> Registry.fromOr0 x < Registry.fromOr0 e)
              /\ (forall x, In x after -> Registry.fromOr0 x <= Registry.fromOr0 e)
              /\ Registry.resolveDecoder registry address h
                 = Ok (Registry.version e)).
  { intros Hne.
    destruct (sortDesc_head candidates Hne)
      as (before & e & after & rest & Hl & Hs & Hb & Ha).
    exists before, e, after. repeat split; try assumption.
    rewrite Hres, Hs, existsb_version; [reflexivity |].
    apply Hin. rewrite Hl. apply in_or_app. right. left. reflexivity. }
  split; [| split].
  - intros e. unfold Registry.addressMatches.
    destruct (Registry.addresses e) as [[| a l] |].
    + intuition.
    + split.
      * intros H. right. right. exists (a :: l). split; [reflexivity |].
        apply existsb_exists in H as (x & Hx & Heq).
        apply String.eqb_eq in Heq. subst. exact Hx.
      * intros [H | [H | (l' & H & Hl')]]; try discriminate.
        injection H as <-. apply existsb_exists. exists address.
        split; [exact Hl' | apply String.eqb_refl].
    + intuition.
  - split.
    + intros E. apply Hempty in E. rewrite Hres, E. reflexivity.
    + intros Hthrow.
      destruct (list_eq_nil_dec byAddress) as [E | Hne]; [exact E |].
      exfalso. destruct (Hpick (fun E => Hne (proj2 Hempty E)))
        as (? & ? & ? & _ & _ & _ & Hok).
      congruence.
  - intros Hne. apply Hpick. intros E. apply Hne. apply Hempty. exact E.
Qed.

Lemma resolveDecoder_selection_witness :
  0 <= 1934743
  /\ Forall (fun e => Registry.to e <> Some 0) Registry.registry
  /\ Registry.resolveDecoder Registry.registry
       "0xe75cbd47620dbb2053cf2a98d06840f06baaf141" 1934743
     <> Throw (Registry.noDecoder "0xe75cbd47620dbb2053cf2a98d06840f06baaf141")
  /\ Registry.resolveDecoder Registry.registry
       "0xe75cbd47620dbb2053cf2a98d06840f06baaf141" 1934744 = Ok "v0.1.0"
  /\ Registry.resolveDecoder Registry.registry
       "0xe75cbd47620dbb2053cf2a98d06840f06baaf141" 9999999 = Ok "v0.1.0"
  /\ Registry.resolveDecoder Registry.registry
       "0xe75cbd47620dbb2053cf2a98d06840f06baaf141" 1934743 = Ok "v0.1.0".
Proof.
  assert (H0 : 0 <= 1934743) by lia.
  assert (H1 : Forall (fun e => Registry.to e <> Some 0) Registry.registry).
  { repeat constructor. discriminate. }
  split; [exact H0 |]. split; [exact H1 |].
  split; [| repeat split; reflexivity].
  intros Hthrow.
  apply (proj1 (proj2 (resolveDecoder_selection Registry.registry
                         "0xe75cbd47620dbb2053cf2a98d06840f06baaf141"
                         1934743 H0 H1))) in Hthrow.
  discriminate Hthrow.
Defined.

(** ** Metadata validation (C7) *)

Section Validation.

Import Raw.

Lemma get_field (v : Json) (key : string) :
  v <> JNull -> get v key = Ok (field v key).
Proof. destruct v; intros H; try reflexivity. congruence. Qed.

Lemma someSignature_existsb (es : list Json) :
  ~ In JNull es -> someSignature es = Ok (existsb carriesSignature es).
Proof.
  induction es as [| e r IH]; intros Hnn; [reflexivity |].
  cbn [someSignature existsb].
  rewrite get_field by (intros ->; apply Hnn; left; reflexivity).
  cbn [bind]. unfold carriesSignature at 1.
  destruct (truthy (field e "signature_topic")); [reflexivity |].
  apply IH. intros Hin. apply Hnn. right. exact Hin.
Qed.

Lemma events_expr (spec : option Json) :
  (if truthy spec then get (default JNull spec) "events" else Ok None)
  = Ok (specEvents spec).
Proof.
  destruct spec as [[| [|] | [| q | q] | [| c r] | l | ms] |]; reflexivity.
Qed.

(** The events test of [validateMetadata] amounts to [spec.events] being a
    list. *)
Lemma events_test (spec : option Json) :
  negb (truthy spec) || negb (truthy (specEvents spec))
  || negb (isArray (specEvents spec))
  = negb (isArray (specEvents spec)).
Proof.
  destruct spec as [[| [|] | [| q | q] | [| c r] | l | ms] |]; try reflexivity.
  cbn [specEvents field truthy negb orb].
  destruct (member ms "events") as [[| [|] | [| q | q] | [| c r] | l | ms'] |];
    reflexivity.
Qed.

Lemma types_test (types : option Json) :
  negb (truthy types) || negb (isArray types) = negb (isArray types).
Proof.
  destruct types as [[| [|] | [| q | q] | [| c r] | l | ms] |]; reflexivity.
Qed.

Lemma isArray_inv (v : option Json) :
  isArray v = true -> exists l, v = Some (JArr l).
Proof.
  destruct v as [[| | | | l |] |]; try discriminate. eauto.
Qed.

Lemma isArray_false (v : option Json) :
  isArray v = false -> match v with Some (JArr l) => Some l | _ => None end = None.
Proof. destruct v as [[| | | | l |] |]; try discriminate; reflexivity. Qed.

Lemma eventsOf_obj (ms : list (string * Json)) :
  eventsOf (JObj ms)
  = match specEvents (member ms "spec") with
    | Some (JArr l) => Some l
    | _ => None
    end.
Proof.
  unfold eventsOf, specEvents. cbn [field].
  destruct (member ms "spec"); reflexivity.
Qed.

Lemma validate_cases (doc : Json) :
  (forall es, eventsOf doc = Some es -> ~ In JNull es) ->
  (invalidMetadata doc = true
   /\ exists msg, validateMetadata doc = Throw (Error msg))
  \/ (invalidMetadata doc = false /\ validateMetadata doc = Ok tt).
Proof.
  intros Hnn.
  destruct doc as [| [|] | [| q | q] | [| c r] | l | ms];
    try (left; split; [reflexivity | eexists; reflexivity]).
  unfold validateMetadata, invalidMetadata, typesOf.
  rewrite eventsOf_obj in *.
  cbn [truthy negb get bind field].
  destruct (isSix (member ms "version"));
    [| left; split; [reflexivity | eexists; reflexivity]].
  cbn [negb orb].
  rewrite events_expr. cbn [bind]. rewrite events_test.
  destruct (isArray (specEvents (member ms "spec"))) eqn:Earr;
    cbn [negb].
  2: { left. rewrite (isArray_false _ Earr).
       split; [reflexivity | eexists; reflexivity]. }
  apply isArray_inv in Earr as (es & Ees). rewrite Ees in *.
  rewrite types_test.
  destruct (isArray (member ms "types")) eqn:Etys; cbn [negb].
  2: { left. rewrite (isArray_false _ Etys).
       split; [reflexivity | eexists; reflexivity]. }
  apply isArray_inv in Etys as (ts & Ets). rewrite Ets.
  cbn [items orb]. rewrite (someSignature_existsb es (Hnn es eq_refl)).
  cbn [bind].
  destruct (existsb carriesSignature es).
  - right. split; reflexivity.
  - left. split; [reflexivity | eexists; reflexivity].
Qed.

Lemma forEach_map {A} (f : Json -> Res A) (g : Json -> A) (l : list Json) :
  (forall x, In x l -> f x = Ok (g x)) ->
  forEach (JArr l) f = Ok (map g l).
Proof.
  cbn [forEach]. induction l as [| x r IH]; intros H; [reflexivity |].
  cbn [fold_right map]. rewrite (H x (or_introl eq_refl)). cbn [bind].
  rewrite IH by (intros y Hy; apply H; right; exact Hy). reflexivity.
Qed.

Lemma load_tables (doc : Json) (es ts : list Json) :
  eventsOf doc = Some es ->
  typesOf doc = Some ts ->
  (forall e, In e es -> exists s, field e "signature_topic" = Some (JStr s)) ->
  ~ In JNull ts ->
  loadMetadata doc
  = Ok (mkTables (map (fun e => (eventKey e, e)) es)
                 (map (fun t => (field t "id", t)) ts)).
Proof.
  intros Hes Hts Hsig Hnn.
  destruct doc as [| | | | | ms]; try discriminate.
  unfold eventsOf, typesOf in *. cbn [field] in *.
  unfold loadMetadata. cbn [get bind].
  destruct (member ms "spec") as [sp |]; [| discriminate].
  destruct sp as [| | | | | sm]; try discriminate. cbn [field get] in *.
  destruct (member sm "events") as [[| | | | l |] |]; try discriminate.
  injection Hes as ->.
  destruct (member ms "types") as [[| | | | l |] |]; try discriminate.
  injection Hts as ->.
  cbn [bind orEmpty truthy default]. unfold Datatypes.id.
  rewrite (forEach_map eventSet (fun e => (eventKey e, e))).
  2: { intros e He. destruct (Hsig e He) as (s & Hs). unfold eventSet, eventKey.
       rewrite get_field by (intros ->; discriminate). rewrite Hs. reflexivity. }
  cbn [bind].
  rewrite (forEach_map typeSet (fun t => (field t "id", t))).
  2: { intros t Ht. unfold typeSet.
       rewrite get_field by (intros ->; apply Hnn; exact Ht). reflexivity. }
  reflexivity.
Qed.

End Validation.

(** C7, as stated, fails for the run-time loader: [loadMetadata] accepts a
    document of version 5, and one with neither [spec] nor [types]. *)
Lemma loadMetadata_unchecked_counterexample :
  invalidMetadata versionFive = true
  /\ Raw.loadMetadata versionFive
     = Ok (Raw.mkTables
             [ ("c8a7", Raw.JObj [ ("label", Raw.JStr "NewGame");
                                   ("signature_topic", Raw.JStr "0xc8a7") ]) ]
             [ (Some (Raw.JNum 0), Raw.JObj [ ("id", Raw.JNum 0) ]) ])
  /\ invalidMetadata (Raw.JObj []) = true
  /\ Raw.loadMetadata (Raw.JObj []) = Ok (Raw.mkTables [] []).
Proof. repeat split; reflexivity. Qed.

(** C7 (amended): for a document whose [spec.events], when a list, holds no
    [null], the generator's [validateMetadata] raises one of its errors
    exactly when the version field is not the number 6, [spec.events] is
    missing or not a list, [types] is missing or not a list, or no event
    has a truthy [signature_topic], and returns normally otherwise.  The
    run-time [loadMetadata] makes none of these tests; on a document whose
    events all have a string [signature_topic] and whose [types] hold no
    [null] it builds the event table keyed by the 0x-stripped signature
    and the type table keyed by [id]. *)
Theorem validateMetadata_conditions (doc : Raw.Json) :
  (forall es, eventsOf doc = Some es -> ~ In Raw.JNull es) ->
  ((exists msg, Raw.validateMetadata doc = Throw (Error msg))
   <-> invalidMetadata doc = true)
  /\ (Raw.validateMetadata doc = Ok tt <-> invalidMetadata doc = false)
  /\ (forall es ts,
         eventsOf doc = Some es ->
         typesOf doc = Some ts ->
         (forall e, In e es ->
                    exists s, field e "signature_topic" = Some (Raw.JStr s)) ->
         ~ In Raw.JNull ts ->
         Raw.loadMetadata doc
         = Ok (Raw.mkTables (map (fun e => (eventKey e, e)) es)
                            (map (fun t => (field t "id", t)) ts))).
Proof.
  intros Hnn. split; [| split].
  - destruct (validate_cases doc Hnn) as [[Hi (msg & Hv)] | [Hi Hv]].
    + split; [intros _; exact Hi | intros _; exists msg; exact Hv].
    + split.
      * intros (msg & Hm). congruence.
      * intros Hc. congruence.
  - destruct (validate_cases doc Hnn) as [[Hi (msg & Hv)] | [Hi Hv]].
    + split; intros Hc; congruence.
    + split; [intros _; exact Hi | intros _; exact Hv].
  - intros es ts. apply load_tables.
Qed.

Lemma validateMetadata_conditions_witness :
  (forall es, eventsOf versionSix = Some es -> ~ In Raw.JNull es)
  /\ invalidMetadata versionSix = false
  /\ Raw.validateMetadata versionSix = Ok tt
  /\ invalidMetadata versionFive = true
  /\ exists msg, Raw.validateMetadata versionFive = Throw (Error msg).
Proof.
  assert (H6 : forall es, eventsOf versionSix = Some es -> ~ In Raw.JNull es).
  { intros es H. injection H as <-. intros [Hn | []]. discriminate Hn. }
  assert (H5 : forall es, eventsOf versionFive = Some es -> ~ In Raw.JNull es).
  { intros es H. injection H as <-. intros [Hn | []]. discriminate Hn. }
  split; [exact H6 |]. split; [reflexivity |].
  split.
  - apply (proj1 (proj2 (validateMetadata_conditions versionSix H6))). reflexivity.
  - split; [reflexivity |].
    apply (proj1 (validateMetadata_conditions versionFive H5)). reflexivity.
Defined.

(** ** The generator reproduces events.ts *)

Lemma bind_assoc {A B C} (r : Res A) (f : A -> Res B) (g : B -> Res C) :
  bind (bind r f) g = bind r (fun x => bind (f x) g).
Proof. destruct r; reflexivity. Qed.

(** Both sides are brought to the form [bind first rest] and the first
    operation is decided, until they coincide. *)
Ltac norm_binds :=
  repeat progress
    (cbn [bind assert fst snd value offset Nat.leb Nat.ltb Nat.add
          readU8 readU16 readU32
          Gen.result Gen.offset Gen.topicIndex
          Gen.runBlocks Gen.stepBlock Gen.eval Events.ret];
     rewrite ?bind_assoc).

Ltac run_binds :=
  repeat (norm_binds;
          try reflexivity;
          match goal with
          | |- bind (assert ?c _) _ = _ => destruct c
          | |- bind (readU128 ?buf ?o) _ = _ =>
              destruct (readU128 buf o) as [[? ?] | |]
          | |- bind (readCompactU32 ?buf ?o) _ = _ =>
              destruct (readCompactU32 buf o) as [[? ?] | |]
          end).

Lemma unitName_clue (idx : option byte) :
  Gen.unitName ["More"; "Less"; "Found"] idx = Events.clueName idx.
Proof. destruct idx as [x |]; [destruct x |]; reflexivity. Qed.

Lemma generator_reproduces_events_ts :
  exists entries,
    Gen.generateEventsTs 3 guessTheNumber = Some entries
    /\ map (fun e => (Gen.sig e, Gen.snake e)) entries = Events.EVENT_SIGNATURES
    /\ forall (s d : string) (t : list string),
         Gen.decodeEvent entries s d t = Events.decodeEvent s d t.
Proof.
  eexists. split; [vm_compute; reflexivity |]. split; [reflexivity |].
  intros s d t. unfold Events.decodeEvent.
  cbn [Gen.decodeEvent Gen.sig Gen.snake Gen.blocks].
  repeat match goal with
         | |- context [String.eqb s ?k] => destruct (String.eqb s k)
         end;
    try reflexivity;
    unfold Gen.decodeFn, Events.decodeNewGame, Events.decodeGuessMade,
      Events.decodeClueGiven, Events.decodeMetaTransactionDecoded,
      Events.decodeRoleGranted, Events.decodeRoleRevoked,
      Events.decodeMessageQueued, Events.decodeMessageProcessed,
      Events.nextTopic, Events.checkOffset, Events.readField0;
    run_binds.
  norm_binds. rewrite unitName_clue. reflexivity.
Qed.

(** ** The worked examples of the specification *)

Example spec_u16_example :
  Gen.eval Gen.CReadU16 [x2c; x01] 0 = Ok (VNum 300, 2%nat)
  /\ Interp.decodePrimitive [x2c; x01] 0 "u16" = Ok (VNum 300, 2).
Proof. split; reflexivity. Qed.

Example spec_indexed_u128_example :
  readU128 (hexToBytes (nth 1 exampleTopics "")) 0 = Ok (mkRead 1 16).
Proof. reflexivity. Qed.

Example spec_new_game_example :
  Events.decodeEvent
    "c8a7c5d86cdaf43555273e08a00e4cdaa93cf22046685231d5eb1b6c0d29fa92"
    "0x01006400" exampleTopics
  = Ok (Some (mkEvent "new_game"
                [ ("game_number", VBig 1);
                  ("player", VStr "0xe75cbd47620dbb2053cf2a98d06840f06baaf141");
                  ("min_number", VNum 1); ("max_number", VNum 100) ])).
Proof. reflexivity. Qed.

Example spec_registry_example :
  Registry.decodeEventWithRouting
    "c8a7c5d86cdaf43555273e08a00e4cdaa93cf22046685231d5eb1b6c0d29fa92"
    "0x01006400" exampleTopics
    "0xe75cbd47620dbb2053cf2a98d06840f06baaf141" 1934743
  = Events.decodeEvent
      "c8a7c5d86cdaf43555273e08a00e4cdaa93cf22046685231d5eb1b6c0d29fa92"
      "0x01006400" exampleTopics.
Proof. reflexivity. Qed.

(** The one document shape [validateMetadata_conditions] leaves out: a
    [null] entry met before the first event with a signature makes
    [validateMetadata] raise a [TypeError]. *)
Example validateMetadata_null_event :
  Raw.validateMetadata
    (Raw.JObj
       [ ("version", Raw.JNum 6);
         ("spec", Raw.JObj
            [ ("events", Raw.JArr
                 [ Raw.JNull;
                   Raw.JObj [ ("signature_topic", Raw.JStr "0xc8a7") ] ]) ]);
         ("types", Raw.JArr []) ])
  = Throw (TypeError "Cannot read properties of null (reading 'signature_topic')").
Proof. reflexivity. Qed.

(** * Further properties *)

(** ** support.ts: fixed-width reads, compact lengths, strings and hex *)

Section FixedWidth.

Lemma byteZ_byteOf (z : Z) : byteZ (byteOf z) = z mod 256.
Proof.
  unfold byteOf, toUint8, byteZ.
  pose proof (Z.mod_pos_bound z 256 ltac:(lia)) as Hb.
  destruct (Byte.of_N (Z.to_N (z mod 256))) as [b |] eqn:E.
  - apply Byte.to_of_N in E. rewrite E. lia.
  - apply Byte.of_N_None_iff in E. lia.
Qed.

Lemma leValue_leBytes (n : nat) :
  forall z, leValue (leBytes n z) = z mod 256 ^ Z.of_nat n.
Proof.
  induction n as [| n IH]; intros z.
  - simpl. rewrite Z.mod_1_r. reflexivity.
  - cbn [leBytes leValue]. rewrite byteZ_byteOf, IH.
    replace (Z.of_nat (S n)) with (1 + Z.of_nat n) by lia.
    rewrite Z.pow_add_r by lia. change (256 ^ 1) with 256.
    rewrite Z.rem_mul_r by (try lia; apply Z.pow_nonzero; lia).
    reflexivity.
Qed.

Lemma leBytes_length (n : nat) (z : Z) : length (leBytes n z) = n.
Proof. revert z. induction n; intros z; simpl; congruence. Qed.

Lemma leValue_bound (bs : bytes) : 0 <= leValue bs < 256 ^ Z.of_nat (length bs).
Proof.
  induction bs as [| x r IH]; [simpl; lia |].
  cbn [leValue length]. pose proof (byteZ_range x).
  replace (Z.of_nat (S (length r))) with (1 + Z.of_nat (length r)) by lia.
  rewrite Z.pow_add_r by lia. change (256 ^ 1) with 256. nia.
Qed.

Lemma slice_length_le (buf : bytes) (a n : nat) :
  (length (slice buf a (a + n)) <= n)%nat.
Proof.
  unfold slice. rewrite length_firstn. lia.
Qed.

Lemma leValue_slice_bound (buf : bytes) (a n : nat) :
  0 <= leValue (slice buf a (a + n)) < 256 ^ Z.of_nat n.
Proof.
  pose proof (leValue_bound (slice buf a (a + n))) as H.
  pose proof (slice_length_le buf a n) as Hl.
  split; [lia |].
  apply Z.lt_le_trans with (256 ^ Z.of_nat (length (slice buf a (a + n)))); [lia |].
  apply Z.pow_le_mono_r; lia.
Qed.

(** Positions inside a buffer that follows a prefix. *)
Lemma getInt_app (pre l : bytes) (i : nat) :
  getInt (pre ++ l) (length pre + i) = getInt l i.
Proof.
  unfold getInt, getByte. rewrite nth_error_app2 by lia.
  replace (length pre + i - length pre)%nat with i by lia. reflexivity.
Qed.

Lemma slice_app (pre l : bytes) (a b : nat) :
  slice (pre ++ l) (length pre + a) (length pre + b) = slice l a b.
Proof.
  unfold slice. rewrite skipn_app.
  rewrite (skipn_all2 pre) by lia.
  replace (length pre + a - length pre)%nat with a by lia.
  replace (length pre + b - (length pre + a))%nat with (b - a)%nat by lia.
  reflexivity.
Qed.

Lemma slice_prefix (l rest : bytes) :
  slice (l ++ rest) 0 (length l) = l.
Proof.
  unfold slice. rewrite Nat.sub_0_r. change (skipn 0 (l ++ rest)) with (l ++ rest)%list.
  rewrite firstn_app, Nat.sub_diag, firstn_all. cbn [firstn].
  apply app_nil_r.
Qed.


Lemma slice_past_end (buf : bytes) (a b : nat) :
  (length buf <= a)%nat -> slice buf a b = [].
Proof.
  intros H. unfold slice. rewrite skipn_all2 by lia. apply firstn_nil.
Qed.

Lemma readU64_le (buf : bytes) (off : nat) :
  (off + 8 <= length buf)%nat ->
  readU64 buf off = Ok (mkRead (leValue (slice buf off (off + 8))) (off + 8)).
Proof.
  intros H. unfold readU64.
  rewrite bigLoop_in by (simpl; lia). cbn [bind].
  replace (off + 0)%nat with off by lia.
  do 2 f_equal. simpl Z.of_nat. lia.
Qed.

End FixedWidth.

(** X1: [readU16] and [readU32] never fail: they return the little-endian
    value of the 2 (4) bytes at the offset, a byte past the end of the buffer
    counting as 0, so a value below 2^16 (2^32) that is 0 when the offset is
    past the end, and advance the offset by 2 (4).  [readU64] and [readU128]
    return the little-endian value of the 8 (16) bytes at the offset, below
    2^64 (2^128), when the buffer holds them all, and raise the TypeError of
    [BigInt(undefined)] when it does not. *)
Theorem fixed_width_reads (buf : bytes) (off : nat) :
  readU16 buf off = mkRead (leValue (slice buf off (off + 2))) (off + 2)
  /\ 0 <= value (readU16 buf off) < 2 ^ 16
  /\ readU32 buf off = mkRead (leValue (slice buf off (off + 4))) (off + 4)
  /\ 0 <= value (readU32 buf off) < 2 ^ 32
  /\ ((length buf <= off)%nat ->
      value (readU16 buf off) = 0 /\ value (readU32 buf off) = 0)
  /\ ((off + 8 <= length buf)%nat ->
      readU64 buf off = Ok (mkRead (leValue (slice buf off (off + 8))) (off + 8))
      /\ 0 <= leValue (slice buf off (off + 8)) < 2 ^ 64)
  /\ ((length buf < off + 8)%nat -> readU64 buf off = Throw undefinedBigInt)
  /\ ((off + 16 <= length buf)%nat ->
      readU128 buf off = Ok (mkRead (leValue (slice buf off (off + 16))) (off + 16))
      /\ 0 <= leValue (slice buf off (off + 16)) < 2 ^ 128)
  /\ ((length buf < off + 16)%nat -> readU128 buf off = Throw undefinedBigInt).
Proof.
  rewrite readU16_le, readU32_le. cbn [value].
  split; [reflexivity |].
  split; [apply (leValue_slice_bound buf off 2) |].
  split; [reflexivity |].
  split; [apply (leValue_slice_bound buf off 4) |].
  split; [intros H; rewrite !slice_past_end by assumption; split; reflexivity |].
  split; [intros H; split;
          [apply readU64_le, H | apply (leValue_slice_bound buf off 8)] |].
  split; [intros H; unfold readU64; rewrite bigLoop_out by lia; reflexivity |].
  split; [intros H; split;
          [apply readU128_le, H | apply (leValue_slice_bound buf off 16)] |].
  intros H. unfold readU128. rewrite bigLoop_out by lia. reflexivity.
Qed.

Section Compact.

Lemma getInt_app0 (pre l : bytes) : getInt (pre ++ l) (length pre) = getInt l 0.
Proof.
  rewrite <- (getInt_app pre l 0). f_equal. lia.
Qed.

Lemma land3 (x : Z) : Z.land x 3 = x mod 4.
Proof. change 3 with (Z.ones 2). rewrite Z.land_ones by lia. reflexivity. Qed.

Lemma js_shr_small (x k : Z) :
  0 <= x < 2 ^ 31 -> 0 <= k -> js_shr x k = x / 2 ^ k.
Proof.
  intros Hx Hk. unfold js_shr. rewrite int32_small by lia.
  apply Z.shiftr_div_pow2. exact Hk.
Qed.

Lemma js_ushr_0 (x : Z) : 0 <= x < 2 ^ 32 -> js_ushr x 0 = x.
Proof.
  intros Hx. unfold js_ushr. rewrite uint32_small by lia. apply Z.shiftr_0_r.
Qed.

Lemma byteLength_bounds (n : Z) :
  1073741824 <= n < 2 ^ 536 ->
  (4 <= byteLength n <= 67)%nat /\ n < 256 ^ Z.of_nat (byteLength n).
Proof.
  intros [Hlo Hhi]. unfold byteLength.
  assert (H30 : 30 <= Z.log2 n).
  { change 30 with (Z.log2 1073741824). apply Z.log2_le_mono. lia. }
  assert (H536 : Z.log2 n < 536) by (apply Z.log2_lt_pow2; lia).
  assert (Hq : 3 <= Z.log2 n / 8 <= 66).
  { split.
    - apply Z.div_le_lower_bound; lia.
    - apply Z.lt_succ_r. apply Z.div_lt_upper_bound; lia. }
  split; [lia |].
  rewrite Z2Nat.id by lia.
  replace 256 with (2 ^ 8) by reflexivity.
  rewrite <- Z.pow_mul_r by lia.
  apply Z.log2_lt_pow2; [lia |].
  pose proof (Z.mod_pos_bound (Z.log2 n) 8 ltac:(lia)).
  pose proof (Z.div_mod (Z.log2 n) 8 ltac:(lia)). lia.
Qed.

Lemma compactEncode_length (n : Z) :
  length (compactEncode n)
  = if n <? 64 then 1%nat
    else if n <? 16384 then 2%nat
    else if n <? 1073741824 then 4%nat
    else S (byteLength n).
Proof.
  unfold compactEncode.
  destruct (n <? 64); [reflexivity |].
  destruct (n <? 16384); [reflexivity |].
  destruct (n <? 1073741824); [reflexivity |].
  cbn [length]. rewrite leBytes_length. reflexivity.
Qed.

Lemma readCompactU32_encode (pre rest : bytes) (n : Z) :
  0 <= n < 2 ^ 536 ->
  readCompactU32 (pre ++ compactEncode n ++ rest) (length pre)
  = Ok (mkRead (compactValue n) (length pre + length (compactEncode n))).
Proof.
  intros [H0 Hmax]. rewrite compactEncode_length.
  unfold readCompactU32, compactEncode, compactValue.
  destruct (n <? 64) eqn:E1; [apply Z.ltb_lt in E1 | apply Z.ltb_ge in E1].
  { replace (n <? 1073741824) with true by (symmetry; apply Z.ltb_lt; lia).
    cbn [leBytes app]. rewrite getInt_app0.
    change (getInt (byteOf (4 * n) :: rest) 0) with (byteZ (byteOf (4 * n))).
    rewrite byteZ_byteOf, land3. rewrite (Z.mod_small (4 * n) 256) by lia.
    replace ((4 * n) mod 4) with 0
      by (rewrite Z.mul_comm, Z.mod_mul by lia; reflexivity).
    cbn [Z.eqb Pos.eqb]. rewrite js_shr_small by lia.
    change (2 ^ 2) with 4. rewrite Z.mul_comm, Z.div_mul by lia. reflexivity. }
  destruct (n <? 16384) eqn:E2; [apply Z.ltb_lt in E2 | apply Z.ltb_ge in E2].
  { replace (n <? 1073741824) with true by (symmetry; apply Z.ltb_lt; lia).
    cbn [leBytes app]. rewrite getInt_app0, getInt_app.
    cbn [getInt getByte nth_error].
    rewrite !byteZ_byteOf, land3.
    assert (Hm : (4 * n + 1) mod 256 mod 4 = 1)
      by (Z.to_euclidean_division_equations; lia).
    rewrite Hm. cbn [Z.eqb Pos.eqb].
    pose proof (Z.mod_pos_bound (4 * n + 1) 256 ltac:(lia)) as Hlo.
    assert (Hhi : 0 <= (4 * n + 1) / 256 < 256).
    { split; [apply Z.div_pos; lia | apply Z.div_lt_upper_bound; lia]. }
    rewrite (Z.mod_small ((4 * n + 1) / 256) 256) by lia.
    rewrite or16 by lia.
    replace ((4 * n + 1) mod 256 + 256 * ((4 * n + 1) / 256)) with (4 * n + 1)
      by (pose proof (Z.div_mod (4 * n + 1) 256 ltac:(lia)); lia).
    rewrite js_shr_small by lia. change (2 ^ 2) with 4.
    replace ((4 * n + 1) / 4) with n
      by (Z.to_euclidean_division_equations; lia).
    rewrite js_ushr_0 by lia. reflexivity. }
  destruct (n <? 1073741824) eqn:E3; [apply Z.ltb_lt in E3 | apply Z.ltb_ge in E3].
  { cbn [leBytes app]. rewrite getInt_app0, !getInt_app.
    cbn [getInt getByte nth_error].
    rewrite !byteZ_byteOf, land3.
    set (m := 4 * n + 2).
    assert (Hm : 0 <= m < 2 ^ 32) by (unfold m; lia).
    assert (Hflag : m mod 256 mod 4 = 2)
      by (unfold m; Z.to_euclidean_division_equations; lia).
    rewrite Hflag. cbn [Z.eqb Pos.eqb].
    unfold js_ushr.
    rewrite or32 by (apply Z.mod_pos_bound; lia).
    assert (Hdigits : m mod 256 + 256 * (m / 256 mod 256)
                      + 65536 * (m / 256 / 256 mod 256)
                      + 16777216 * (m / 256 / 256 / 256 mod 256) = m).
    { pose proof (Z.div_mod m 256 ltac:(lia)).
      pose proof (Z.div_mod (m / 256) 256 ltac:(lia)).
      pose proof (Z.div_mod (m / 256 / 256) 256 ltac:(lia)).
      assert (0 <= m / 256 / 256 / 256 < 256).
      { rewrite !Z.div_div by lia. split; [apply Z.div_pos; lia |].
        apply Z.div_lt_upper_bound; lia. }
      rewrite (Z.mod_small (m / 256 / 256 / 256) 256) by lia. lia. }
    rewrite Hdigits. rewrite Z.shiftr_0_r.
    rewrite Z.shiftr_div_pow2 by lia. change (2 ^ 2) with 4.
    replace (m / 4) with n by (unfold m; Z.to_euclidean_division_equations; lia).
    rewrite uint32_small by lia. reflexivity. }
  destruct (byteLength_bounds n ltac:(lia)) as [[Hk4 Hk67] Hnk].
  set (k := byteLength n) in *.
  cbn [app]. rewrite getInt_app0.
  change (getInt (byteOf (4 * (Z.of_nat k - 4) + 3) :: leBytes k n ++ rest) 0)
    with (byteZ (byteOf (4 * (Z.of_nat k - 4) + 3))).
  rewrite byteZ_byteOf, land3.
  rewrite (Z.mod_small (4 * (Z.of_nat k - 4) + 3) 256) by lia.
  replace ((4 * (Z.of_nat k - 4) + 3) mod 4) with 3
    by (rewrite Z.add_comm, Z.mul_comm, Z.mod_add by lia; reflexivity).
  cbn [Z.eqb Pos.eqb]. rewrite js_shr_small by lia. change (2 ^ 2) with 4.
  replace ((4 * (Z.of_nat k - 4) + 3) / 4) with (Z.of_nat k - 4)
    by (Z.to_euclidean_division_equations; lia).
  replace (Z.to_nat (4 + (Z.of_nat k - 4))) with k by lia.
  rewrite bigLoop_in.
  - cbn [bind]. replace (length pre + 1 + 0)%nat with (length pre + 1)%nat by lia.
    set (b0 := byteOf (4 * (Z.of_nat k - 4) + 3)).
    replace (pre ++ b0 :: leBytes k n ++ rest)%list
      with ((pre ++ [b0]) ++ leBytes k n ++ rest)%list
      by (rewrite <- app_assoc; reflexivity).
    replace (length pre + 1)%nat with (length (pre ++ [b0])%list + 0)%nat
      by (rewrite length_app; cbn [length]; lia).
    replace (length (pre ++ [b0])%list + 0 + k)%nat
      with (length (pre ++ [b0])%list + k)%nat by lia.
    rewrite slice_app.
    replace k with (length (leBytes k n)) at 2 by apply leBytes_length.
    rewrite slice_prefix, leValue_leBytes, Z.mod_small by lia.
    rewrite length_app. cbn [length].
    do 2 f_equal; [f_equal; simpl; lia | lia].
  - rewrite !length_app. cbn [length]. rewrite length_app, leBytes_length. lia.
  - simpl. lia.
Qed.

End Compact.

(** X2: [readCompactU32] inverts the SCALE compact encoding: for
    [0 <= n < 2^536] and at any position of a buffer, reading the encoding
    of [n] returns [n] (a number below 2^30, a bigint from there on) and the
    offset just after the encoding, which is 1 to 68 bytes long. *)
Theorem readCompactU32_round_trip (pre rest : bytes) (n : Z) :
  0 <= n < 2 ^ 536 ->
  readCompactU32 (pre ++ compactEncode n ++ rest) (length pre)
  = Ok (mkRead (compactValue n) (length pre + length (compactEncode n)))
  /\ (1 <= length (compactEncode n) <= 68)%nat.
Proof.
  intros H. split; [apply readCompactU32_encode, H |].
  rewrite compactEncode_length.
  destruct (n <? 64); [lia |].
  destruct (n <? 16384); [lia |].
  destruct (n <? 1073741824) eqn:E; [lia |].
  apply Z.ltb_ge in E.
  destruct (byteLength_bounds n ltac:(lia)) as [[Hk4 Hk67] _]. lia.
Qed.

Lemma readCompactU32_round_trip_witness :
  0 <= 300 < 2 ^ 536
  /\ compactEncode 300 = [xb1; x04]
  /\ readCompactU32 [xff; xb1; x04; x07] 1 = Ok (mkRead (VNum 300) 3).
Proof.
  split; [split; [lia | reflexivity] |]. split; [reflexivity |].
  apply (readCompactU32_round_trip [xff] [x07] 300). split; [lia | reflexivity].
Defined.

Section Strings.

Lemma pow53_lt_pow536 : 2 ^ 53 < 2 ^ 536.
Proof. reflexivity. Qed.

Lemma toNumber_compactValue (n : Z) : toNumber (compactValue n) = n.
Proof. unfold compactValue. destruct (n <? 1073741824); reflexivity. Qed.

Lemma slice_middle (pre s rest : bytes) :
  slice (pre ++ s ++ rest) (length pre) (length pre + length s) = s.
Proof.
  replace (length pre) with (length pre + 0)%nat at 1 by lia.
  rewrite slice_app. apply slice_prefix.
Qed.

Lemma slice_tail (pre s : bytes) (n : nat) :
  (length s <= n)%nat ->
  slice (pre ++ s) (length pre) (length pre + n) = s.
Proof.
  intros H. replace (length pre) with (length pre + 0)%nat at 1 by lia.
  rewrite slice_app. unfold slice. rewrite Nat.sub_0_r.
  change (skipn 0 s) with s. apply firstn_all2. exact H.
Qed.

End Strings.

(** X3: [readString] returns the bytes of a string encoded as its compact
    length (below 2^53) followed by that many bytes, and the offset just
    after them, whatever follows in the buffer.  When the buffer ends before
    the announced length, the text is what is left and the returned offset
    still is the start of the text plus the announced length. *)
Theorem readString_round_trip (pre s rest : bytes) (n : Z) :
  0 <= n < 2 ^ 53 ->
  (Z.of_nat (length s) = n ->
   readString (pre ++ compactEncode n ++ s ++ rest) (length pre)
   = Ok (mkRead (VText s)
                (length pre + length (compactEncode n) + length s)))
  /\ (Z.of_nat (length s) <= n ->
      readString (pre ++ compactEncode n ++ s) (length pre)
      = Ok (mkRead (VText s)
                   (length pre + length (compactEncode n) + Z.to_nat n))).
Proof.
  intros Hn53.
  assert (Hn : 0 <= n < 2 ^ 536) by (pose proof pow53_lt_pow536; lia).
  split; intros Hs; unfold readString.
  - rewrite readCompactU32_encode by exact Hn. cbn [bind value offset].
    rewrite toNumber_compactValue.
    replace (Z.to_nat n) with (length s) by lia.
    rewrite app_assoc, <- (length_app pre (compactEncode n)).
    rewrite slice_middle. reflexivity.
  - rewrite <- (app_nil_r s) at 1.
    rewrite readCompactU32_encode by exact Hn. cbn [bind value offset].
    rewrite toNumber_compactValue.
    rewrite app_assoc, <- (length_app pre (compactEncode n)).
    rewrite slice_tail by lia. reflexivity.
Qed.

Lemma readString_round_trip_witness :
  0 <= 2 < 2 ^ 53
  /\ readString [x2a; x08; x68; x69; x00] 1 = Ok (mkRead (VText [x68; x69]) 4)
  /\ readString [x2a; x08; x68] 1 = Ok (mkRead (VText [x68]) 4).
Proof.
  split; [split; [lia | reflexivity] |].
  destruct (readString_round_trip [x2a] [x68; x69] [x00] 2) as [H _];
    [split; [lia | reflexivity] |].
  destruct (readString_round_trip [x2a] [x68] [] 2) as [_ H'];
    [split; [lia | reflexivity] |].
  split; [apply H; reflexivity | apply H'; simpl; lia].
Defined.

Section HexStrings.

Lemma lowerHex_cases (c : ascii) :
  isLowerHex c = true ->
  In c ["0"; "1"; "2"; "3"; "4"; "5"; "6"; "7"; "8"; "9";
        "a"; "b"; "c"; "d"; "e"; "f"]%char.
Proof.
  destruct c as [[] [] [] [] [] [] [] []]; intros H;
    try discriminate H; cbn [In]; tauto.
Qed.

Lemma byteHex_of_pair (a b : ascii) :
  isLowerHex a = true -> isLowerHex b = true ->
  byteHex (toUint8 (parseInt16 (String a (String b EmptyString))))
  = String a (String b EmptyString).
Proof.
  intros Ha Hb. apply lowerHex_cases in Ha, Hb. cbn [In] in Ha, Hb.
  repeat (destruct Ha as [<- | Ha]; [| ]); try contradiction;
    repeat (destruct Hb as [<- | Hb]; [| ]); try contradiction;
    reflexivity.
Qed.

Lemma hexOf_parsePairs (n : nat) :
  forall s, String.length s = (2 * n)%nat -> allChars isLowerHex s = true ->
            hexOf (parsePairs s) = s.
Proof.
  induction n as [| n IH]; intros s Hlen Hall.
  - destruct s; [reflexivity | discriminate].
  - destruct s as [| a [| b r]]; try (cbn in Hlen; lia).
    cbn [allChars] in Hall.
    apply andb_true_iff in Hall as [Ha Hall].
    apply andb_true_iff in Hall as [Hb Hall].
    cbn [parsePairs hexOf]. rewrite byteHex_of_pair by assumption.
    rewrite IH; [reflexivity | cbn [String.length] in Hlen; lia | exact Hall].
Qed.

Lemma prefix_0x (a b : ascii) (r : string) :
  startsWith0x (String a (String b r))
  = if Ascii.ascii_dec "0" a then if Ascii.ascii_dec "x" b then true else false
    else false.
Proof.
  unfold startsWith0x. cbn [String.prefix].
  destruct (Ascii.ascii_dec "0" a); [| reflexivity].
  destruct (Ascii.ascii_dec "x" b); [destruct r |]; reflexivity.
Qed.

Lemma prefix_0x_short (a : ascii) : startsWith0x (String a EmptyString) = false.
Proof.
  unfold startsWith0x. cbn [String.prefix].
  destruct (Ascii.ascii_dec "0" a); reflexivity.
Qed.

Lemma lowerHex_no_prefix (s : string) :
  allChars isLowerHex s = true -> startsWith0x s = false.
Proof.
  intros H. destruct s as [| a [| b r]];
    [reflexivity | apply prefix_0x_short |].
  cbn [allChars] in H.
  apply andb_true_iff in H as [_ H]. apply andb_true_iff in H as [Hb _].
  rewrite prefix_0x.
  destruct (Ascii.ascii_dec "0" a); [| reflexivity].
  destruct (Ascii.ascii_dec "x" b) as [<- | _]; [discriminate Hb | reflexivity].
Qed.

Lemma hexToBytes_strip (s : string) : hexToBytes s = parsePairs (Gen.strip0x s).
Proof. reflexivity. Qed.

Lemma hexToBytes_0x (s : string) :
  hexToBytes (String "0" (String "x" s)) = parsePairs s.
Proof. unfold hexToBytes. rewrite startsWith0x_0x. reflexivity. Qed.

Lemma parsePairs_length (n : nat) :
  forall s, (String.length s < 2 * n)%nat ->
            length (parsePairs s) = Nat.div2 (String.length s).
Proof.
  induction n as [| n IH]; intros s H; [lia |].
  destruct s as [| a [| b r]]; try reflexivity.
  cbn [parsePairs length String.length Nat.div2].
  rewrite IH; [reflexivity | cbn [String.length] in H; lia].
Qed.

Lemma parsePairs_odd (n : nat) (c : ascii) :
  forall s, String.length s = (2 * n)%nat ->
            parsePairs (s ++ String c EmptyString) = parsePairs s.
Proof.
  induction n as [| n IH]; intros s H.
  - destruct s; [reflexivity | discriminate].
  - destruct s as [| a [| b r]]; try (cbn in H; lia).
    change (String a (String b r) +:+ String c "")
      with (String a (String b (r +:+ String c ""))).
    cbn [parsePairs]. rewrite IH; [reflexivity | cbn [String.length] in H; lia].
Qed.

Lemma even_half (m : nat) : Nat.even m = true -> exists n, m = (2 * n)%nat.
Proof.
  intros H. apply Nat.even_spec in H. destruct H as [n ->]. exists n. lia.
Qed.

Lemma parsePair_not_hex (a b : ascii) :
  digit16 a = None -> isWhiteSpace a = false -> a <> "+"%char -> a <> "-"%char ->
  toUint8 (parseInt16 (String a (String b EmptyString))) = x00.
Proof.
  intros Hd Hw Hp Hm.
  destruct a as [[] [] [] [] [] [] [] []];
    try discriminate Hd; try discriminate Hw; try congruence; reflexivity.
Qed.

End HexStrings.

(** X4: [bytesToHex (hexToBytes s)] is ["0x"] followed by [s] for a string
    [s] of an even number of lowercase hex digits, whether [hexToBytes]
    receives [s] itself or [s] after the prefix ["0x"]. *)
Theorem bytesToHex_hexToBytes (s : string) :
  allChars isLowerHex s = true ->
  evenLength s = true ->
  bytesToHex (hexToBytes s) = String "0" (String "x" s)
  /\ bytesToHex (hexToBytes (String "0" (String "x" s))) = String "0" (String "x" s).
Proof.
  intros Hall Heven. unfold evenLength in Heven.
  apply even_half in Heven as [n Hn].
  rewrite hexToBytes_0x. unfold hexToBytes.
  rewrite lowerHex_no_prefix by exact Hall.
  unfold bytesToHex. rewrite (hexOf_parsePairs n s Hn Hall).
  split; reflexivity.
Qed.

Lemma bytesToHex_hexToBytes_witness :
  allChars isLowerHex "e75c0a" = true
  /\ evenLength "e75c0a" = true
  /\ bytesToHex (hexToBytes "e75c0a") = "0xe75c0a"
  /\ bytesToHex (hexToBytes "0xe75c0a") = "0xe75c0a".
Proof.
  split; [reflexivity |]. split; [reflexivity |].
  apply (bytesToHex_hexToBytes "e75c0a"); reflexivity.
Defined.

(** X5: [hexToBytes] never fails: after the optional ["0x"] prefix a string
    of [n] characters gives [n / 2] bytes (rounded down), a last character
    without a partner is dropped, and a pair that does not start with a hex
    digit, a sign or a blank is read as the byte 0. *)
Theorem hexToBytes_shape (s : string) (a b c : ascii) :
  length (hexToBytes s) = Nat.div2 (String.length (Gen.strip0x s))
  /\ hexToBytes (String "0" (String "x" (Gen.strip0x s))) = hexToBytes s
  /\ (evenLength (Gen.strip0x s) = true ->
      hexToBytes (s ++ String c EmptyString) = hexToBytes s)
  /\ (digit16 a = None -> isWhiteSpace a = false ->
      a <> "+"%char -> a <> "-"%char ->
      hexToBytes (String a (String b s)) = x00 :: parsePairs s).
Proof.
  split; [| split; [| split]].
  - rewrite hexToBytes_strip.
    apply (parsePairs_length (S (String.length (Gen.strip0x s)))). lia.
  - rewrite hexToBytes_0x. reflexivity.
  - intros He. unfold evenLength in He. apply even_half in He as [n Hn].
    rewrite !hexToBytes_strip.
    assert (Hs : Gen.strip0x (s ++ String c "") = Gen.strip0x s ++ String c "").
    { unfold Gen.strip0x in *.
      destruct s as [| x [| y r]].
      - change ("" +:+ String c "") with (String c "").
        rewrite prefix_0x_short. reflexivity.
      - change (String x "" +:+ String c "") with (String x (String c "")).
        rewrite prefix_0x_short in *. cbn in Hn. lia.
      - change (String x (String y r) +:+ String c "")
          with (String x (String y (r +:+ String c ""))).
        rewrite !prefix_0x.
        destruct (Ascii.ascii_dec "0" x); [| reflexivity].
        destruct (Ascii.ascii_dec "x" y); reflexivity. }
    rewrite Hs. apply (parsePairs_odd n c _ Hn).
  - intros Hd Hw Hp Hm.
    assert (Hn : startsWith0x (String a (String b s)) = false).
    { rewrite prefix_0x.
      destruct (Ascii.ascii_dec "0" a) as [<- | _]; [discriminate Hd | reflexivity]. }
    unfold hexToBytes. rewrite Hn. cbn [parsePairs].
    rewrite parsePair_not_hex by assumption. reflexivity.
Qed.

(** ** events.ts and the generated event decoders *)

Section EventsTable.

Lemma ret_not_null (name : string) (r : Res Events.Record_) :
  Events.ret name r <> Ok None.
Proof. destruct r; cbn; discriminate. Qed.

Lemma ret_some (name : string) (r : Res Events.Record_) (ev : DecodedEvent) :
  Events.ret name r = Ok (Some ev) -> eventType ev = name.
Proof.
  destruct r; cbn; try discriminate. intros H. injection H as <-. reflexivity.
Qed.

End EventsTable.

(** X6: the [decodeEvent] of events.ts and [EVENT_SIGNATURES] agree: an
    event is returned only for a signature of the table, with the event type
    the table gives it, and [null] is returned exactly for the signatures
    that are no key of the table (the comparison is exact: a ["0x"] prefix
    or another letter case makes a signature unknown). *)
Theorem decodeEvent_signature_table (s d : string) (t : list string) :
  (forall ev, Events.decodeEvent s d t = Ok (Some ev) ->
              In (s, eventType ev) Events.EVENT_SIGNATURES)
  /\ (Events.decodeEvent s d t = Ok None
      <-> ~ In s (map fst Events.EVENT_SIGNATURES)).
Proof.
  unfold Events.decodeEvent.
  repeat match goal with
         | |- context [String.eqb s ?k] =>
             destruct (String.eqb_spec s k) as [-> | ?];
             [split;
              [intros ev H; apply ret_some in H; rewrite H; cbn; tauto
              | split;
                [intros H; exfalso; exact (ret_not_null _ _ H)
                | intros H; exfalso; apply H; cbn; tauto]] |]
         end.
  split; [discriminate |].
  split; [| reflexivity].
  intros _ H. cbn in H.
  repeat (destruct H as [H | H]; [congruence |]). exact H.
Qed.

Section Topics.

Import Gen.

Lemma assert_Ok_true (c : bool) (msg : string) (u : unit) :
  assert c msg = Ok u -> c = true.
Proof. destruct c; [reflexivity | discriminate]. Qed.

Lemma stepBlock_indexed_topic (data : bytes) (topics : list string)
      (ctx ctx' : Ctx) (label : string) (kind : TopicKind) :
  stepBlock data topics ctx (BIndexed label kind) = Ok ctx' ->
  exists t, nth_error topics (topicIndex ctx) = Some t
            /\ (32 <= length (hexToBytes t))%nat.
Proof.
  cbn [stepBlock]. intros H.
  apply bind_Ok in H as (u1 & H1 & H).
  apply bind_Ok in H as (u2 & H2 & _).
  apply assert_Ok_true in H1, H2.
  apply Nat.ltb_lt in H1. apply Nat.leb_le in H2.
  exists (nth (topicIndex ctx) topics "").
  split; [apply nth_error_nth'; exact H1 | exact H2].
Qed.

Lemma runBlocks_topics (data : bytes) (topics : list string) :
  forall (bs : list Block) (ctx ctx' : Ctx),
    runBlocks data topics ctx bs = Ok ctx' ->
    forall k, (k < length (List.filter isIndexedBlock bs))%nat ->
              exists t, nth_error topics (topicIndex ctx + k) = Some t
                        /\ (32 <= length (hexToBytes t))%nat.
Proof.
  induction bs as [| blk rest IH]; intros ctx ctx' Hrun k Hk.
  - cbn in Hk. lia.
  - cbn [runBlocks] in Hrun. apply bind_Ok in Hrun as (c1 & Hstep & Hrun).
    destruct blk as [label kind | label code]; cbn [List.filter isIndexedBlock] in Hk.
    + pose proof (stepBlock_indexed_topic _ _ _ _ _ _ Hstep) as Ht.
      apply stepBlock_indexed_cursors in Hstep as [_ Hti].
      destruct k as [| k].
      * rewrite Nat.add_0_r. exact Ht.
      * cbn [length] in Hk.
        destruct (IH _ _ Hrun k ltac:(lia)) as (t & Hn & Hl).
        exists t. split; [| exact Hl].
        rewrite Hti in Hn. rewrite <- Hn. f_equal. lia.
    + apply stepBlock_data_cursors in Hstep as [Hti _].
      destruct (IH _ _ Hrun k Hk) as (t & Hn & Hl).
      exists t. split; [| exact Hl]. rewrite <- Hti. exact Hn.
Qed.

End Topics.

(** X7: a generated event decoder returns a result only if every indexed
    argument has its topic, the [k]-th of them (from 0) at [topics[k + 1]],
    and that topic holds at least 32 bytes.  When the first argument is
    indexed, fewer than two topics raise "Missing topic for indexed arg" with
    its label, and a first topic of fewer than 32 bytes raises "Invalid topic
    length for indexed arg" with its label. *)
Theorem generated_decoder_requires_topics
        (blocks : list Gen.Block) (dataHex : string) (topics : list string) :
  (forall r, Gen.decodeFn blocks dataHex topics = Ok r ->
             forall k, (k < length (List.filter isIndexedBlock blocks))%nat ->
                       exists t, nth_error topics (S k) = Some t
                                 /\ (32 <= length (hexToBytes t))%nat)
  /\ (forall label kind post,
         blocks = Gen.BIndexed label kind :: post ->
         (length topics <= 1)%nat ->
         Gen.decodeFn blocks dataHex topics
         = Throw (Error ("Missing topic for indexed arg " ++ label)))
  /\ (forall label kind post t,
         blocks = Gen.BIndexed label kind :: post ->
         nth_error topics 1 = Some t ->
         (length (hexToBytes t) < 32)%nat ->
         Gen.decodeFn blocks dataHex topics
         = Throw (Error ("Invalid topic length for indexed arg " ++ label))).
Proof.
  split; [| split].
  - intros r H k Hk. unfold Gen.decodeFn in H.
    apply bind_Ok in H as (ctx & Hrun & _).
    apply (runBlocks_topics _ _ _ _ _ Hrun k Hk).
  - intros label kind post -> Hlen. unfold Gen.decodeFn.
    cbn [Gen.runBlocks Gen.stepBlock Gen.topicIndex].
    replace (1 <? length topics)%nat with false
      by (symmetry; apply Nat.ltb_ge; exact Hlen).
    reflexivity.
  - intros label kind post t -> Hn Hlt. unfold Gen.decodeFn.
    cbn [Gen.runBlocks Gen.stepBlock Gen.topicIndex].
    apply nth_error_nth_default in Hn as [Hnth Hin].
    rewrite Hin, Hnth. cbn [assert bind].
    replace (32 <=? length (hexToBytes t))%nat with false
      by (symmetry; apply Nat.leb_gt; exact Hlt).
    reflexivity.
Qed.

(** X8: the [decodeEvent] of events.ts does not catch the errors of its
    decoders: for each of the seven events whose first argument is indexed,
    topics with at most one entry raise "Missing topic for indexed arg ..."
    where the interpreter would return a partial record. *)
Theorem decodeEvent_missing_topic (s d : string) (topics : list string) :
  In s (map fst Events.EVENT_SIGNATURES) ->
  s <> metaTransactionDecoded ->
  (length topics <= 1)%nat ->
  exists label,
    Events.decodeEvent s d topics
    = Throw (Error ("Missing topic for indexed arg " ++ label)).
Proof.
  intros Hin Hne Hlen.
  assert (Hlt : (1 <? length topics)%nat = false) by (apply Nat.ltb_ge; exact Hlen).
  cbn in Hin.
  repeat (destruct Hin as [<- | Hin];
          [try (exfalso; apply Hne; reflexivity);
           eexists; unfold Events.decodeEvent; cbn [String.eqb Ascii.eqb Bool.eqb];
           cbv beta iota;
           unfold Events.decodeNewGame, Events.decodeGuessMade,
             Events.decodeClueGiven, Events.decodeRoleGranted,
             Events.decodeRoleRevoked, Events.decodeMessageQueued,
             Events.decodeMessageProcessed, Events.nextTopic;
           rewrite Hlt; reflexivity |]).
  contradiction.
Qed.

Lemma decodeEvent_missing_topic_witness :
  In "bfe3e4de23c556408a7c400baf6b27364bdb763595ac8f3547c20db70131083a"
     (map fst Events.EVENT_SIGNATURES)
  /\ exists label,
       Events.decodeEvent
         "bfe3e4de23c556408a7c400baf6b27364bdb763595ac8f3547c20db70131083a"
         "0x0100000005" ["0xbfe3"]
       = Throw (Error ("Missing topic for indexed arg " ++ label)).
Proof.
  split; [cbn; tauto |].
  apply (decodeEvent_missing_topic
           "bfe3e4de23c556408a7c400baf6b27364bdb763595ac8f3547c20db70131083a"
           "0x0100000005" ["0xbfe3"]).
  - cbn. tauto.
  - discriminate.
  - simpl. lia.
Defined.

Section Keys.

Import Gen.

Lemma setProp_keys (obj : list (string * Value)) (key : string) (v : Value) :
  map fst (setProp obj key v)
  = if existsb (String.eqb key) (map fst obj) then map fst obj
    else (map fst obj ++ [key])%list.
Proof.
  induction obj as [| [k w] rest IH]; [reflexivity |].
  cbn [setProp map fst existsb].
  rewrite (String.eqb_sym key k).
  destruct (String.eqb k key); cbn [orb map fst]; [reflexivity |].
  rewrite IH. destruct (existsb (String.eqb key) (map fst rest)); reflexivity.
Qed.

Lemma existsb_eqb_In (key : string) (l : list string) :
  existsb (String.eqb key) l = true <-> In key l.
Proof.
  rewrite existsb_exists. split.
  - intros (x & Hin & Heq). apply String.eqb_eq in Heq. subst. exact Hin.
  - intros Hin. exists key. split; [exact Hin | apply String.eqb_refl].
Qed.

Lemma setProp_keys_In (obj : list (string * Value)) (key : string) (v : Value)
      (l : string) :
  In l (map fst (setProp obj key v)) <-> In l (map fst obj) \/ l = key.
Proof.
  rewrite setProp_keys.
  destruct (existsb (String.eqb key) (map fst obj)) eqn:E.
  - apply existsb_eqb_In in E. split; [tauto |].
    intros [H | ->]; assumption.
  - rewrite in_app_iff. cbn [In]. intuition (subst; auto).
Qed.




End Keys.



Section Payloads.

Lemma hexToBytes_bytesToHex (bs : bytes) : hexToBytes (bytesToHex bs) = bs.
Proof.
  unfold bytesToHex.
  change ("0x" +:+ hexOf bs) with (String "0" (String "x" (hexOf bs))).
  rewrite hexToBytes_0x. apply parsePairs_hexOf.
Qed.

Lemma leValue_slice0 (tb : bytes) (n : nat) :
  leValue (slice tb 0 (0 + n)) = leValue (firstn n tb).
Proof. unfold slice. rewrite Nat.sub_0_r. reflexivity. Qed.

Lemma nextTopic_ok (label : string) (topics : list string) (i : nat) (t : string) :
  nth_error topics i = Some t ->
  (32 <= length (hexToBytes t))%nat ->
  Events.nextTopic label topics i = Ok (t, hexToBytes t, S i).
Proof.
  intros Hn Hl. apply nth_error_nth_default in Hn as [Hnth Hin].
  unfold Events.nextTopic. rewrite Hin, Hnth. cbn [assert bind].
  replace (32 <=? length (hexToBytes t))%nat with true
    by (symmetry; apply Nat.leb_le; exact Hl).
  reflexivity.
Qed.

Lemma readU8Loop_cells (data : bytes) (n : nat) :
  forall off, Events.readU8Loop data off n = (cells data off n, (off + n)%nat).
Proof.
  induction n as [| n IH]; intros off.
  - cbn. f_equal. lia.
  - cbn [Events.readU8Loop readU8 value offset]. rewrite IH.
    unfold cells. cbn [seq map]. f_equal; [| lia].
    f_equal. replace (off + 1)%nat with (S off) by lia. reflexivity.
Qed.

End Payloads.

(** X10: [decodeMessageQueued], given a topic of at least 32 bytes, returns
    the little-endian value of the first four topic bytes as [id] and, for
    data made of a compact length (below 2^53) and that many bytes, exactly
    those bytes as [data]; bytes after the payload are ignored, and a payload
    shorter than announced is returned as it is, without error. *)
Theorem decodeMessageQueued_payload
        (payload rest : bytes) (n : Z) (topics : list string) (t : string) :
  nth_error topics 1 = Some t ->
  (32 <= length (hexToBytes t))%nat ->
  0 <= n < 2 ^ 53 ->
  (Z.of_nat (length payload) = n ->
   Events.decodeMessageQueued
     (bytesToHex (compactEncode n ++ payload ++ rest)) topics
   = Ok [ ("id", VNum (leValue (firstn 4 (hexToBytes t))));
          ("data", VBytes payload) ])
  /\ (Z.of_nat (length payload) <= n ->
      Events.decodeMessageQueued (bytesToHex (compactEncode n ++ payload)) topics
      = Ok [ ("id", VNum (leValue (firstn 4 (hexToBytes t))));
             ("data", VBytes payload) ]).
Proof.
  intros Hn Hl Hr53.
  assert (Hr : 0 <= n < 2 ^ 536) by (pose proof pow53_lt_pow536; lia).
  assert (Hid : value (readU32 (hexToBytes t) 0)
                = leValue (firstn 4 (hexToBytes t))).
  { rewrite readU32_le. cbn [value]. apply leValue_slice0. }
  split; intros Hp; unfold Events.decodeMessageQueued, Events.checkOffset;
    rewrite hexToBytes_bytesToHex, (nextTopic_ok _ _ _ _ Hn Hl);
    cbn [bind assert Nat.leb]; rewrite Hid.
  - pose proof (readCompactU32_encode [] (payload ++ rest) n Hr) as Hc.
    cbn [app length Nat.add] in Hc. rewrite Hc.
    cbn [bind value offset setProp String.eqb Ascii.eqb Bool.eqb].
    rewrite toNumber_compactValue.
    replace (Z.to_nat n) with (length payload) by lia.
    pose proof (slice_middle (compactEncode n) payload rest) as Hs.
    rewrite Hs. reflexivity.
  - pose proof (readCompactU32_encode [] payload n Hr) as Hc.
    cbn [app length Nat.add] in Hc. rewrite Hc.
    cbn [bind value offset setProp String.eqb Ascii.eqb Bool.eqb].
    rewrite toNumber_compactValue.
    rewrite (slice_tail (compactEncode n) payload (Z.to_nat n)) by lia.
    reflexivity.
Qed.

Lemma decodeMessageQueued_payload_witness :
  nth_error ["0xcfd8"; "0x0700000000000000000000000000000000000000000000000000000000000000"] 1
  = Some "0x0700000000000000000000000000000000000000000000000000000000000000"
  /\ Events.decodeMessageQueued "0x08abcdff"
       ["0xcfd8"; "0x0700000000000000000000000000000000000000000000000000000000000000"]
     = Ok [ ("id", VNum 7); ("data", VBytes [xab; xcd]) ]
  /\ Events.decodeMessageQueued "0x08ab"
       ["0xcfd8"; "0x0700000000000000000000000000000000000000000000000000000000000000"]
     = Ok [ ("id", VNum 7); ("data", VBytes [xab]) ].
Proof.
  split; [reflexivity |].
  destruct (decodeMessageQueued_payload [xab; xcd] [xff] 2
              ["0xcfd8"; "0x0700000000000000000000000000000000000000000000000000000000000000"]
              "0x0700000000000000000000000000000000000000000000000000000000000000"
              eq_refl) as [H1 _];
    [vm_compute; lia | split; [lia | reflexivity] |].
  destruct (decodeMessageQueued_payload [xab] [] 2
              ["0xcfd8"; "0x0700000000000000000000000000000000000000000000000000000000000000"]
              "0x0700000000000000000000000000000000000000000000000000000000000000"
              eq_refl) as [_ H2];
    [vm_compute; lia | split; [lia | reflexivity] |].
  split; [apply H1; reflexivity | apply H2; simpl; lia].
Defined.

(** X11: [decodeRoleGranted] and [decodeRoleRevoked], given two topics of at
    least 32 bytes, succeed on every data string: the role is the
    little-endian value of the first four bytes of the first topic, the
    account the hex string of the last 20 bytes of the second, and the third
    argument an object whose [field0] is an array of always 20 cells, the
    first 20 data bytes, [undefined] where the data ends earlier. *)
Theorem decodeRole_fixed_array (dataHex : string) (topics : list string)
        (t1 t2 : string) :
  nth_error topics 1 = Some t1 ->
  nth_error topics 2 = Some t2 ->
  (32 <= length (hexToBytes t1))%nat ->
  (32 <= length (hexToBytes t2))%nat ->
  let role := VNum (leValue (firstn 4 (hexToBytes t1))) in
  let account :=
    VStr (bytesToHex (skipn (length (hexToBytes t2) - 20) (hexToBytes t2))) in
  let field0 := VObj [("field0", VArr (cells (hexToBytes dataHex) 0 20))] in
  Events.decodeRoleGranted dataHex topics
  = Ok [("role", role); ("grantee", account); ("grantor", field0)]
  /\ Events.decodeRoleRevoked dataHex topics
     = Ok [("role", role); ("account", account); ("sender", field0)]
  /\ length (cells (hexToBytes dataHex) 0 20) = 20%nat.
Proof.
  intros H1 H2 L1 L2 role account field0.
  assert (Hid : value (readU32 (hexToBytes t1) 0)
                = leValue (firstn 4 (hexToBytes t1))).
  { rewrite readU32_le. cbn [value]. apply leValue_slice0. }
  split; [| split].
  - unfold Events.decodeRoleGranted, Events.checkOffset, Events.readField0.
    rewrite (nextTopic_ok _ _ _ _ H1 L1). cbn [bind].
    rewrite (nextTopic_ok _ _ _ _ H2 L2). cbn [bind assert Nat.leb].
    rewrite readU8Loop_cells, Hid. reflexivity.
  - unfold Events.decodeRoleRevoked, Events.checkOffset, Events.readField0.
    rewrite (nextTopic_ok _ _ _ _ H1 L1). cbn [bind].
    rewrite (nextTopic_ok _ _ _ _ H2 L2). cbn [bind assert Nat.leb].
    rewrite readU8Loop_cells, Hid. reflexivity.
  - unfold cells. rewrite length_map, length_seq. reflexivity.
Qed.

Lemma decodeRole_fixed_array_witness :
  nth_error roleTopics 1 = Some (nth 1 roleTopics "")
  /\ nth_error roleTopics 2 = Some (nth 2 roleTopics "")
  /\ Events.decodeRoleGranted "0x0102" roleTopics
     = Ok [ ("role", VNum 7);
            ("grantee", VStr "0xe75cbd47620dbb2053cf2a98d06840f06baaf141");
            ("grantor",
             VObj [("field0", VArr (VNum 1 :: VNum 2 :: repeat VUndef 18))]) ].
Proof.
  split; [reflexivity |]. split; [reflexivity |].
  apply (decodeRole_fixed_array "0x0102" roleTopics
           (nth 1 roleTopics "") (nth 2 roleTopics "") eq_refl eq_refl);
    vm_compute; lia.
Defined.

(** ** Names: event types and contract names *)

Section SnakeCase.

Import Gen.

Lemma lowerChar_not_upper (c : ascii) : isUpper (lowerChar c) = false.
Proof.
  unfold lowerChar. destruct (isUpper c) eqn:E; [| exact E].
  destruct c as [[] [] [] [] [] [] [] []]; try discriminate E; reflexivity.
Qed.

Lemma toLowerCase_noUpper (s : string) : noUpper (toLowerCase s) = true.
Proof.
  induction s as [| c r IH]; [reflexivity |].
  cbn [toLowerCase noUpper allChars]. rewrite lowerChar_not_upper.
  exact IH.
Qed.

Lemma lowerChar_fixed (c : ascii) : isUpper c = false -> lowerChar c = c.
Proof. intros H. unfold lowerChar. rewrite H. reflexivity. Qed.

Lemma toLowerCase_fixed (s : string) : noUpper s = true -> toLowerCase s = s.
Proof.
  induction s as [| c r IH]; [reflexivity |].
  cbn [noUpper allChars toLowerCase]. intros H.
  apply andb_true_iff in H as [Hc Hr]. apply negb_true_iff in Hc.
  rewrite lowerChar_fixed, IH by assumption. reflexivity.
Qed.

(** [underscore] unfolds one character at a time. *)
Lemma underscore_cons (a : ascii) (tl : string) :
  underscore (String a tl)
  = match tl with
    | String b r =>
        if isLower a && isUpper b
        then String a (String "_" (String b (underscore r)))
        else String a (underscore tl)
    | EmptyString => String a EmptyString
    end.
Proof. destruct tl; reflexivity. Qed.

Lemma underscore_upper_head (b : ascii) (r : string) :
  isUpper b = true -> underscore (String b r) = String b (underscore r).
Proof.
  intros Hb. rewrite underscore_cons. destruct r as [| c r']; [reflexivity |].
  assert (Hl : isLower b = false).
  { destruct b as [[] [] [] [] [] [] [] []]; try discriminate Hb; reflexivity. }
  rewrite Hl. reflexivity.
Qed.

Lemma underscore_fixed (n : nat) :
  forall s, (String.length s < n)%nat -> noUpper s = true -> underscore s = s.
Proof.
  induction n as [| n IH]; intros s Hlen Hs; [lia |].
  destruct s as [| a tl]; [reflexivity |].
  rewrite underscore_cons. destruct tl as [| b r]; [reflexivity |].
  cbn [noUpper allChars] in Hs.
  apply andb_true_iff in Hs as [_ Hs].
  pose proof Hs as Hs'.
  apply andb_true_iff in Hs as [Hb _]. apply negb_true_iff in Hb.
  rewrite Hb, andb_false_r.
  rewrite (IH (String b r)); [reflexivity | cbn [String.length] in *; lia | exact Hs'].
Qed.

Lemma drop_lower_cons (a : ascii) (x : string) :
  dropUnderscores (toLowerCase (String a x))
  = if Ascii.eqb (lowerChar a) "_" then dropUnderscores (toLowerCase x)
    else String (lowerChar a) (dropUnderscores (toLowerCase x)).
Proof. reflexivity. Qed.

Lemma dropUnderscores_lower_underscore (n : nat) :
  forall s, (String.length s < n)%nat ->
            dropUnderscores (toLowerCase (underscore s))
            = dropUnderscores (toLowerCase s).
Proof.
  induction n as [| n IH]; intros s Hlen; [lia |].
  destruct s as [| a tl]; [reflexivity |].
  rewrite underscore_cons. destruct tl as [| b r]; [reflexivity |].
  cbn [String.length] in Hlen.
  destruct (isLower a && isUpper b) eqn:E.
  - apply andb_true_iff in E as [Ha Hb].
    cbn [toLowerCase dropUnderscores].
    change (lowerChar "_") with "_"%char. cbn [Ascii.eqb Bool.eqb].
    cbv beta iota.
    rewrite (IH r) by lia. reflexivity.
  - rewrite (drop_lower_cons a (underscore (String b r))),
      (drop_lower_cons a (String b r)).
    rewrite (IH (String b r)) by (cbn [String.length]; lia).
    reflexivity.
Qed.

End SnakeCase.

(** X12: the event type the generator derives from a label (an underscore
    between a lowercase and an uppercase letter, then lowercase; letters A to
    Z) holds no uppercase letter, is a fixed point of the derivation, equals
    the lowercased label once underscores are dropped from both, and is the
    label itself when the label has no uppercase letter. *)
Theorem snake_case_names (label : string) :
  let snake := Gen.toLowerCase (Gen.underscore label) in
  noUpper snake = true
  /\ Gen.toLowerCase (Gen.underscore snake) = snake
  /\ dropUnderscores snake = dropUnderscores (Gen.toLowerCase label)
  /\ (noUpper label = true -> snake = label).
Proof.
  intros snake. split; [| split; [| split]].
  - apply toLowerCase_noUpper.
  - pose proof (toLowerCase_noUpper (Gen.underscore label)) as H.
    fold snake in H.
    rewrite (underscore_fixed (S (String.length snake))) by (lia || exact H).
    apply toLowerCase_fixed. exact H.
  - apply (dropUnderscores_lower_underscore (S (String.length label))). lia.
  - intros H. unfold snake.
    rewrite (underscore_fixed (S (String.length label))) by (lia || exact H).
    apply toLowerCase_fixed. exact H.
Qed.

Section EventTypes.


End EventTypes.



(** X14: a non-indexed argument whose type id is in neither type table: the
    generator emits for it a block that raises "Unknown type" with the id
    when decoding reaches it, while the interpreter skips the argument and
    goes on with the next one. *)
Theorem unknown_type_argument
        (types : list TypeEntry) (self : Interp.SubsquidInkDecoder)
        (arg : ArgSpec) :
  a_indexed arg = false ->
  Gen.findType types (a_type arg) = None ->
  Interp.typeCache self !! a_type arg = None ->
  (forall fuel data topics ctx,
      exists blk,
        Gen.generateBlock types (S fuel) arg = Some blk
        /\ ((Gen.offset ctx <= length data)%nat ->
            Gen.stepBlock data topics ctx blk
            = Throw (Error ("Unknown type " ++ showZ (a_type arg)))))
  /\ (forall fuel rest eventBytes result dataOffset,
         Interp.decodeData self fuel (arg :: rest) eventBytes result dataOffset
         = Interp.decodeData self fuel rest eventBytes result dataOffset).
Proof.
  intros Hidx Hgen Hint. split.
  - intros fuel data topics ctx. eexists. split.
    + unfold Gen.generateBlock. rewrite Hidx.
      cbn [Gen.generateDecodeCall]. rewrite Hgen. reflexivity.
    + intros Hoff. cbn [Gen.stepBlock].
      replace (Gen.offset ctx <=? length data)%nat with true
        by (symmetry; apply Nat.leb_le; exact Hoff).
      reflexivity.
  - intros fuel rest eventBytes result dataOffset.
    cbn [Interp.decodeData]. rewrite Hidx, Hint. reflexivity.
Qed.

Lemma unknown_type_argument_witness :
  Gen.generateBlock exampleTypes 1 (mkArg "extra" 42 false)
  = Some (Gen.BData "extra" (Gen.CAssertFalse "Unknown type 42"))
  /\ Gen.stepBlock [x01] [] (Gen.mkCtx [] 0 1)
       (Gen.BData "extra" (Gen.CAssertFalse "Unknown type 42"))
     = Throw (Error "Unknown type 42")
  /\ Interp.decodeData exampleDecoder 3
       [mkArg "extra" 42 false; mkArg "guess" 3 false] [x2c; x01] [] 0
     = Ok [("guess", VNum 300)].
Proof.
  destruct (unknown_type_argument exampleTypes exampleDecoder
              (mkArg "extra" 42 false) eq_refl eq_refl eq_refl) as [Hg Hi].
  split; [reflexivity |]. split.
  - destruct (Hg 0%nat [x01] [] (Gen.mkCtx [] 0 1)) as (blk & Hb & Hs).
    injection Hb as <-. apply Hs. simpl. lia.
  - rewrite Hi. reflexivity.
Defined.

Section Sanitize.

Import Cli.

Lemma sanitize_char (c : ascii) :
  isNameChar (if isNameChar c then c else "_"%char) = true.
Proof. destruct (isNameChar c) eqn:E; [exact E | reflexivity]. Qed.

Lemma sanitize_all (s : string) :
  allChars isNameChar (sanitizeContractName s) = true.
Proof.
  induction s as [| c r IH]; [reflexivity |].
  cbn [sanitizeContractName allChars]. rewrite sanitize_char. exact IH.
Qed.

Lemma sanitize_fixed (s : string) :
  allChars isNameChar s = true -> sanitizeContractName s = s.
Proof.
  induction s as [| c r IH]; [reflexivity |].
  cbn [allChars sanitizeContractName]. intros H.
  apply andb_true_iff in H as [Hc Hr]. rewrite Hc, IH by exact Hr. reflexivity.
Qed.

Lemma sanitize_length (s : string) :
  String.length (sanitizeContractName s) = String.length s.
Proof.
  induction s as [| c r IH]; [reflexivity |].
  cbn [sanitizeContractName String.length]. rewrite IH. reflexivity.
Qed.

Lemma sanitize_fixed_inv (s : string) :
  sanitizeContractName s = s -> allChars isNameChar s = true.
Proof.
  intros H. rewrite <- H. apply sanitize_all.
Qed.

End Sanitize.

(** X15: [sanitizeContractName] returns a name of the same length made only
    of the characters a-z, A-Z, 0-9, underscore and hyphen; applying it twice
    changes nothing more, and it leaves a name unchanged exactly when the
    name was already made of those characters. *)
Theorem sanitizeContractName_safe (name : string) :
  allChars Cli.isNameChar (Cli.sanitizeContractName name) = true
  /\ String.length (Cli.sanitizeContractName name) = String.length name
  /\ Cli.sanitizeContractName (Cli.sanitizeContractName name)
     = Cli.sanitizeContractName name
  /\ (Cli.sanitizeContractName name = name
      <-> allChars Cli.isNameChar name = true).
Proof.
  split; [apply sanitize_all |].
  split; [apply sanitize_length |].
  split; [apply sanitize_fixed, sanitize_all |].
  split; [apply sanitize_fixed_inv | apply sanitize_fixed].
Qed.

(** ** The command line of the generator *)

Section ParseArgsLemmas.

Import Args.

Context {Num : Type} (Number : option string -> Num).

(** A field that only the flag [flag] writes keeps its value when the
    flag does not occur among the arguments. *)
Lemma parseLoop_keeps {X} (f : Args Num -> X) (flag : string) :
  (forall a v out, a <> flag -> f (fst (step Num Number a v out)) = f out) ->
  forall n argv out,
    (length argv <= n)%nat -> ~ In flag argv ->
    f (parseLoop Num Number argv out) = f out.
Proof.
  intros Hstep. induction n as [| n IH]; intros argv out Hlen Hnot.
  - destruct argv; [reflexivity | cbn in Hlen; lia].
  - destruct argv as [| a rest]; [reflexivity |].
    cbn [parseLoop].
    assert (Ha : a <> flag) by (intros ->; apply Hnot; left; reflexivity).
    specialize (Hstep a (head rest) out Ha).
    destruct (step Num Number a (head rest) out) as [out' skip].
    cbn [fst] in Hstep. cbn [length] in Hlen.
    destruct skip.
    + destruct rest as [| v rest']; [exact Hstep |].
      rewrite IH; [exact Hstep | cbn [length] in Hlen; lia |].
      intros Hin. apply Hnot. right. right. exact Hin.
    + rewrite IH; [exact Hstep | lia |].
      intros Hin. apply Hnot. right. exact Hin.
Qed.

Ltac step_cases :=
  let a := fresh "a" in
  let v := fresh "v" in
  let o := fresh "o" in
  let Ha := fresh "Ha" in
  intros a v o Ha; unfold step;
  repeat match goal with
         | |- context [String.eqb a ?k] =>
             destruct (String.eqb_spec a k); [try congruence; reflexivity |]
         end;
  reflexivity.

Lemma keeps_config argv out :
  ~ In "--config" argv ->
  config Num (parseLoop Num Number argv out) = config Num out.
Proof.
  apply (parseLoop_keeps (config Num) "--config" ltac:(step_cases)
                         (length argv)). lia.
Qed.

Lemma keeps_meta argv out :
  ~ In "--meta" argv -> meta Num (parseLoop Num Number argv out) = meta Num out.
Proof.
  apply (parseLoop_keeps (meta Num) "--meta" ltac:(step_cases) (length argv)). lia.
Qed.

Lemma keeps_contractName argv out :
  ~ In "--contractName" argv ->
  contractName Num (parseLoop Num Number argv out) = contractName Num out.
Proof.
  apply (parseLoop_keeps (contractName Num) "--contractName" ltac:(step_cases)
                         (length argv)). lia.
Qed.

Lemma keeps_versionTag argv out :
  ~ In "--versionTag" argv ->
  versionTag Num (parseLoop Num Number argv out) = versionTag Num out.
Proof.
  apply (parseLoop_keeps (versionTag Num) "--versionTag" ltac:(step_cases)
                         (length argv)). lia.
Qed.

Lemma keeps_outRoot argv out :
  ~ In "--outRoot" argv ->
  outRoot Num (parseLoop Num Number argv out) = outRoot Num out.
Proof.
  apply (parseLoop_keeps (outRoot Num) "--outRoot" ltac:(step_cases)
                         (length argv)). lia.
Qed.

Lemma keeps_register argv out :
  ~ In "--register" argv ->
  register Num (parseLoop Num Number argv out) = register Num out.
Proof.
  apply (parseLoop_keeps (register Num) "--register" ltac:(step_cases)
                         (length argv)). lia.
Qed.

Lemma keeps_addresses argv out :
  ~ In "--address" argv ->
  addresses Num (parseLoop Num Number argv out) = addresses Num out.
Proof.
  apply (parseLoop_keeps (addresses Num) "--address" ltac:(step_cases)
                         (length argv)). lia.
Qed.

End ParseArgsLemmas.

(** X16: [parseArgs], for any [Number]: when no argument after the first two
    is "--config" and one of "--meta", "--contractName", "--versionTag" does
    not occur among them, it raises "Missing required args"; when it returns
    options, either [config] is a non-empty string or [meta], [contractName]
    and [versionTag] all are, and [outRoot] is "src/types/ink", [register] is
    false and [addresses] is empty unless their flag occurs. *)
Theorem parseArgs_required {Num : Type} (Number : option string -> Num)
        (argv : list string) :
  let given_flags := skipn 2 argv in
  (~ In "--config" given_flags ->
   ~ In "--meta" given_flags \/ ~ In "--contractName" given_flags
   \/ ~ In "--versionTag" given_flags ->
   Args.parseArgs Num Number argv = Throw Args.missingArgs)
  /\ (forall out,
         Args.parseArgs Num Number argv = Ok out ->
         (Args.given (Args.config Num out) = true
          \/ (Args.given (Args.meta Num out) = true
              /\ Args.given (Args.contractName Num out) = true
              /\ Args.given (Args.versionTag Num out) = true))
         /\ (~ In "--outRoot" given_flags ->
             Args.outRoot Num out = Some "src/types/ink")
         /\ (~ In "--register" given_flags -> Args.register Num out = false)
         /\ (~ In "--address" given_flags -> Args.addresses Num out = [])).
Proof.
  intros given_flags. unfold Args.parseArgs. fold given_flags.
  split.
  - intros Hc Hm. rewrite keeps_config by exact Hc. cbn [Args.initial Args.config Args.given].
    destruct Hm as [Hm | [Hm | Hm]].
    + rewrite keeps_meta by exact Hm. reflexivity.
    + rewrite keeps_contractName by exact Hm. cbn [Args.initial Args.contractName Args.given].
      rewrite orb_true_r. reflexivity.
    + rewrite keeps_versionTag by exact Hm. cbn [Args.initial Args.versionTag Args.given].
      rewrite orb_true_r. reflexivity.
  - intros out H.
    assert (Hout : out = Args.parseLoop Num Number given_flags (Args.initial Num)).
    { destruct (Args.given (Args.config Num _)); [congruence |].
      destruct (_ || _); [discriminate | congruence]. }
    split; [| split; [| split]].
    + rewrite <- Hout in H.
      destruct (Args.given (Args.config Num out)); [left; reflexivity |].
      right.
      destruct (Args.given (Args.meta Num out));
        destruct (Args.given (Args.contractName Num out));
        destruct (Args.given (Args.versionTag Num out));
        try discriminate H; repeat split.
    + intros Hn. rewrite Hout, keeps_outRoot by exact Hn. reflexivity.
    + intros Hn. rewrite Hout, keeps_register by exact Hn. reflexivity.
    + intros Hn. rewrite Hout, keeps_addresses by exact Hn. reflexivity.
Qed.

(** ** The registry files of the generator *)

Section MergeLemmas.

Import RegistryGen.

Lemma insertAsc_perm (e : Entry) (l : list Entry) :
  Permutation (insertAsc e l) (e :: l).
Proof.
  induction l as [| x r IH]; [reflexivity |].
  cbn [insertAsc]. destruct (fromOrM1 e <=? fromOrM1 x); [reflexivity |].
  rewrite IH. apply perm_swap.
Qed.

Lemma sortAsc_perm (l : list Entry) : Permutation (sortAsc l) l.
Proof.
  induction l as [| x r IH]; [reflexivity |].
  cbn [sortAsc fold_right]. fold (sortAsc r).
  rewrite insertAsc_perm. apply perm_skip. exact IH.
Qed.

Lemma insertAsc_sorted (e : Entry) (l : list Entry) :
  StronglySorted (fun a b => fromOrM1 a <= fromOrM1 b) l ->
  StronglySorted (fun a b => fromOrM1 a <= fromOrM1 b) (insertAsc e l).
Proof.
  induction l as [| x r IH]; intros Hs.
  - constructor; constructor.
  - cbn [insertAsc]. destruct (Z.leb_spec (fromOrM1 e) (fromOrM1 x)) as [Hle | Hgt].
    + constructor; [exact Hs |].
      apply StronglySorted_inv in Hs as [_ Hall].
      constructor; [exact Hle |].
      apply List.Forall_forall. intros a Ha.
      pose proof (proj1 (List.Forall_forall _ _) Hall a Ha). cbn in *. lia.
    + apply StronglySorted_inv in Hs as [Hr Hall].
      constructor; [apply IH; exact Hr |].
      apply List.Forall_forall. intros a Ha.
      apply (Permutation_in _ (insertAsc_perm e r)) in Ha.
      destruct Ha as [<- | Ha]; [lia |].
      apply (proj1 (List.Forall_forall _ _) Hall a Ha).
Qed.

Lemma sortAsc_sorted (l : list Entry) :
  StronglySorted (fun a b => fromOrM1 a <= fromOrM1 b) (sortAsc l).
Proof.
  induction l as [| x r IH]; [constructor |].
  cbn [sortAsc fold_right]. apply insertAsc_sorted. exact IH.
Qed.

Lemma upsert_In_new (l : list Entry) (new : Entry) : In new (upsert l new).
Proof.
  induction l as [| e r IH]; [left; reflexivity |].
  cbn [upsert]. destruct (String.eqb (version e) (version new));
    [left; reflexivity | right; exact IH].
Qed.

Lemma upsert_keeps (l : list Entry) (new e : Entry) :
  In e l -> version e <> version new -> In e (upsert l new).
Proof.
  induction l as [| x r IH]; intros Hin Hne; [destruct Hin |].
  cbn [upsert]. destruct (String.eqb_spec (version x) (version new)) as [Heq | Hd].
  - destruct Hin as [<- | Hin]; [congruence | right; exact Hin].
  - destruct Hin as [<- | Hin]; [left; reflexivity | right; apply IH; assumption].
Qed.

Lemma upsert_from (l : list Entry) (new e : Entry) :
  In e (upsert l new) -> e = new \/ In e l.
Proof.
  induction l as [| x r IH]; cbn [upsert]; intros Hin.
  - destruct Hin as [<- | []]. left. reflexivity.
  - destruct (String.eqb (version x) (version new)).
    + destruct Hin as [<- | Hin]; [left; reflexivity | right; right; exact Hin].
    + destruct Hin as [<- | Hin]; [right; left; reflexivity |].
      destruct (IH Hin) as [-> | H]; [left; reflexivity | right; right; exact H].
Qed.

Lemma upsert_length (l : list Entry) (new : Entry) :
  length (upsert l new)
  = if existsb (fun e => String.eqb (version e) (version new)) l
    then length l else S (length l).
Proof.
  induction l as [| x r IH]; [reflexivity |].
  cbn [upsert existsb]. destruct (String.eqb (version x) (version new));
    cbn [orb length]; [reflexivity |].
  rewrite IH. destruct (existsb _ r); reflexivity.
Qed.

Lemma upsert_absent (l : list Entry) (new : Entry) :
  (forall e, In e l -> version e <> version new) ->
  upsert l new = (l ++ [new])%list.
Proof.
  induction l as [| x r IH]; intros Hno; [reflexivity |].
  cbn [upsert app].
  destruct (String.eqb_spec (version x) (version new)) as [E | _].
  - exfalso. apply (Hno x); [left; reflexivity | exact E].
  - rewrite IH; [reflexivity |]. intros e He. apply Hno. right. exact He.
Qed.

Lemma upsert_first (pre post : list Entry) (old new : Entry) :
  (forall e, In e pre -> version e <> version new) ->
  version old = version new ->
  upsert (pre ++ old :: post) new = (pre ++ new :: post)%list.
Proof.
  induction pre as [| x r IH]; intros Hno Hold; cbn [upsert app].
  - rewrite Hold, String.eqb_refl. reflexivity.
  - destruct (String.eqb_spec (version x) (version new)) as [E | _].
    + exfalso. apply (Hno x); [left; reflexivity | exact E].
    + rewrite IH; [reflexivity | | exact Hold].
      intros e He. apply Hno. right. exact He.
Qed.

Lemma upsert_versions (l : list Entry) (new : Entry) :
  map version (upsert l new)
  = if existsb (fun e => String.eqb (version e) (version new)) l
    then map version l else (map version l ++ [version new])%list.
Proof.
  induction l as [| x r IH]; [reflexivity |].
  cbn [upsert existsb map app].
  destruct (String.eqb_spec (version x) (version new)) as [E | Hne];
    cbn [orb map].
  - rewrite E. reflexivity.
  - rewrite IH. destruct (existsb _ r); reflexivity.
Qed.

Lemma upsert_distinct (l : list Entry) (new : Entry) :
  List.NoDup (map version l) -> List.NoDup (map version (upsert l new)).
Proof.
  intros Hnd. rewrite upsert_versions.
  destruct (existsb _ l) eqn:E; [exact Hnd |].
  apply (Permutation_NoDup (l := version new :: map version l)).
  - apply Permutation_cons_append.
  - constructor; [| exact Hnd].
    intros Hin. apply in_map_iff in Hin as (e & He & Hin).
    assert (Ht : existsb (fun e => String.eqb (version e) (version new)) l = true).
    { apply existsb_exists. exists e. split; [exact Hin |].
      apply String.eqb_eq. exact He. }
    congruence.
Qed.

Lemma upsert_from_distinct (l : list Entry) (new e : Entry) :
  List.NoDup (map version l) ->
  In e (upsert l new) -> e = new \/ (In e l /\ version e <> version new).
Proof.
  induction l as [| x r IH]; cbn [upsert map]; intros Hnd Hin.
  - destruct Hin as [<- | []]. left. reflexivity.
  - apply List.NoDup_cons_iff in Hnd as [Hx Hr].
    destruct (String.eqb_spec (version x) (version new)) as [E | Hne].
    + destruct Hin as [<- | Hin]; [left; reflexivity |].
      right. split; [right; exact Hin |].
      intros Heq. apply Hx. rewrite E, <- Heq. apply in_map. exact Hin.
    + destruct Hin as [<- | Hin]; [right; split; [left; reflexivity | exact Hne] |].
      destruct (IH Hr Hin) as [-> | [H1 H2]];
        [left; reflexivity | right; split; [right; exact H1 | exact H2]].
Qed.

End MergeLemmas.

(** X17: the entries [generateMergedRegistryTs] writes are sorted by [from]
    ascending (absent counted as -1) and hold the new entry and every
    existing entry of another version.  They are the new entry with all the
    existing ones when no existing entry has the new version, and otherwise
    the new entry with the existing ones less the first entry of the new
    version: [findIndex] replaces the first match only, so a later entry of
    that version stays.  When the existing versions are pairwise distinct
    they remain so, and the entries are the new one, every existing entry
    of another version and nothing else.  There is one entry more than
    before exactly when no existing entry had the new version. *)
Theorem merged_registry_entries
        (existing : list RegistryGen.Entry) (newVersion : string)
        (newAddresses : option (list string)) (newFrom : option Z)
        (newTo : RegistryGen.ToBlock) :
  let new := RegistryGen.mkEntry newVersion newAddresses newFrom newTo in
  let merged :=
    RegistryGen.mergeEntries existing newVersion newAddresses newFrom newTo in
  StronglySorted (fun a b => RegistryGen.fromOrM1 a <= RegistryGen.fromOrM1 b)
                 merged
  /\ In new merged
  /\ (forall e, In e existing -> RegistryGen.version e <> newVersion ->
                In e merged)
  /\ ((forall e, In e existing -> RegistryGen.version e <> newVersion) ->
      Permutation merged (new :: existing))
  /\ (forall (pre post : list RegistryGen.Entry) (old : RegistryGen.Entry),
         existing = (pre ++ old :: post)%list ->
         (forall e, In e pre -> RegistryGen.version e <> newVersion) ->
         RegistryGen.version old = newVersion ->
         Permutation merged (new :: pre ++ post))
  /\ (List.NoDup (map RegistryGen.version existing) ->
      List.NoDup (map RegistryGen.version merged)
      /\ forall e, In e merged ->
                   e = new
                   \/ (In e existing /\ RegistryGen.version e <> newVersion))
  /\ length merged
     = (if existsb (fun e => String.eqb (RegistryGen.version e) newVersion)
                   existing
        then length existing else S (length existing)).
Proof.
  intros new merged. unfold merged, RegistryGen.mergeEntries. fold new.
  pose proof (RegistryGen_sort := sortAsc_perm (RegistryGen.upsert existing new)).
  split; [apply sortAsc_sorted |].
  split; [apply (Permutation_in _ (Permutation_sym RegistryGen_sort)),
            upsert_In_new |].
  split; [intros e Hin Hne;
          apply (Permutation_in _ (Permutation_sym RegistryGen_sort));
          apply upsert_keeps; assumption |].
  split.
  { intros Hno. rewrite RegistryGen_sort, (upsert_absent existing new Hno).
    symmetry. apply Permutation_cons_append. }
  split.
  { intros pre post old -> Hno Hold.
    rewrite RegistryGen_sort, (upsert_first pre post old new Hno Hold).
    symmetry. apply Permutation_middle. }
  split.
  { intros Hnd. split.
    - apply (Permutation_NoDup
               (l := map RegistryGen.version (RegistryGen.upsert existing new))).
      + apply Permutation_map. symmetry. exact RegistryGen_sort.
      + apply upsert_distinct. exact Hnd.
    - intros e Hin. apply (upsert_from_distinct existing new e Hnd).
      apply (Permutation_in _ RegistryGen_sort). exact Hin. }
  rewrite (Permutation_length RegistryGen_sort). apply upsert_length.
Qed.

Section ResolveLemmas.

Import Registry.

Lemma filter_In_iff {A} (f : A -> bool) (l : list A) (x : A) :
  In x (List.filter f l) <-> In x l /\ f x = true.
Proof. apply List.filter_In. Qed.

Lemma resolveDecoder_head (registry : list VersionEntry) (address : string) (h : Z)
      (n : VersionEntry) :
  In n registry ->
  addressMatches address n = true ->
  rangeMatches h n = true ->
  exists e, In e registry
            /\ fromOr0 n <= fromOr0 e
            /\ resolveDecoder registry address h = Ok (version e).
Proof.
  intros Hin Ha Hr. unfold resolveDecoder.
  set (byAddress := List.filter (addressMatches address) registry).
  set (ranged := List.filter (rangeMatches h) byAddress).
  assert (Hn : In n ranged).
  { apply filter_In_iff. split; [| exact Hr].
    apply filter_In_iff. split; assumption. }
  assert (Hne : ranged <> []) by (intros E; rewrite E in Hn; destruct Hn).
  replace (0 <? length ranged)%nat with true
    by (symmetry; apply Nat.ltb_lt; destruct ranged; [congruence | cbn; lia]).
  destruct (sortDesc_head ranged Hne) as (before & e & after & rest & Hl & Hs & Hb & Hafter).
  rewrite Hs.
  assert (He : In e registry).
  { assert (In e ranged) by (rewrite Hl; apply in_or_app; right; left; reflexivity).
    apply filter_In_iff in H as [H _]. apply filter_In_iff in H as [H _]. exact H. }
  rewrite (existsb_version e registry He).
  exists e. split; [exact He |]. split; [| reflexivity].
  rewrite Hl in Hn. apply in_app_or in Hn as [Hn | [<- | Hn]].
  - specialize (Hb n Hn). lia.
  - lia.
  - apply (Hafter n Hn).
Qed.

End ResolveLemmas.

(** X18: registering a version then routes to it: after
    [generateMergedRegistryTs] has added a version with a non-empty address
    list and a positive [from] above the [from] of every entry of another
    version, [resolveDecoder] on the registry written returns that version
    for each of its addresses at every height from [from] on that lies
    before its [to], if it has one. *)
Theorem newest_version_resolves
        (existing : list RegistryGen.Entry) (newVersion : string)
        (a : string) (l : list string) (f : Z) (newTo : RegistryGen.ToBlock)
        (address : string) (h : Z) :
  In address (a :: l) ->
  0 < f <= h ->
  match newTo with RegistryGen.ToHeight t => h < t | _ => True end ->
  (forall e, In e existing -> RegistryGen.version e <> newVersion ->
             default 0 (RegistryGen.from e) < f) ->
  Registry.resolveDecoder
    (RegistryGen.generateMergedRegistryTs existing newVersion (Some (a :: l))
                                          (Some f) newTo)
    address h
  = Ok newVersion.
Proof.
  intros Haddr [Hf Hh] Hto Hold.
  set (new := RegistryGen.mkEntry newVersion (Some (a :: l)) (Some f) newTo).

  pose proof (sortAsc_perm (RegistryGen.upsert existing new)) as Hperm.
  assert (Hnew : In (RegistryGen.emit new)
                    (RegistryGen.generateMergedRegistryTs existing newVersion
                       (Some (a :: l)) (Some f) newTo)).
  { apply in_map. apply (Permutation_in _ (Permutation_sym Hperm)).
    apply upsert_In_new. }
  destruct (resolveDecoder_head _ address h _ Hnew) as (e & He & Hge & Hres).
  - change (existsb (String.eqb address) (a :: l) = true).
    apply existsb_eqb_In. exact Haddr.
  - unfold Registry.rangeMatches, Registry.falsy. cbn.
    replace (f =? 0) with false by (symmetry; apply Z.eqb_neq; lia).
    replace (f <=? h) with true by (symmetry; apply Z.leb_le; lia).
    destruct newTo as [| | t]; try reflexivity. cbn.
    replace (h <? t) with true by (symmetry; apply Z.ltb_lt; lia).
    apply orb_true_r.
  - rewrite Hres. f_equal.
    apply in_map_iff in He as (g & <- & Hg). cbn [RegistryGen.emit Registry.version].
    apply (Permutation_in _ Hperm) in Hg.
    apply upsert_from in Hg as [-> | Hg]; [reflexivity |].
    destruct (String.eqb_spec (RegistryGen.version g) newVersion) as [E | Hne];
      [exact E |].
    specialize (Hold g Hg Hne).
    unfold Registry.fromOr0 in Hge. cbn in Hge. lia.
Qed.

Lemma newest_version_resolves_witness :
  RegistryGen.generateMergedRegistryTs
    [RegistryGen.mkEntry "v0.1.0" (Some ["0xaa"]) (Some 100) RegistryGen.ToNull]
    "v0.2.0" (Some ["0xaa"]) (Some 500) RegistryGen.ToNull
  = [ Registry.mkVersion "v0.1.0" (Some ["0xaa"]) None (Some 100) None;
      Registry.mkVersion "v0.2.0" (Some ["0xaa"]) None (Some 500) None ]
  /\ Registry.resolveDecoder
       (RegistryGen.generateMergedRegistryTs
          [RegistryGen.mkEntry "v0.1.0" (Some ["0xaa"]) (Some 100) RegistryGen.ToNull]
          "v0.2.0" (Some ["0xaa"]) (Some 500) RegistryGen.ToNull)
       "0xaa" 500
     = Ok "v0.2.0".
Proof.
  split; [reflexivity |].
  apply (newest_version_resolves
           [RegistryGen.mkEntry "v0.1.0" (Some ["0xaa"]) (Some 100) RegistryGen.ToNull]
           "v0.2.0" "0xaa" [] 500 RegistryGen.ToNull "0xaa" 500).
  - left. reflexivity.
  - lia.
  - exact I.
  - intros e [<- | []] _. simpl. lia.
Defined.

(** X19: on the registry [generateRegistryTs] writes, which has one
    entry, [resolveDecoder] never looks at the block height: it returns the
    version when the address list is absent, empty or holds the address, and
    raises "No decoder version found" otherwise.  The registry of
    guess_the_number is such a registry, so [decodeEventWithRouting] decodes
    with [decodeEvent] at every height for the registered address and
    raises for every other address. *)
Theorem single_version_registry
        (versionTag : string) (addresses : option (list string))
        (from : option Z) (to : RegistryGen.ToBlock) (address : string)
        (signatureHex dataHex : string) (topics : list string) (h : Z) :
  Registry.resolveDecoder
    (RegistryGen.generateRegistryTs versionTag addresses from to) address h
  = (if match addresses with
        | Some (a :: l) => existsb (String.eqb address) (a :: l)
        | _ => true
        end
     then Ok versionTag
     else Throw (Registry.noDecoder address))
  /\ Registry.registry
     = RegistryGen.generateRegistryTs
         "v0.1.0" (Some ["0xe75cbd47620dbb2053cf2a98d06840f06baaf141"])
         (Some 1934744) RegistryGen.ToNull
  /\ Registry.decodeEventWithRouting signatureHex dataHex topics address h
     = (if String.eqb address "0xe75cbd47620dbb2053cf2a98d06840f06baaf141"
        then Events.decodeEvent signatureHex dataHex topics
        else Throw (Registry.noDecoder address)).
Proof.
  assert (Hone : forall e : Registry.VersionEntry,
             Registry.resolveDecoder [e] address h
             = if Registry.addressMatches address e then Ok (Registry.version e)
               else Throw (Registry.noDecoder address)).
  { intros e. unfold Registry.resolveDecoder. cbn [List.filter map existsb].
    destruct (Registry.addressMatches address e); cbn [List.filter];
      [| reflexivity].
    destruct (Registry.rangeMatches h e); cbn [length Nat.ltb Nat.leb];
      cbn [Registry.sortDesc fold_right Registry.insertDesc];
      rewrite String.eqb_refl; reflexivity. }
  split; [| split].
  - unfold RegistryGen.generateRegistryTs. rewrite Hone.
    unfold Registry.addressMatches.
    destruct addresses as [[| a l] |]; reflexivity.
  - reflexivity.
  - unfold Registry.decodeEventWithRouting, Registry.registry. rewrite (Hone _).
    unfold Registry.addressMatches. cbn [Registry.addresses existsb].
    rewrite orb_false_r.
    destruct (String.eqb address "0xe75cbd47620dbb2053cf2a98d06840f06baaf141");
      reflexivity.
Qed.

(** ** The interpreter next to the generated code *)

Section Bridge.

Lemma at_getByte (buf : bytes) (i : nat) :
  Interp.at_ buf (Z.of_nat i) = getByte buf i.
Proof.
  unfold Interp.at_, getByte.
  replace (Z.of_nat i <? 0) with false by (symmetry; apply Z.ltb_ge; lia).
  rewrite Nat2Z.id. reflexivity.
Qed.

Lemma at_getByte_add (buf : bytes) (i k : nat) :
  Interp.at_ buf (Z.of_nat i + Z.of_nat k) = getByte buf (i + k).
Proof. rewrite <- Nat2Z.inj_add. apply at_getByte. Qed.

Lemma intAt_getInt (buf : bytes) (i : nat) :
  Interp.intAt buf (Z.of_nat i) = getInt buf i.
Proof. unfold Interp.intAt, getInt. rewrite at_getByte. reflexivity. Qed.

Lemma intAt_getInt_add (buf : bytes) (i : nat) (k : Z) :
  0 <= k -> Interp.intAt buf (Z.of_nat i + k) = getInt buf (i + Z.to_nat k).
Proof.
  intros Hk. rewrite <- intAt_getInt. f_equal. lia.
Qed.

Lemma interp_bigLoop (buf : bytes) (base : nat) :
  forall n i acc,
    Interp.bigLoop buf (Z.of_nat base) i n acc = bigLoop buf base i n acc.
Proof.
  induction n as [| n IH]; intros i acc; [reflexivity |].
  cbn [Interp.bigLoop bigLoop]. rewrite at_getByte_add.
  unfold bigIntAt. destruct (getByte buf (base + i)) as [x |]; [| reflexivity].
  cbn [bind]. rewrite IH. do 3 f_equal. lia.
Qed.

Lemma interp_readU16 (buf : bytes) (off : nat) :
  Interp.readU16 buf (Z.of_nat off) = value (readU16 buf off).
Proof.
  unfold Interp.readU16, readU16. cbn [value].
  rewrite intAt_getInt, (intAt_getInt_add buf off 1) by lia. reflexivity.
Qed.

(** The 32-bit combination as a signed number. *)
Lemma or32_signed (a b c d : Z) :
  0 <= a < 256 -> 0 <= b < 256 -> 0 <= c < 256 -> 0 <= d < 256 ->
  js_or (js_or (js_or a (js_shl b 8)) (js_shl c 16)) (js_shl d 24)
  = signedOf 32 (a + 256 * b + 65536 * c + 16777216 * d).
Proof.
  intros Ha Hb Hc Hd.
  rewrite or16 by assumption.
  rewrite (js_shl_byte c 16) by lia.
  rewrite (js_or_disjoint (a + 256 * b) c 16) by lia.
  assert (Hsh : js_shl d 24 = (if d <? 128 then d else d - 256) * 2 ^ 24).
  { unfold js_shl. rewrite (int32_small d) by lia.
    rewrite Z.shiftl_mul_pow2 by lia. unfold int32.
    destruct (d <? 128) eqn:E.
    - apply Z.ltb_lt in E. rewrite Z.mod_small; lia.
    - apply Z.ltb_ge in E.
      replace (d * 2 ^ 24 + 2 ^ 31) with ((d * 2 ^ 24 - 2 ^ 31) + 1 * 2 ^ 32) by lia.
      rewrite Z.mod_add by lia. rewrite Z.mod_small; lia. }
  rewrite Hsh.
  rewrite (js_or_disjoint (a + 256 * b + c * 2 ^ 16)) by (destruct (d <? 128) eqn:E;
    [apply Z.ltb_lt in E | apply Z.ltb_ge in E]; lia).
  unfold signedOf. change (2 ^ (32 - 1)) with 2147483648.
  destruct (d <? 128) eqn:E; [apply Z.ltb_lt in E | apply Z.ltb_ge in E].
  - replace (a + 256 * b + 65536 * c + 16777216 * d <? 2147483648) with true
      by (symmetry; apply Z.ltb_lt; lia). lia.
  - replace (a + 256 * b + 65536 * c + 16777216 * d <? 2147483648) with false
      by (symmetry; apply Z.ltb_ge; lia). lia.
Qed.

Lemma readU32_digits (buf : bytes) (off : nat) :
  value (readU32 buf off)
  = getInt buf off + 256 * getInt buf (off + 1) + 65536 * getInt buf (off + 2)
    + 16777216 * getInt buf (off + 3).
Proof.
  unfold readU32, js_ushr. cbn [value].
  rewrite or32 by apply getInt_range. apply Z.shiftr_0_r.
Qed.

Lemma interp_readU32 (buf : bytes) (off : nat) :
  Interp.readU32 buf (Z.of_nat off) = signedOf 32 (value (readU32 buf off)).
Proof.
  unfold Interp.readU32.
  rewrite intAt_getInt, (intAt_getInt_add buf off 1), (intAt_getInt_add buf off 2),
    (intAt_getInt_add buf off 3) by lia.
  rewrite or32_signed by apply getInt_range.
  rewrite readU32_digits. reflexivity.
Qed.

Lemma signedOf_range (w u : Z) :
  1 <= w -> 0 <= u < 2 ^ w -> - 2 ^ (w - 1) <= signedOf w u < 2 ^ (w - 1).
Proof.
  intros Hw Hu. unfold signedOf.
  assert (Hp : 2 ^ w = 2 * 2 ^ (w - 1)).
  { replace w with (1 + (w - 1)) at 1 by lia. rewrite Z.pow_add_r by lia.
    reflexivity. }
  destruct (Z.ltb_spec u (2 ^ (w - 1))); lia.
Qed.

Lemma signedOf_mod (w u : Z) :
  1 <= w -> 0 <= u < 2 ^ w -> signedOf w u mod 2 ^ w = u.
Proof.
  intros Hw Hu. unfold signedOf. destruct (u <? 2 ^ (w - 1)).
  - apply Z.mod_small. exact Hu.
  - replace (u - 2 ^ w) with (u + (-1) * 2 ^ w) by lia.
    rewrite Z.mod_add by lia. apply Z.mod_small. exact Hu.
Qed.

End Bridge.

(** X20: the interpreter's [readU32] has no [>>> 0]: it returns the
    two's complement reading of the four little-endian bytes, between -2^31
    and 2^31 - 1, so [readI32] equals it and a u32 of 2^31 or more is decoded
    as that value less 2^32, where the generated code returns the unsigned
    value. *)
Theorem interpreter_u32_is_signed (buf : bytes) (off : nat) :
  let u := leValue (slice buf off (off + 4)) in
  value (readU32 buf off) = u
  /\ Interp.readU32 buf (Z.of_nat off) = signedOf 32 u
  /\ Interp.readI32 buf (Z.of_nat off) = Interp.readU32 buf (Z.of_nat off)
  /\ - 2 ^ 31 <= Interp.readU32 buf (Z.of_nat off) < 2 ^ 31
  /\ Interp.decodePrimitive buf (Z.of_nat off) "u32"
     = Ok (VNum (signedOf 32 u), Z.of_nat off + 4)
  /\ Gen.eval (Gen.primitiveCode "u32") buf off = Ok (VNum u, (off + 4)%nat)
  /\ (2 ^ 31 <= u -> signedOf 32 u = u - 2 ^ 32).
Proof.
  intros u.
  assert (Hu : value (readU32 buf off) = u) by (rewrite readU32_le; reflexivity).
  assert (Hr : 0 <= u < 2 ^ 32) by apply (leValue_slice_bound buf off 4).
  assert (Hs : Interp.readU32 buf (Z.of_nat off) = signedOf 32 u)
    by (rewrite interp_readU32, Hu; reflexivity).
  pose proof (signedOf_range 32 u ltac:(lia) Hr) as Hrange.
  change (2 ^ (32 - 1)) with (2 ^ 31) in Hrange.
  split; [exact Hu |]. split; [exact Hs |].
  split.
  { unfold Interp.readI32. rewrite Hs.
    replace (2147483647 <? signedOf 32 u) with false
      by (symmetry; apply Z.ltb_ge; lia).
    reflexivity. }
  split; [rewrite Hs; exact Hrange |].
  split; [cbn; rewrite Hs; reflexivity |].
  split; [change (Gen.primitiveCode "u32") with Gen.CReadU32; cbn [Gen.eval];
          rewrite Hu, readU32_le; reflexivity |].
  intros Hge. unfold signedOf.
  replace (u <? 2 ^ (32 - 1)) with false by (symmetry; apply Z.ltb_ge; lia).
  reflexivity.
Qed.

Section SignedReaders.

Lemma interp_readU64 (buf : bytes) (off : nat) :
  Interp.readU64 buf (Z.of_nat off)
  = let! r := readU64 buf off in Ok (value r).
Proof.
  unfold Interp.readU64, readU64. rewrite interp_bigLoop.
  destruct (bigLoop buf off 0 8 0); reflexivity.
Qed.

Lemma interp_readU128 (buf : bytes) (off : nat) :
  Interp.readU128 buf (Z.of_nat off)
  = let! r := readU128 buf off in Ok (value r).
Proof.
  unfold Interp.readU128, readU128. rewrite interp_bigLoop.
  destruct (bigLoop buf off 0 16 0); reflexivity.
Qed.

Lemma gt_signedOf (w u : Z) :
  (if 2 ^ (w - 1) - 1 <? u then u - 2 ^ w else u) = signedOf w u.
Proof.
  unfold signedOf.
  destruct (Z.ltb_spec (2 ^ (w - 1) - 1) u), (Z.ltb_spec u (2 ^ (w - 1)));
    try reflexivity; lia.
Qed.

End SignedReaders.

(** X21: the interpreter's [readI8], [readI16], [readI64] and [readI128]
    return the two's complement reading of the 1, 2, 8 and 16 little-endian
    bytes at the offset (for [readI16], a missing byte counting as 0); past
    the end of the buffer [readI8] returns [undefined], and the last two
    raise the TypeError of [BigInt(undefined)] when a byte is missing.  A two's complement reading of [w] bits lies between -2^(w-1)
    and 2^(w-1) - 1 and is congruent to the unsigned value modulo 2^w. *)
Theorem interpreter_signed_readers (buf : bytes) (off : nat) :
  (forall x, getByte buf off = Some x ->
             Interp.readI8 buf (Z.of_nat off) = VNum (signedOf 8 (byteZ x)))
  /\ Interp.readI16 buf (Z.of_nat off)
     = signedOf 16 (leValue (slice buf off (off + 2)))
  /\ ((off + 8 <= length buf)%nat ->
      Interp.readI64 buf (Z.of_nat off)
      = Ok (signedOf 64 (leValue (slice buf off (off + 8)))))
  /\ ((off + 16 <= length buf)%nat ->
      Interp.readI128 buf (Z.of_nat off)
      = Ok (signedOf 128 (leValue (slice buf off (off + 16)))))
  /\ ((length buf < off + 8)%nat ->
      Interp.readI64 buf (Z.of_nat off) = Throw undefinedBigInt)
  /\ ((length buf < off + 16)%nat ->
      Interp.readI128 buf (Z.of_nat off) = Throw undefinedBigInt)
  /\ (forall w u, 1 <= w -> 0 <= u < 2 ^ w ->
                  - 2 ^ (w - 1) <= signedOf w u < 2 ^ (w - 1)
                  /\ signedOf w u mod 2 ^ w = u)
  /\ (getByte buf off = None -> Interp.readI8 buf (Z.of_nat off) = VUndef).
Proof.
  split; [| split; [| split; [| split; [| split; [| split; [| split]]]]]].
  - intros x Hx. unfold Interp.readI8. rewrite at_getByte, Hx.
    f_equal. apply (gt_signedOf 8).
  - unfold Interp.readI16. rewrite interp_readU16, readU16_le. cbn [value].
    apply (gt_signedOf 16).
  - intros H. unfold Interp.readI64. rewrite interp_readU64, readU64_le by exact H.
    cbn [bind value]. f_equal. apply (gt_signedOf 64).
  - intros H. unfold Interp.readI128.
    rewrite interp_readU128, readU128_le by exact H.
    cbn [bind value]. f_equal. apply (gt_signedOf 128).
  - intros H. unfold Interp.readI64. rewrite interp_readU64.
    unfold readU64. rewrite bigLoop_out by lia. reflexivity.
  - intros H. unfold Interp.readI128. rewrite interp_readU128.
    unfold readU128. rewrite bigLoop_out by lia. reflexivity.
  - intros w u Hw Hu. split; [apply signedOf_range | apply signedOf_mod]; assumption.
  - intros H. unfold Interp.readI8. rewrite at_getByte, H. reflexivity.
Qed.

(** X22: on the primitives u8, u16, i16, i32, u64, u128 and bool the
    interpreter's [decodePrimitive] and the code the generator emits return
    the same value and the same offset on every buffer and offset, and raise
    the same error when they raise. *)
Theorem decoders_agree_on_primitives (p : string) (data : bytes) (off : nat) :
  In p ["u8"; "u16"; "i16"; "i32"; "u64"; "u128"; "bool"] ->
  Interp.decodePrimitive data (Z.of_nat off) p
  = onOffset (Gen.eval (Gen.primitiveCode p) data off).
Proof.
  intros Hin. cbn [In] in Hin.
  assert (Hoff : forall k : nat, Z.of_nat off + Z.of_nat k = Z.of_nat (off + k))
    by (intros k; lia).
  destruct Hin as [<- | [<- | [<- | [<- | [<- | [<- | [<- | []]]]]]]].
  - change (Gen.primitiveCode "u8") with Gen.CReadU8.
    change (Interp.decodePrimitive data (Z.of_nat off) "u8")
      with (Ok (byteValue (Interp.at_ data (Z.of_nat off)), Z.of_nat off + 1)
            : Res (Value * Z)).
    rewrite at_getByte. cbn. do 2 f_equal. lia.
  - change (Gen.primitiveCode "u16") with Gen.CReadU16.
    change (Interp.decodePrimitive data (Z.of_nat off) "u16")
      with (Ok (VNum (Interp.readU16 data (Z.of_nat off)), Z.of_nat off + 2)
            : Res (Value * Z)).
    rewrite interp_readU16. cbn. do 2 f_equal. lia.
  - change (Gen.primitiveCode "i16") with Gen.CI16.
    change (Interp.decodePrimitive data (Z.of_nat off) "i16")
      with (Ok (VNum (Interp.readI16 data (Z.of_nat off)), Z.of_nat off + 2)
            : Res (Value * Z)).
    unfold Interp.readI16. rewrite interp_readU16. cbn. do 2 f_equal. lia.
  - change (Gen.primitiveCode "i32") with Gen.CI32.
    change (Interp.decodePrimitive data (Z.of_nat off) "i32")
      with (Ok (VNum (Interp.readI32 data (Z.of_nat off)), Z.of_nat off + 4)
            : Res (Value * Z)).

    unfold Interp.readI32. rewrite interp_readU32.
    cbn [Gen.eval onOffset bind fst snd offset].
    pose proof (signedOf_range 32 (value (readU32 data off)) ltac:(lia)) as Hr.
    assert (Hu : 0 <= value (readU32 data off) < 2 ^ 32).
    { rewrite readU32_le. apply (leValue_slice_bound data off 4). }
    specialize (Hr Hu). change (2 ^ (32 - 1)) with 2147483648 in Hr.
    replace (2147483647 <? signedOf 32 (value (readU32 data off))) with false
      by (symmetry; apply Z.ltb_ge; lia).
    pose proof (gt_signedOf 32 (value (readU32 data off))) as Hg.
    change (2 ^ (32 - 1) - 1) with 2147483647 in Hg.
    change (2 ^ 32) with 4294967296 in Hg. rewrite Hg.
    do 2 f_equal. unfold readU32. cbn [offset]. lia.
  - change (Gen.primitiveCode "u64") with Gen.CReadU64.
    change (Interp.decodePrimitive data (Z.of_nat off) "u64")
      with (let! v := Interp.readU64 data (Z.of_nat off) in
            Ok (VBig v, Z.of_nat off + 8) : Res (Value * Z)).
    rewrite interp_readU64. cbn [Gen.eval]. unfold readU64.
    destruct (bigLoop data off 0 8 0); cbn; [do 2 f_equal; lia | reflexivity ..].
  - change (Gen.primitiveCode "u128") with Gen.CReadU128.
    change (Interp.decodePrimitive data (Z.of_nat off) "u128")
      with (let! v := Interp.readU128 data (Z.of_nat off) in
            Ok (VBig v, Z.of_nat off + 16) : Res (Value * Z)).
    rewrite interp_readU128. cbn [Gen.eval]. unfold readU128.
    destruct (bigLoop data off 0 16 0); cbn; [do 2 f_equal; lia | reflexivity ..].
  - change (Gen.primitiveCode "bool") with Gen.CBool.
    change (Interp.decodePrimitive data (Z.of_nat off) "bool")
      with (Ok (VBool (match Interp.at_ data (Z.of_nat off) with
                       | Some x => negb (byteZ x =? 0)
                       | None => true
                       end), Z.of_nat off + 1) : Res (Value * Z)).
    rewrite at_getByte. cbn. do 2 f_equal. lia.
Qed.

Lemma decoders_agree_on_primitives_witness :
  In "i32" ["u8"; "u16"; "i16"; "i32"; "u64"; "u128"; "bool"]
  /\ Interp.decodePrimitive [x00; xfe; xff; xff; xff] (Z.of_nat 1) "i32"
     = Ok (VNum (-2), 5)
  /\ Gen.eval (Gen.primitiveCode "i32") [x00; xfe; xff; xff; xff] 1
     = Ok (VNum (-2), 5%nat).
Proof.
  split; [cbn; tauto |].
  pose proof (decoders_agree_on_primitives "i32" [x00; xfe; xff; xff; xff] 1
                ltac:(cbn; tauto)) as H.
  split; [rewrite H |]; reflexivity.
Defined.

Section TypeTables.

Lemma find_app {A} (f : A -> bool) (l1 l2 : list A) :
  List.find f (l1 ++ l2)
  = match List.find f l1 with Some x => Some x | None => List.find f l2 end.
Proof.
  induction l1 as [| a r IH]; [reflexivity |].
  cbn [app List.find]. destruct (f a); [reflexivity | exact IH].
Qed.

Lemma findType_app (l1 l2 : list TypeEntry) (i : Z) :
  Gen.findType (l1 ++ l2) i
  = match Gen.findType l1 i with Some t => Some t | None => Gen.findType l2 i end.
Proof.
  unfold Gen.findType. rewrite find_app.
  destruct (List.find _ l1); reflexivity.
Qed.

Lemma loadTypes_fold (ts : list TypeEntry) :
  forall (m : gmap Z TypeInfo) (i : Z),
    fold_left (fun cache t => <[id t := type t]> cache) ts m !! i
    = match Gen.findType (rev ts) i with Some t => Some t | None => m !! i end.
Proof.
  induction ts as [| t r IH]; intros m i; [reflexivity |].
  cbn [fold_left rev]. rewrite IH, findType_app.
  destruct (Gen.findType (rev r) i); [reflexivity |].
  unfold Gen.findType. cbn [List.find].
  destruct (Z.eqb_spec (id t) i) as [<- | Hne].
  - apply lookup_insert_eq.
  - apply lookup_insert_ne. exact Hne.
Qed.

Lemma findType_None (ts : list TypeEntry) (i : Z) :
  ~ In i (map id ts) -> Gen.findType ts i = None.
Proof.
  induction ts as [| t r IH]; intros Hnot; [reflexivity |].
  unfold Gen.findType in *. cbn [List.find].
  destruct (Z.eqb_spec (id t) i) as [E | _].
  - exfalso. apply Hnot. left. exact E.
  - apply IH. intros Hin. apply Hnot. right. exact Hin.
Qed.

Lemma findType_rev (ts : list TypeEntry) (i : Z) :
  List.NoDup (map id ts) -> Gen.findType (rev ts) i = Gen.findType ts i.
Proof.
  induction ts as [| t r IH]; intros Hnd; [reflexivity |].
  cbn [map] in Hnd. apply List.NoDup_cons_iff in Hnd as [Hnot Hnd].
  cbn [rev]. rewrite findType_app, (IH Hnd).
  unfold Gen.findType at 2 3. cbn [List.find].
  destruct (Z.eqb_spec (id t) i) as [<- | Hne].
  - rewrite (findType_None r (id t) Hnot). reflexivity.
  - fold (Gen.findType r i). destruct (Gen.findType r i); reflexivity.
Qed.

End TypeTables.

(** X23: the interpreter's type cache maps an id to the last entry of the
    type list with that id, the generator's [findType] to the first; they
    agree when ids are not repeated, and [findType] finds nothing exactly
    for the ids that no entry has. *)
Theorem type_lookup (ts : list TypeEntry) (i : Z) :
  Interp.loadTypes ts !! i = Gen.findType (rev ts) i
  /\ (List.NoDup (map id ts) -> Interp.loadTypes ts !! i = Gen.findType ts i)
  /\ (Gen.findType ts i = None <-> ~ In i (map id ts)).
Proof.
  assert (H : Interp.loadTypes ts !! i = Gen.findType (rev ts) i).
  { unfold Interp.loadTypes. rewrite loadTypes_fold.
    destruct (Gen.findType (rev ts) i); [reflexivity | apply lookup_empty]. }
  split; [exact H |]. split.
  - intros Hnd. rewrite H. apply findType_rev. exact Hnd.
  - split; [| apply findType_None].
    intros Hn Hin. apply in_map_iff in Hin as (t & Hid & Hin).
    unfold Gen.findType in Hn.
    destruct (List.find (fun t0 => id t0 =? i) ts) eqn:E; [discriminate |].
    pose proof (List.find_none _ _ E t Hin) as Hf. cbn in Hf.
    apply Z.eqb_neq in Hf. contradiction.
Qed.

Section EventTables.

Lemma loadEvents_ok (es : list EventSpec) :
  forall cache,
    List.Forall (fun e => signature_topic e <> None) es ->
    exists c,
      Interp.loadEvents es cache = Ok c
      /\ forall k,
           c !! k = match List.find (fun e => String.eqb (cacheKey e) k) (rev es) with
                    | Some e => Some e
                    | None => cache !! k
                    end.
Proof.
  induction es as [| e r IH]; intros cache Hall.
  - exists cache. split; [reflexivity |]. intros k. reflexivity.
  - apply List.Forall_cons_iff in Hall as [He Hr].
    cbn [Interp.loadEvents].
    destruct (signature_topic e) as [topic |] eqn:Es; [| congruence].
    destruct (IH (<[Gen.strip0x topic := e]> cache) Hr) as (c & Hc & Hk).
    exists c. split; [exact Hc |]. intros k. rewrite Hk.
    cbn [rev]. rewrite find_app.
    destruct (List.find _ (rev r)); [reflexivity |].
    cbn [List.find]. unfold cacheKey at 1. rewrite Es. cbn [default].
    unfold Datatypes.id.
    destruct (String.eqb_spec (Gen.strip0x topic) k) as [<- | Hne].
    + apply lookup_insert_eq.
    + apply lookup_insert_ne. exact Hne.
Qed.

Lemma loadEvents_fail (es : list EventSpec) :
  forall cache,
    List.Exists (fun e => signature_topic e = None) es ->
    Interp.loadEvents es cache = Throw Interp.loadFailed.
Proof.
  induction es as [| e r IH]; intros cache Hex.
  - inversion Hex.
  - cbn [Interp.loadEvents].
    destruct (signature_topic e) as [topic |] eqn:Es; [| reflexivity].
    apply IH. inversion Hex as [? ? H | ? ? H]; subst; [congruence | exact H].
Qed.

Lemma find_last_key (es : list EventSpec) (e : EventSpec) :
  In e es ->
  exists e', List.find (fun x => String.eqb (cacheKey x) (cacheKey e)) (rev es)
             = Some e'
             /\ cacheKey e' = cacheKey e.
Proof.
  intros Hin.
  destruct (List.find (fun x => String.eqb (cacheKey x) (cacheKey e)) (rev es))
    as [e' |] eqn:E.
  - exists e'. split; [reflexivity |].
    apply List.find_some in E as [_ E]. apply String.eqb_eq in E. exact E.
  - exfalso. apply in_rev in Hin.
    pose proof (List.find_none _ _ E e Hin) as Hf. cbn in Hf.
    rewrite String.eqb_refl in Hf. discriminate.
Qed.

End EventTables.

(** X24: the interpreter's [loadMetadata] fails, with "Failed to load
    metadata", when some event has no [signature_topic]; otherwise it
    succeeds, keeps the mapping, caches the types, and files every event
    under its signature without the ["0x"] prefix, the last event of a key
    winning, so that every event's key finds an event of that key. *)
Theorem loadMetadata_tables (mapping : gmap string string) (metadata : Document) :
  (List.Exists (fun e => signature_topic e = None) (events metadata) ->
   Interp.loadMetadata mapping metadata = Throw Interp.loadFailed)
  /\ (List.Forall (fun e => signature_topic e <> None) (events metadata) ->
      exists decoder,
        Interp.loadMetadata mapping metadata = Ok decoder
        /\ Interp.typeCache decoder = Interp.loadTypes (types metadata)
        /\ Interp.eventTypeMapping decoder = mapping
        /\ (forall k,
               Interp.eventCache decoder !! k
               = List.find (fun e => String.eqb (cacheKey e) k)
                           (rev (events metadata)))
        /\ (forall e, In e (events metadata) ->
                      exists e', Interp.eventCache decoder !! cacheKey e = Some e'
                                 /\ cacheKey e' = cacheKey e)).
Proof.
  split.
  - intros Hex. unfold Interp.loadMetadata.
    rewrite loadEvents_fail by exact Hex. reflexivity.
  - intros Hall. unfold Interp.loadMetadata.
    destruct (loadEvents_ok (events metadata) ∅ Hall) as (c & Hc & Hk).
    rewrite Hc. cbn [bind]. eexists. split; [reflexivity |].
    cbn [Interp.typeCache Interp.eventTypeMapping Interp.eventCache].
    assert (Hfind : forall k,
               c !! k = List.find (fun e => String.eqb (cacheKey e) k)
                                  (rev (events metadata))).
    { intros k. rewrite Hk. destruct (List.find _ _); [reflexivity |].
      apply lookup_empty. }
    repeat split; try reflexivity; [exact Hfind |].
    intros e Hin. rewrite Hfind. apply find_last_key. exact Hin.
Qed.

Section MissingTopics.

Variable self : Interp.SubsquidInkDecoder.

Lemma decodeIndexed_no_topics (fuel : nat) (topics : list string) (i : nat) :
  (length topics <= i)%nat ->
  forall args result,
    Interp.decodeIndexed self fuel args topics result i = Ok result.
Proof.
  intros Hlen. induction args as [| arg rest IH]; intros result; [reflexivity |].
  cbn [Interp.decodeIndexed].
  replace (i <? length topics)%nat with false by (symmetry; apply Nat.ltb_ge; lia).
  rewrite andb_false_r. apply IH.
Qed.

Lemma decodeData_keys (fuel : nat) (eventBytes : bytes) :
  forall args result dataOffset r,
    Interp.decodeData self fuel args eventBytes result dataOffset = Ok r ->
    forall k, In k (map fst r) ->
              In k (map fst result)
              \/ exists arg, In arg args /\ a_indexed arg = false /\ a_label arg = k.
Proof.
  induction args as [| arg rest IH]; intros result dataOffset r H k Hk.
  - injection H as <-. left. exact Hk.
  - cbn [Interp.decodeData] in H.
    assert (Hrest : forall res off,
               Interp.decodeData self fuel rest eventBytes res off = Ok r ->
               In k (map fst res)
               \/ exists a, In a (arg :: rest) /\ a_indexed a = false /\ a_label a = k).
    { intros res off Hd. destruct (IH _ _ _ Hd k Hk) as [Hl | (a & Ha & Hi & Hlab)];
        [left; exact Hl | right; exists a; split; [right; exact Ha | auto]]. }
    destruct (a_indexed arg) eqn:Ei; [apply (Hrest _ _ H) |].
    destruct (Interp.typeCache self !! a_type arg) as [td |]; [| apply (Hrest _ _ H)].
    apply bind_Ok in H as (p & _ & H).
    destruct (Hrest _ _ H) as [Hl | Hr]; [| right; exact Hr].
    apply setProp_keys_In in Hl as [Hl | ->]; [left; exact Hl |].
    right. exists arg. split; [left; reflexivity | auto].
Qed.

End MissingTopics.

(** X25: the interpreter does not fail on missing topics: with at most
    one topic, [decodeEventData] decodes no indexed argument and returns the
    record of the non-indexed ones (still read after one encoding of every
    indexed argument in the data), every key of which is the label of a
    non-indexed argument. *)
Theorem interpreter_missing_topics
        (self : Interp.SubsquidInkDecoder) (fuel : nat) (eventBytes : bytes)
        (eventMetadata : EventSpec) (topics : list string) :
  (length topics <= 1)%nat ->
  Interp.decodeEventData self fuel eventBytes eventMetadata topics
  = (let! dataOffset :=
       Interp.skipIndexed self fuel (e_args eventMetadata) eventBytes 0 in
     Interp.decodeData self fuel (e_args eventMetadata) eventBytes [] dataOffset)
  /\ (forall r,
         Interp.decodeEventData self fuel eventBytes eventMetadata topics = Ok r ->
         forall k, In k (map fst r) ->
                   exists arg, In arg (e_args eventMetadata)
                               /\ a_indexed arg = false /\ a_label arg = k).
Proof.
  intros Hlen.
  assert (E : Interp.decodeEventData self fuel eventBytes eventMetadata topics
              = (let! dataOffset :=
                   Interp.skipIndexed self fuel (e_args eventMetadata) eventBytes 0 in
                 Interp.decodeData self fuel (e_args eventMetadata) eventBytes []
                                   dataOffset)).
  { unfold Interp.decodeEventData.
    rewrite decodeIndexed_no_topics by exact Hlen. reflexivity. }
  split; [exact E |].
  intros r Hr k Hk. rewrite E in Hr. apply bind_Ok in Hr as (off & _ & Hr).
  destruct (decodeData_keys self fuel eventBytes _ _ _ _ Hr k Hk) as [[] | H].
  exact H.
Qed.

Lemma interpreter_missing_topics_witness :
  (length ["0xbfe3"] <= 1)%nat
  /\ Interp.decodeEventData exampleDecoder 2 sixteenThenGuess guessMade ["0xbfe3"]
     = Ok [("attempt", VNum 1); ("guess", VNum 300)].
Proof.
  split; [simpl; lia |].
  rewrite (proj1 (interpreter_missing_topics exampleDecoder 2 sixteenThenGuess
                    guessMade ["0xbfe3"] ltac:(simpl; lia))).
  reflexivity.
Defined.

(** X26: for a variant type without fields, a byte that is a position of
    the variant list and names a variant with a non-empty name is decoded to
    that name, with the offset advanced by one, by the code the generator
    emits and by the interpreter alike. *)
Theorem decoders_agree_on_unit_variants
        (types : list TypeEntry) (self : Interp.SubsquidInkDecoder)
        (typeId : Z) (td : TypeInfo) (variants : list VariantDef)
        (offsetVar : string) (n m : nat)
        (data : bytes) (off : nat) (x : byte) (vd : VariantDef) :
  Gen.findType types typeId = Some td ->
  t_def td = DVariant variants ->
  forallb Gen.isUnit variants = true ->
  getByte data off = Some x ->
  nth_error variants (N.to_nat (Byte.to_N x)) = Some vd ->
  v_name vd <> "" ->
  exists code,
    Gen.generateDecodeCall types (S n) typeId offsetVar = Some code
    /\ Gen.eval code data off = Ok (VStr (v_name vd), (off + 1)%nat)
    /\ Interp.decodeValue self (S m) data (Z.of_nat off) td
       = Ok (VStr (v_name vd), Z.of_nat off + 1).
Proof.
  intros Hf Hd Hu Hx Hn Hne.
  exists (Gen.CUnitVariant (map v_name variants)). split; [| split].
  - cbn [Gen.generateDecodeCall]. rewrite Hf, Hd, Hu. reflexivity.
  - cbn [Gen.eval]. rewrite Hx. unfold Gen.unitName.
    rewrite nth_error_map, Hn. cbn [option_map].
    destruct (v_name vd); [congruence | reflexivity].
  - cbn [Interp.decodeValue]. rewrite Hd, at_getByte, Hx, Hn. reflexivity.
Qed.

Lemma decoders_agree_on_unit_variants_witness :
  exists code,
    Gen.generateDecodeCall exampleTypes 1 6 "offset" = Some code
    /\ Gen.eval code [x00; x02] 1 = Ok (VStr "Found", 2%nat)
    /\ Interp.decodeValue exampleDecoder 1 [x00; x02] (Z.of_nat 1)
         (mkType (DVariant clueVariants) [])
       = Ok (VStr "Found", Z.of_nat 1 + 1).
Proof.
  apply (decoders_agree_on_unit_variants exampleTypes exampleDecoder 6
           (mkType (DVariant clueVariants) []) clueVariants "offset" 0 0
           [x00; x02] 1 x02 (mkVariant 2 "Found" []));
    try reflexivity.
  discriminate.
Defined.

(** ** Generation over the type table *)

Section Termination.

Import Gen.

Lemma mapMi_total {A B} (f : nat -> A -> option B) (l : list A) :
  (forall x i, In x l -> exists y, f i x = Some y) ->
  forall k, exists ys, mapMi f l k = Some ys.
Proof.
  induction l as [| a r IH]; intros H k; [exists []; reflexivity |].
  cbn [mapMi].
  destruct (H a k (or_introl eq_refl)) as (y & ->).
  destruct (IH (fun x i Hx => H x i (or_intror Hx)) (S k)) as (ys & ->).
  eexists. reflexivity.
Qed.

Lemma option_map_total {A B} (g : A -> B) (o : option A) :
  (exists x, o = Some x) -> exists y, option_map g o = Some y.
Proof. intros (x & ->). eexists. reflexivity. Qed.

Variable types : list TypeEntry.
Variable rank : Z -> nat.
Hypothesis ranked :
  forall typeId t,
    findType types typeId = Some t ->
    forall r, In r (references (t_def t)) -> (rank r < rank typeId)%nat.

Lemma generateDecodeCall_total :
  forall fuel typeId offsetVar,
    (rank typeId < fuel)%nat ->
    exists code, generateDecodeCall types fuel typeId offsetVar = Some code.
Proof.
  induction fuel as [| fuel IH]; intros typeId offsetVar Hr; [lia |].
  cbn [generateDecodeCall].
  destruct (findType types typeId) as [t |] eqn:Ef; [| eexists; reflexivity].
  pose proof (ranked typeId t Ef) as Hrefs.
  assert (Hcall : forall r ov, In r (references (t_def t)) ->
                               exists code,
                                 generateDecodeCall types fuel r ov = Some code).
  { intros r ov Hin. apply IH. specialize (Hrefs r Hin). lia. }
  destruct (t_def t) as [p | fields | variants | elem | len elem | elems |];
    cbn [references] in Hcall.
  - destruct p; eexists; reflexivity.
  - apply option_map_total. apply mapMi_total. intros f i Hin.
    apply option_map_total. apply Hcall. apply in_map. exact Hin.
  - destruct (forallb isUnit variants); [eexists; reflexivity |].
    apply option_map_total. apply mapMi_total. intros v i Hv.
    apply option_map_total.
    assert (Hfield : forall f ov, In f (v_fields v) ->
                                  exists code,
                                    generateDecodeCall types fuel (f_type f) ov
                                    = Some code).
    { intros f ov Hf. apply Hcall. apply in_flat_map. exists v.
      split; [exact Hv | apply in_map; exact Hf]. }
    destruct (isUnit v); [eexists; reflexivity |].
    destruct (hasNamedFields (v_fields v)).
    + apply option_map_total. apply mapMi_total. intros f j Hf.
      apply option_map_total. apply Hfield. exact Hf.
    + apply option_map_total. apply mapMi_total. intros f j Hf.
      apply Hfield. exact Hf.
  - destruct (elem =? 5); [eexists; reflexivity |].
    apply option_map_total. apply Hcall. left. reflexivity.
  - destruct (elem =? 0); [eexists; reflexivity |].
    destruct (len <=? 4).
    + apply option_map_total. apply mapMi_total. intros u j _.
      apply Hcall. left. reflexivity.
    + apply option_map_total. apply Hcall. left. reflexivity.
  - eexists. reflexivity.
  - eexists. reflexivity.
Qed.

End Termination.

(** X27: when the types of a table can be ranked so that every type
    ranks above the types its definition names, [generateDecodeCall]
    completes on every type id at the recursion depth of its rank plus one,
    and [generateEventDecoder] completes on every argument list at a depth
    above the ranks of the argument types. *)
Theorem generation_completes
        (types : list TypeEntry) (rank : Z -> nat) :
  (forall typeId t,
      Gen.findType types typeId = Some t ->
      forall r, In r (references (t_def t)) -> (rank r < rank typeId)%nat) ->
  (forall typeId offsetVar,
      exists code,
        Gen.generateDecodeCall types (S (rank typeId)) typeId offsetVar
        = Some code)
  /\ (forall args fuel,
         (forall arg, In arg args -> (rank (a_type arg) < fuel)%nat) ->
         exists blocks, Gen.generateEventDecoder types fuel args = Some blocks).
Proof.
  intros Hrank. split.
  - intros typeId offsetVar.
    apply (generateDecodeCall_total types rank Hrank). lia.
  - intros args fuel Hargs. unfold Gen.generateEventDecoder.
    apply mapMi_total. intros arg i Hin. unfold Gen.generateBlock.
    destruct (a_indexed arg); [eexists; reflexivity |].
    apply option_map_total.
    apply (generateDecodeCall_total types rank Hrank). apply Hargs. exact Hin.
Qed.

Lemma generation_completes_witness :
  (forall typeId t,
      Gen.findType exampleTypes typeId = Some t ->
      forall r, In r (references (t_def t)) ->
                (exampleRank r < exampleRank typeId)%nat)
  /\ (exists code,
         Gen.generateDecodeCall exampleTypes (S (exampleRank 2)) 2 "offset"
         = Some code)
  /\ Gen.generateDecodeCall exampleTypes 3 2 "offset"
     = Some (Gen.CComposite "offset"
               [("field0", Gen.CArrayLoop "currentOffset" 20 Gen.CReadU8)]).
Proof.
  assert (H : forall typeId t,
             Gen.findType exampleTypes typeId = Some t ->
             forall r, In r (references (t_def t)) ->
                       (exampleRank r < exampleRank typeId)%nat).
  { intros typeId t Hf r Hin. unfold Gen.findType, exampleTypes in Hf.
    cbn [List.find id type] in Hf.
    repeat match type of Hf with
           | context [?k =? typeId] =>
               destruct (Z.eqb_spec k typeId) as [<- | ?];
               [injection Hf as <-; cbn in Hin;
                repeat (destruct Hin as [<- | Hin]; [vm_compute; lia |]);
                destruct Hin |]
           end.
    discriminate Hf. }
  split; [exact H |]. split; [| reflexivity].
  apply (proj1 (generation_completes exampleTypes exampleRank H) 2 "offset").
Defined.

(** X28: on a sequence type whose element type is the type itself (and
    not type 5), [generateDecodeCall] completes at no recursion depth. *)
Theorem generation_diverges_on_cycle
        (types : list TypeEntry) (typeId : Z) (t : TypeInfo) :
  Gen.findType types typeId = Some t ->
  t_def t = DSequence typeId ->
  typeId <> 5 ->
  forall fuel offsetVar,
    Gen.generateDecodeCall types fuel typeId offsetVar = None.
Proof.
  intros Hf Hd Hne. induction fuel as [| fuel IH]; intros offsetVar; [reflexivity |].
  cbn [Gen.generateDecodeCall]. rewrite Hf, Hd.
  replace (typeId =? 5) with false by (symmetry; apply Z.eqb_neq; exact Hne).
  rewrite IH. reflexivity.
Qed.

Lemma generation_diverges_on_cycle_witness :
  Gen.findType selfSequence 9 = Some (mkType (DSequence 9) [])
  /\ Gen.generateDecodeCall selfSequence 1000 9 "offset" = None.
Proof.
  split; [reflexivity |].
  apply (generation_diverges_on_cycle selfSequence 9 (mkType (DSequence 9) []));
    [reflexivity | reflexivity | discriminate].
Defined.

(** X29: the hex-string case of [generateDecodeCall] for
    [primitive_types.H160] is emitted only for a type of that path whose
    definition is an empty primitive, an array with element type 0, a tuple
    or of no known kind; a type defined as a composite, as the H160 of the
    metadata is, always decodes to an object. *)
Theorem h160_case_reach
        (types : list TypeEntry) (fuel : nat) (typeId : Z) (offsetVar : string) :
  (Gen.generateDecodeCall types fuel typeId offsetVar = Some Gen.CH160 ->
   exists t,
     Gen.findType types typeId = Some t
     /\ isH160 t = true
     /\ (t_def t = DPrimitive ""
         \/ (exists len, t_def t = DArray len 0)
         \/ (exists elems, t_def t = DTuple elems)
         \/ t_def t = DOther))
  /\ (forall t fields,
         Gen.findType types typeId = Some t ->
         t_def t = DComposite fields ->
         forall code data off v o,
           Gen.generateDecodeCall types fuel typeId offsetVar = Some code ->
           Gen.eval code data off = Ok (v, o) ->
           exists obj, v = VObj obj).
Proof.
  split.
  - destruct fuel as [| fuel]; [discriminate |].
    cbn [Gen.generateDecodeCall].
    destruct (Gen.findType types typeId) as [t |]; [| discriminate].
    intros H. exists t. split; [reflexivity |].
    assert (Hlast : forall msg,
               Some (if isH160 t then Gen.CH160 else Gen.CAssertFalse msg)
               = Some Gen.CH160 -> isH160 t = true).
    { intros msg E. destruct (isH160 t); [reflexivity | discriminate]. }
    destruct (t_def t) as [p | fields | variants | elem | len elem | elems |].
    + destruct p as [| c p'].
      * split; [apply (Hlast _ H) | left; reflexivity].
      * exfalso. revert H. unfold Gen.primitiveCode.
        repeat match goal with
               | |- context [if ?b then _ else _] => destruct b
               end; discriminate.
    + exfalso. destruct (Gen.mapMi _ fields 0); discriminate.
    + exfalso. destruct (forallb Gen.isUnit variants); [discriminate |].
      destruct (Gen.mapMi _ variants 0); discriminate.
    + exfalso. destruct (elem =? 5); [discriminate |].
      destruct (Gen.generateDecodeCall _ _ _ _); discriminate.
    + destruct (Z.eqb_spec elem 0) as [E | _].
      * split; [apply (Hlast _ H) |]. right. left. exists len. rewrite E.
        reflexivity.
      * exfalso. destruct (len <=? 4).
        -- destruct (Gen.mapMi _ _ 0); discriminate.
        -- destruct (Gen.generateDecodeCall _ _ _ _); discriminate.
    + split; [apply (Hlast _ H) |]. right. right. left. exists elems. reflexivity.
    + split; [apply (Hlast _ H) |]. right. right. right. reflexivity.
  - intros t fields Hf Hd code data off v o Hg He.
    destruct fuel as [| fuel]; [discriminate |].
    cbn [Gen.generateDecodeCall] in Hg. rewrite Hf, Hd in Hg.
    destruct (Gen.mapMi _ fields 0) as [cs |]; [| discriminate].
    injection Hg as <-. cbn [Gen.eval] in He.
    destruct (String.eqb offsetVar "currentOffset"); [discriminate |].
    revert He. generalize (@nil (string * Value)). generalize off.
    induction cs as [| [name fc] rest IH]; intros off' acc He.
    + injection He as <- <-. exists acc. reflexivity.
    + destruct (Gen.eval fc data off') as [[fv fo] | |]; cbn [bind] in He;
        try discriminate.
      apply (IH _ _ He).
Qed.

(** ** Strings in the interpreter *)

Section InterpreterStrings.

Lemma sliceZ_slice (buf : bytes) (a b : nat) :
  (a <= b <= length buf)%nat ->
  Interp.sliceZ buf (Z.of_nat a) (Z.of_nat b) = slice buf a b.
Proof.
  intros H. unfold Interp.sliceZ, slice.
  replace (Z.of_nat a <? 0) with false by (symmetry; apply Z.ltb_ge; lia).
  replace (Z.of_nat b <? 0) with false by (symmetry; apply Z.ltb_ge; lia).
  rewrite !Z.min_l by lia.
  rewrite Nat2Z.id. f_equal. lia.
Qed.

Lemma compact_not_u32 (n : Z) :
  0 <= n -> compactEncode n <> leBytes 4 n.
Proof.
  intros Hn E.
  pose proof (f_equal (@length byte) E) as Hl.
  rewrite compactEncode_length, leBytes_length in Hl.
  destruct (Z.ltb_spec n 64) as [| H64]; [discriminate |].
  destruct (Z.ltb_spec n 16384) as [| H14]; [discriminate |].
  destruct (Z.ltb_spec n 1073741824) as [Hlt | Hge].
  - unfold compactEncode in E.
    replace (n <? 64) with false in E by (symmetry; apply Z.ltb_ge; lia).
    replace (n <? 16384) with false in E by (symmetry; apply Z.ltb_ge; lia).
    replace (n <? 1073741824) with true in E by (symmetry; apply Z.ltb_lt; lia).
    apply (f_equal leValue) in E. rewrite !leValue_leBytes in E.
    change (256 ^ Z.of_nat 4) with 4294967296 in E.
    rewrite !Z.mod_small in E by lia. lia.
  - injection Hl as Hl.
    destruct (byteLength_bounds n) as [[Hk _] _]; [| lia].
    split; [lia |].
    apply Z.lt_le_trans with (2 ^ 32); [| apply Z.pow_le_mono_r; lia].
    destruct (Z.lt_ge_cases n (2 ^ 32)) as [Hs | Hb]; [exact Hs |].
    exfalso. unfold byteLength in Hl.
    assert (32 <= Z.log2 n).
    { change 32 with (Z.log2 (2 ^ 32)). apply Z.log2_le_mono. exact Hb. }
    assert (4 <= Z.log2 n / 8) by (apply Z.div_le_lower_bound; lia).
    lia.
Qed.

End InterpreterStrings.

(** X30: the interpreter's [decodeString] reads a string as a four-byte
    little-endian length followed by that many bytes: it returns the bytes
    and the offset just after them for every string shorter than 2^31 bytes.
    That length prefix is never the SCALE compact encoding of the length,
    which [readString] of the generated decoders expects. *)
Theorem interpreter_string_prefix (pre s rest : bytes) :
  Z.of_nat (length s) < 2 ^ 31 ->
  Interp.decodeString (pre ++ leBytes 4 (Z.of_nat (length s)) ++ s ++ rest)
                      (Z.of_nat (length pre))
  = (VText s, Z.of_nat (length pre) + 4 + Z.of_nat (length s))
  /\ compactEncode (Z.of_nat (length s)) <> leBytes 4 (Z.of_nat (length s)).
Proof.
  intros Hs. split; [| apply compact_not_u32; lia].
  set (n := Z.of_nat (length s)) in *.
  set (buf := (pre ++ leBytes 4 n ++ s ++ rest)%list).
  unfold Interp.decodeString.
  assert (Hlen : Interp.readU32 buf (Z.of_nat (length pre)) = n).
  { rewrite interp_readU32, readU32_le. cbn [value]. unfold buf.
    replace (length pre) with (length pre + 0)%nat at 1 by lia.
    rewrite slice_app.
    replace 4%nat with (length (leBytes 4 n)) by apply leBytes_length.
    rewrite slice_prefix, leValue_leBytes.
    change (256 ^ Z.of_nat 4) with 4294967296.
    rewrite Z.mod_small by lia.
    unfold signedOf. change (2 ^ (32 - 1)) with (2 ^ 31).
    replace (n <? 2 ^ 31) with true by (symmetry; apply Z.ltb_lt; lia).
    reflexivity. }
  rewrite Hlen. f_equal. f_equal.
  replace (Z.of_nat (length pre) + 4)
    with (Z.of_nat (length (pre ++ leBytes 4 n)%list))
    by (rewrite length_app, leBytes_length; lia).
  replace (Z.of_nat (length (pre ++ leBytes 4 n)%list) + n)
    with (Z.of_nat (length (pre ++ leBytes 4 n)%list + length s)) by lia.
  rewrite sliceZ_slice.
  - unfold buf. rewrite app_assoc. apply slice_middle.
  - unfold buf. rewrite !length_app. lia.
Qed.

Lemma interpreter_string_prefix_witness :
  Z.of_nat (length [x68; x69]) < 2 ^ 31
  /\ Interp.decodeString [x2a; x02; x00; x00; x00; x68; x69; xff] (Z.of_nat 1)
     = (VText [x68; x69], Z.of_nat 1 + 4 + Z.of_nat 2)
  /\ compactEncode 2 = [x08].
Proof.
  split; [reflexivity |]. split; [| reflexivity].
  apply (proj1 (interpreter_string_prefix [x2a] [x68; x69] [xff] eq_refl)).
Defined.
